(** * Voxel Velocity: the simulation core of [src/services/voxelEngine.ts]

    A shallow embedding of the [VoxelEngine] class: the sparse block map,
    chunk streaming and column synthesis, the jump state machine, the
    per-axis collision resolver, particle aging, and the frame loop with
    its listeners, followed by the properties of the specification.

    Numbers.  Every JavaScript number of the engine is read as an exact
    rational ([Q]); the rounding of binary64 arithmetic is not modelled,
    and the properties are chosen not to turn on it.  The real numbers
    ([R]) appear only to say how close the sine and cosine of a host are
    to the functions themselves.
    Values that the code only ever builds from integers (block coordinates,
    chunk indices, the results of [Math.floor]) are [Z].

    Keys.  The block map is keyed by the template string [`${x},${y},${z}`]
    of three integers.  That string determines the three integers, so the
    key is modelled as the triple itself.

    Host.  [Math.random], [Math.sin], [Math.cos], the window size and the
    ray caster of three.js are not code of the repository; they are the
    fields of a [Host] record that the engine is parameterised by.  The
    n-th call of [Math.random] returns [Math_random n]; the engine state
    counts the calls made so far.  The window size is the one of the host
    at the step that reads it: a run over one host is a run in which the
    window keeps its size, and a window that changes size is a change of
    host between two steps. *)

From Stdlib Require Import Reals Qreals Lra.
From Stdlib Require Import QArith Qround Qminmax Qabs Lqa ZArith Lia List Bool.
From stdpp Require Import gmap.
Import ListNotations.

Local Open Scope Z_scope.

(** ** Configuration (lines 5-12) *)

Definition CHUNK_SIZE : Z := 16.
Definition VIEW_DISTANCE : Z := 4.
Definition GRAVITY : Q := 40.
Definition JUMP_FORCE : Q := 16.
Definition MOVE_SPEED : Q := 12.
Definition SPRINT_SPEED : Q := 20.
Definition DRAG : Q := 8.

(** ** Data *)

(** [keyof typeof materials] and the colour of each material. *)
Inductive Material := grass | dirt | stone | fragile.

Definition materialColor (m : Material) : Z :=
  match m with
  | grass => 0x44d62c
  | dirt => 0xd6882c
  | stone => 0x888888
  | fragile => 0xff4d4d
  end.

Definition Key : Type := Z * Z * Z.

(** A block mesh: [mesh.position.set(x, y, z)] and
    [mesh.userData = { type, key }]. *)
Record BlockMesh := mkBlock {
  bPosition : Z * Z * Z;
  bType : Material;
  bKey : Key
}.

Record Vector3 := vec3 { vec_x : Q; vec_y : Q; vec_z : Q }.
Record Vector2 := vec2 { vec2_x : Q; vec2_y : Q }.

(** A particle mesh with its [userData.vel] and [userData.life]. *)
Record Particle := mkParticle {
  pPosition : Vector3;
  pVel : Vector3;
  pLife : Q;
  pRotX : Q;
  pRotZ : Q;
  pScale : Q;
  pColor : Z
}.

Record GameStats := mkStats { score : Q; time : Q }.

Record Player := mkPlayer {
  position : Vector3;
  velocity : Vector3;
  onGround : bool;
  canDoubleJump : bool
}.

Record Input := mkInput { f : Z; r : Z; sprint : bool }.

(** The three callbacks of [GameCallbacks]; the engine state keeps the
    calls made so far, oldest first. *)
Inductive Callback :=
  | onStatsUpdate (s : GameStats)
  | onDeath
  | onUnlock.

(** The listeners the engine registers: five on [window] (lines 141-153)
    and one on the pointer-lock controls (line 111). *)
Inductive Listener :=
  | L_keydown | L_keyup | L_mousedown | L_mousemove | L_resize | L_unlock.

Global Instance Listener_eq_dec : EqDecision Listener.
Proof. solve_decision. Defined.

Inductive KeyCode :=
  | ArrowUp | KeyW | ArrowLeft | KeyA | ArrowDown | KeyS
  | ArrowRight | KeyD | ShiftLeft | Space | OtherKey.

Record Intersection := mkHit { distance : Q; object : BlockMesh }.

Record Host := mkHost {
  Math_random : nat -> Q;
  Math_sin : Q -> Q;
  Math_cos : Q -> Q;
  innerWidth : Q;
  innerHeight : Q;
  (** [raycaster.setFromCamera(ndc, camera)] followed by
      [raycaster.intersectObjects(objects)], nearest hit first. *)
  intersectObjects : Vector2 -> Vector3 -> list BlockMesh -> list Intersection
}.

(** The fields of [VoxelEngine] that the simulation reads or writes, and
    what the host holds for it: the calls of [Math.random] so far, the
    callbacks invoked, the listeners registered, whether an animation frame
    is pending and whether pointer lock has been requested. *)
Record Engine := mkEngine {
  active : bool;
  lastTime : Q;
  blocks : gmap Key BlockMesh;
  chunksGenerated : gset Z;
  particles : list Particle;
  stats : GameStats;
  player : Player;
  input : Input;
  mouse : Vector2;
  camera : Vector3;
  randomCalls : nat;
  calls : list Callback;
  listeners : list Listener;
  framePending : bool;
  locked : bool
}.

(** Field updates. *)

Definition set_active (b : bool) (e : Engine) : Engine :=
  mkEngine b (lastTime e) (blocks e) (chunksGenerated e) (particles e)
    (stats e) (player e) (input e) (mouse e) (camera e) (randomCalls e)
    (calls e) (listeners e) (framePending e) (locked e).

Definition set_lastTime (t : Q) (e : Engine) : Engine :=
  mkEngine (active e) t (blocks e) (chunksGenerated e) (particles e)
    (stats e) (player e) (input e) (mouse e) (camera e) (randomCalls e)
    (calls e) (listeners e) (framePending e) (locked e).

Definition set_blocks (g : gmap Key BlockMesh) (e : Engine) : Engine :=
  mkEngine (active e) (lastTime e) g (chunksGenerated e) (particles e)
    (stats e) (player e) (input e) (mouse e) (camera e) (randomCalls e)
    (calls e) (listeners e) (framePending e) (locked e).

Definition set_chunksGenerated (c : gset Z) (e : Engine) : Engine :=
  mkEngine (active e) (lastTime e) (blocks e) c (particles e)
    (stats e) (player e) (input e) (mouse e) (camera e) (randomCalls e)
    (calls e) (listeners e) (framePending e) (locked e).

Definition set_particles (ps : list Particle) (e : Engine) : Engine :=
  mkEngine (active e) (lastTime e) (blocks e) (chunksGenerated e) ps
    (stats e) (player e) (input e) (mouse e) (camera e) (randomCalls e)
    (calls e) (listeners e) (framePending e) (locked e).

Definition set_stats (s : GameStats) (e : Engine) : Engine :=
  mkEngine (active e) (lastTime e) (blocks e) (chunksGenerated e) (particles e)
    s (player e) (input e) (mouse e) (camera e) (randomCalls e)
    (calls e) (listeners e) (framePending e) (locked e).

Definition set_player (p : Player) (e : Engine) : Engine :=
  mkEngine (active e) (lastTime e) (blocks e) (chunksGenerated e) (particles e)
    (stats e) p (input e) (mouse e) (camera e) (randomCalls e)
    (calls e) (listeners e) (framePending e) (locked e).

Definition set_input (i : Input) (e : Engine) : Engine :=
  mkEngine (active e) (lastTime e) (blocks e) (chunksGenerated e) (particles e)
    (stats e) (player e) i (mouse e) (camera e) (randomCalls e)
    (calls e) (listeners e) (framePending e) (locked e).

Definition set_mouse (m : Vector2) (e : Engine) : Engine :=
  mkEngine (active e) (lastTime e) (blocks e) (chunksGenerated e) (particles e)
    (stats e) (player e) (input e) m (camera e) (randomCalls e)
    (calls e) (listeners e) (framePending e) (locked e).

Definition set_camera (c : Vector3) (e : Engine) : Engine :=
  mkEngine (active e) (lastTime e) (blocks e) (chunksGenerated e) (particles e)
    (stats e) (player e) (input e) (mouse e) c (randomCalls e)
    (calls e) (listeners e) (framePending e) (locked e).

Definition set_randomCalls (n : nat) (e : Engine) : Engine :=
  mkEngine (active e) (lastTime e) (blocks e) (chunksGenerated e) (particles e)
    (stats e) (player e) (input e) (mouse e) (camera e) n
    (calls e) (listeners e) (framePending e) (locked e).

Definition set_calls (c : list Callback) (e : Engine) : Engine :=
  mkEngine (active e) (lastTime e) (blocks e) (chunksGenerated e) (particles e)
    (stats e) (player e) (input e) (mouse e) (camera e) (randomCalls e)
    c (listeners e) (framePending e) (locked e).

Definition set_listeners (l : list Listener) (e : Engine) : Engine :=
  mkEngine (active e) (lastTime e) (blocks e) (chunksGenerated e) (particles e)
    (stats e) (player e) (input e) (mouse e) (camera e) (randomCalls e)
    (calls e) l (framePending e) (locked e).

Definition set_framePending (b : bool) (e : Engine) : Engine :=
  mkEngine (active e) (lastTime e) (blocks e) (chunksGenerated e) (particles e)
    (stats e) (player e) (input e) (mouse e) (camera e) (randomCalls e)
    (calls e) (listeners e) b (locked e).

Definition set_locked (b : bool) (e : Engine) : Engine :=
  mkEngine (active e) (lastTime e) (blocks e) (chunksGenerated e) (particles e)
    (stats e) (player e) (input e) (mouse e) (camera e) (randomCalls e)
    (calls e) (listeners e) (framePending e) b.

Definition callback (c : Callback) (e : Engine) : Engine :=
  set_calls (calls e ++ [c]) e.

Definition set_position (p : Vector3) (pl : Player) : Player :=
  mkPlayer p (velocity pl) (onGround pl) (canDoubleJump pl).
Definition set_velocity (v : Vector3) (pl : Player) : Player :=
  mkPlayer (position pl) v (onGround pl) (canDoubleJump pl).
Definition set_onGround (b : bool) (pl : Player) : Player :=
  mkPlayer (position pl) (velocity pl) b (canDoubleJump pl).
Definition set_canDoubleJump (b : bool) (pl : Player) : Player :=
  mkPlayer (position pl) (velocity pl) (onGround pl) b.

Definition set_x (q : Q) (v : Vector3) : Vector3 := vec3 q (vec_y v) (vec_z v).
Definition set_y (q : Q) (v : Vector3) : Vector3 := vec3 (vec_x v) q (vec_z v).

Definition set_f (z : Z) (i : Input) : Input := mkInput z (r i) (sprint i).
Definition set_r (z : Z) (i : Input) : Input := mkInput (f i) z (sprint i).
Definition set_sprint (b : bool) (i : Input) : Input := mkInput (f i) (r i) b.

(** Comparisons of numbers as the code's conditions. *)
Definition Qltb (a b : Q) : bool := negb (Qle_bool b a).
Definition Qgtb (a b : Q) : bool := Qltb b a.

(** The integers [lo, lo+1, ..., hi] of a loop
    [for (let i = lo; i <= hi; i++)]; empty when [hi < lo]. *)
Definition Zrange (lo hi : Z) : list Z :=
  map (fun i => lo + Z.of_nat i) (seq 0 (Z.to_nat (hi - lo + 1))).

(** ** The engine, over a host *)

Section Engine.

Variable host : Host.

(** [Math.random()]: the next draw, and the engine that has made it. *)
Definition random (e : Engine) : Q * Engine :=
  (Math_random host (randomCalls e), set_randomCalls (S (randomCalls e)) e).

(** *** The block map (lines 229-239, 184, 298) *)

(** [this.blocks.has(key)] *)
Definition has (k : Key) (g : gmap Key BlockMesh) : bool :=
  bool_decide (is_Some (g !! k)).

(** [this.blocks.get(key)] *)
Definition get (k : Key) (g : gmap Key BlockMesh) : option BlockMesh := g !! k.

(** [this.blocks.delete(key)] *)
Definition remove (k : Key) (g : gmap Key BlockMesh) : gmap Key BlockMesh :=
  delete k g.

(** The map update of [createBlock]: return when the key is present,
    else build the mesh and set it. *)
Definition put (k : Key) (type : Material) (g : gmap Key BlockMesh)
  : gmap Key BlockMesh :=
  if has k g then g else <[k := mkBlock k type k]> g.

Definition createBlock (x y z : Z) (type : Material) (e : Engine) : Engine :=
  set_blocks (put (x, y, z) type (blocks e)) e.

(** *** Particles (lines 241-256) *)

Definition spawnOne (pos : Vector3) (colorHex : Z) (e : Engine) : Engine :=
  let '(r1, e1) := random e in
  let '(r2, e2) := random e1 in
  let '(r3, e3) := random e2 in
  let vel := vec3 ((r1 - 0.5) * 5) ((r2 - 0.5) * 5 + 2) ((r3 - 0.5) * 5) in
  set_particles (particles e3 ++ [mkParticle pos vel 1.0 0 0 1 colorHex]) e3.

Fixpoint spawnParticles (pos : Vector3) (count : nat) (colorHex : Z)
  (e : Engine) : Engine :=
  match count with
  | O => e
  | S n => spawnParticles pos n colorHex (spawnOne pos colorHex e)
  end.

(** *** Jump (lines 156-167) *)

Definition handleJump (e : Engine) : Engine :=
  if negb (active e) then e
  else
    let p := player e in
    if onGround p then
      set_player
        (set_canDoubleJump true
           (set_onGround false
              (set_velocity (set_y JUMP_FORCE (velocity p)) p))) e
    else if canDoubleJump p then
      let e1 :=
        set_player
          (set_canDoubleJump false
             (set_velocity (set_y (JUMP_FORCE * 0.8) (velocity p)) p)) e in
      spawnParticles (position (player e1)) 5 0xffffff e1
    else e.

(** *** Block destruction (lines 169-189) *)

Definition blockPosition (b : BlockMesh) : Vector3 :=
  let '(x, y, z) := bPosition b in vec3 (inject_Z x) (inject_Z y) (inject_Z z).

Definition destroyBlock (e : Engine) : Engine :=
  if negb (active e) then e
  else
    let ndcX := (vec2_x (mouse e) / (innerWidth host / 2))%Q in
    let ndcY := (- (vec2_y (mouse e) / (innerHeight host / 2)))%Q in
    let intersects :=
      intersectObjects host (vec2 ndcX ndcY) (camera e)
        (map snd (map_to_list (blocks e))) in
    match intersects with
    | hit :: _ =>
        if Qltb (distance hit) 20 then
          let e1 :=
            spawnParticles (blockPosition (object hit)) 8
              (materialColor (bType (object hit))) e in
          let e2 := set_blocks (remove (bKey (object hit)) (blocks e1)) e1 in
          let e3 :=
            set_stats (mkStats (score (stats e2) + 10) (time (stats e2))) e2 in
          callback (onStatsUpdate (stats e3)) e3
        else e
    | [] => e
    end.

(** *** Terrain (lines 191-227) *)

(** The surface height of a world column (lines 207-209). *)
Definition columnHeight (worldX : Z) : Z :=
  let height :=
    Qfloor (Math_sin host (inject_Z worldX * 0.1) * 2)
    + Qfloor (Math_cos host (inject_Z worldX * 0.5) * 1) in
  if height <? -2 then -2 else height.

(** The inner loop [for (let y = -4; y <= height; y++)]. *)
Definition fillColumn (worldX height : Z) (e : Engine) : Engine :=
  fold_left
    (fun e y => createBlock worldX y 0 (if y =? height then grass else dirt) e)
    (Zrange (-4) height) e.

(** The fragile obstacle (lines 215-219). *)
Definition fragileObstacle (x worldX height : Z) (e : Engine) : Engine :=
  let '(r1, e1) := random e in
  if Qgtb r1 0.7 && (x >? 2) then
    let '(r2, e2) := random e1 in
    let h := height + 1 + Qfloor (r2 * 3) in
    let e3 := createBlock worldX h 0 fragile e2 in
    let '(r3, e4) := random e3 in
    if Qgtb r3 0.5 then createBlock worldX (h + 1) 0 fragile e4 else e4
  else e1.

(** The stone platform (lines 221-225). *)
Definition stonePlatform (worldX height : Z) (e : Engine) : Engine :=
  let '(r4, e1) := random e in
  if Qgtb r4 0.85 then
    let py := height + 4 in
    createBlock (worldX + 1) py 0 stone (createBlock worldX py 0 stone e1)
  else e1.

(** The body of the loop over the local column [x]. *)
Definition generateColumn (offset : Z) (e : Engine) (x : Z) : Engine :=
  let worldX := offset + x in
  let height := columnHeight worldX in
  stonePlatform worldX height
    (fragileObstacle x worldX height (fillColumn worldX height e)).

Definition generateChunk (cx : Z) (e : Engine) : Engine :=
  let offset := cx * CHUNK_SIZE in
  fold_left (generateColumn offset) (Zrange 0 (CHUNK_SIZE - 1)) e.

(** The body of the loop of [updateChunks] for the chunk index [cx]. *)
Definition ensureChunk (e : Engine) (cx : Z) : Engine :=
  if bool_decide (cx ∈ chunksGenerated e) then e
  else
    let e1 := generateChunk cx e in
    set_chunksGenerated ({[cx]} ∪ chunksGenerated e1) e1.

Definition playerChunkX (e : Engine) : Z :=
  Qfloor (vec_x (position (player e)) / inject_Z CHUNK_SIZE).

Definition chunkWindow (pcx : Z) : list Z :=
  map (fun i => pcx + i) (Zrange (-1) VIEW_DISTANCE).

Definition updateChunks (e : Engine) : Engine :=
  fold_left ensureChunk (chunkWindow (playerChunkX e)) e.

(** *** Collision (lines 287-316) *)

Inductive Axis := AxisX | AxisY.

(** The body of the two nested loops at the cell [(x, y)].  The position
    [p] is the player's own vector, so each correction is seen by the
    next cell; the cell range was computed before the loops. *)
Definition collideCell (axis : Axis) (e : Engine) (cell : Z * Z) : Engine :=
  let '(x, y) := cell in
  if has (x, y, 0) (blocks e) then
    let pl := player e in
    let p := position pl in
    let v := velocity pl in
    match axis with
    | AxisX =>
        let px :=
          if Qgtb (vec_x v) 0 then (inject_Z x - 0.35 - 0.5)%Q
          else (inject_Z x + 0.5 + 0.35)%Q in
        set_player (set_velocity (set_x 0 v) (set_position (set_x px p) pl)) e
    | AxisY =>
        if Qgtb (vec_y v) 0 then
          set_player
            (set_velocity (set_y 0 v)
               (set_position (set_y (inject_Z y - 0.4 - 0.5)%Q p) pl)) e
        else
          set_player
            (set_onGround true
               (set_velocity (set_y 0 v)
                  (set_position (set_y (inject_Z y + 0.5 + 0.4)%Q p) pl))) e
    end
  else e.

(** The cells [(x, y)] in the order the loops visit them. *)
Definition cells (minX maxX minY maxY : Z) : list (Z * Z) :=
  flat_map (fun x => map (fun y => (x, y)) (Zrange minY maxY))
    (Zrange minX maxX).

Definition checkCollision (axis : Axis) (e : Engine) : Engine :=
  let p := position (player e) in
  let minX := Qfloor (vec_x p - 0.35) in
  let maxX := Qfloor (vec_x p + 0.35) in
  let minY := Qfloor (vec_y p - 0.4) in
  let maxY := Qfloor (vec_y p + 0.4) in
  fold_left (collideCell axis) (cells minX maxX minY maxY) e.

(** *** Physics (lines 258-285) *)

(** Lines 259-272: acceleration or drag, the clamp, gravity. *)
Definition accelerate (dt : Q) (e : Engine) : Engine :=
  let speed := if sprint (input e) then SPRINT_SPEED else MOVE_SPEED in
  let v := velocity (player e) in
  let vx1 :=
    if negb (r (input e) =? 0)
    then (vec_x v + inject_Z (r (input e)) * speed * dt * 5)%Q
    else (vec_x v - vec_x v * DRAG * dt)%Q in
  let vx2 := Qmax (Qmin vx1 speed) (- speed) in
  let vy1 := (vec_y v - GRAVITY * dt)%Q in
  set_player (set_velocity (set_y vy1 (set_x vx2 v)) (player e)) e.

(** Lines 275 and 277: the position advances along one axis. *)
Definition advance (axis : Axis) (dt : Q) (e : Engine) : Engine :=
  let pl := player e in
  let p := position pl in
  let v := velocity pl in
  match axis with
  | AxisX => set_player (set_position (set_x (vec_x p + vec_x v * dt)%Q p) pl) e
  | AxisY => set_player (set_position (set_y (vec_y p + vec_y v * dt)%Q p) pl) e
  end.

(** Lines 259-278: the velocity update, then per axis the advance and
    its correction. *)
Definition integrate (dt : Q) (e : Engine) : Engine :=
  checkCollision AxisY
    (advance AxisY dt
       (checkCollision AxisX (advance AxisX dt (accelerate dt e)))).

(** Lines 280-284: the fall-death test.  [controls.unlock()] asks the
    browser to leave pointer lock. *)
Definition fallDeath (e : Engine) : Engine :=
  if Qltb (vec_y (position (player e))) (-10) then
    set_locked false (callback onDeath (set_active false e))
  else e.

Definition updatePhysics (dt : Q) (e : Engine) : Engine :=
  fallDeath (integrate dt e).

(** *** The frame (lines 318-358) *)

(** One particle of the loop of lines 329-341, before the test on its
    life. *)
Definition ageParticle (delta : Q) (p : Particle) : Particle :=
  let life := (pLife p - delta * 2)%Q in
  let vel := set_y (vec_y (pVel p) - GRAVITY * delta * 0.5)%Q (pVel p) in
  let pos :=
    vec3 (vec_x (pPosition p) + vec_x vel * delta)%Q
         (vec_y (pPosition p) + vec_y vel * delta)%Q
         (vec_z (pPosition p) + vec_z vel * delta)%Q in
  mkParticle pos vel life (pRotX p + delta * 5)%Q (pRotZ p + delta * 5)%Q
    (life * 0.2)%Q (pColor p).

(** The loop runs from the last index down to 0 and splices out the
    particles whose life is [<= 0]; the others keep their order. *)
Definition updateParticles (delta : Q) (ps : list Particle) : list Particle :=
  fold_right
    (fun p acc =>
       let p' := ageParticle delta p in
       if Qle_bool (pLife p') 0 then acc else p' :: acc)
    [] ps.

Definition updateCamera (delta : Q) (e : Engine) : Engine :=
  let p := position (player e) in
  let targetX := (vec_x p + 5)%Q in
  let targetY := Qmax (vec_y p + 2)%Q 5 in
  let c := camera e in
  let cx := (vec_x c + (targetX - vec_x c) * 5 * delta)%Q in
  let cy := (vec_y c + (targetY - vec_y c) * 5 * delta)%Q in
  set_camera (set_y cy (set_x cx c)) e.

Definition updateStats (delta : Q) (e : Engine) : Engine :=
  let s := mkStats (score (stats e) + delta * 10)%Q (time (stats e) + delta)%Q in
  callback (onStatsUpdate s) (set_stats s e).

(** The body of [if (this.active)] in [animate]. *)
Definition simulate (delta : Q) (e : Engine) : Engine :=
  let e1 := updatePhysics delta e in
  let e2 := set_particles (updateParticles delta (particles e1)) e1 in
  let e3 := updateCamera delta e2 in
  let e4 := updateChunks e3 in
  updateStats delta e4.

(** [animate], called at time [now] (milliseconds). *)
Definition animate (now : Q) (e : Engine) : Engine :=
  let e0 := set_framePending true e in
  let delta := Qmin ((now - lastTime e0) / 1000)%Q 0.1 in
  let e1 := set_lastTime now e0 in
  if active e1 then simulate delta e1 else e1.

(** *** The public methods and the listeners *)

(** [lock()] at time [now] (lines 360-367). *)
Definition lock (now : Q) (e : Engine) : Engine :=
  set_locked true (set_lastTime now (set_active true e)).

(** [dispose()] (lines 380-386): the pending frame is cancelled and the
    [resize] listener is removed.  The renderer and the canvas are not
    part of the state: the call that finds the canvas already removed
    makes these two changes and then throws at [removeChild], which the
    model does not tell from a call that returns. *)
Definition dispose (e : Engine) : Engine :=
  set_listeners (filter (fun l => l <> L_resize) (listeners e))
    (set_framePending false e).

(** [onKey(e, v)] (lines 128-139). *)
Definition onKey (code : KeyCode) (v : bool) (e : Engine) : Engine :=
  match code with
  | ArrowUp | KeyW => set_input (set_f (if v then 1 else 0) (input e)) e
  | ArrowLeft | KeyA => set_input (set_r (if v then -1 else 0) (input e)) e
  | ArrowDown | KeyS => set_input (set_f (if v then -1 else 0) (input e)) e
  | ArrowRight | KeyD => set_input (set_r (if v then 1 else 0) (input e)) e
  | ShiftLeft => set_input (set_sprint v (input e)) e
  | Space => if v then handleJump e else e
  | OtherKey => e
  end.

(** The [mousemove] listener (lines 144-152). *)
Definition onMouseMove (movementX movementY : Q) (e : Engine) : Engine :=
  if negb (active e) then e
  else
    let mx := (vec2_x (mouse e) + movementX)%Q in
    let my := (vec2_y (mouse e) + movementY)%Q in
    let limitX := (innerWidth host / 2)%Q in
    let limitY := (innerHeight host / 2)%Q in
    set_mouse
      (vec2 (Qmax (- limitX) (Qmin limitX mx)) (Qmax (- limitY) (Qmin limitY my)))
      e.

(** The [unlock] listener of the controls (lines 111-114). *)
Definition onUnlockEvent (e : Engine) : Engine :=
  callback onUnlock (set_active false e).

(** The constructor and [init()] at time [now]: the initial fields, the
    listeners of [setupInputs], the first [updateChunks] and the first
    call of [animate]. *)
Definition init (now : Q) : Engine :=
  let e :=
    mkEngine false 0 ∅ ∅ [] (mkStats 0 0)
      (mkPlayer (vec3 0 5 0) (vec3 0 0 0) false false)
      (mkInput 0 0 false) (vec2 0 0) (vec3 0 5 15) 0 []
      [L_unlock; L_keydown; L_keyup; L_mousedown; L_mousemove; L_resize]
      false false in
  animate now (set_lastTime now (updateChunks e)).

(** What the host can do to an engine: deliver an animation frame or a
    browser event, or call a public method. *)
Inductive Event :=
  | AnimationFrame (now : Q)
  | Keydown (code : KeyCode)
  | Keyup (code : KeyCode)
  | Mousedown
  | Mousemove (movementX movementY : Q)
  | Resize
  | PointerUnlock
  | CallLock (now : Q)
  | CallDispose.

Definition registered (l : Listener) (e : Engine) : bool :=
  bool_decide (l ∈ listeners e).

(** A frame runs only while one is pending, a listener only while it is
    registered.  [onResize] (lines 373-378) sets the aspect of the camera
    and the size of the renderer, which are not part of the state. *)
Definition step (e : Engine) (ev : Event) : Engine :=
  match ev with
  | AnimationFrame now => if framePending e then animate now e else e
  | Keydown code => if registered L_keydown e then onKey code true e else e
  | Keyup code => if registered L_keyup e then onKey code false e else e
  | Mousedown => if registered L_mousedown e then destroyBlock e else e
  | Mousemove dx dy =>
      if registered L_mousemove e then onMouseMove dx dy e else e
  | Resize => e
  | PointerUnlock => if registered L_unlock e then onUnlockEvent e else e
  | CallLock now => lock now e
  | CallDispose => dispose e
  end.

Definition run (e : Engine) (evs : list Event) : Engine := fold_left step evs e.

End Engine.

(** ** Definitions used to state the properties *)

Section Statements.

Variable host : Host.

(** The velocity of a particle whose three draws start at call [n]. *)
Definition spawnVelocity (n : nat) : Vector3 :=
  vec3 ((Math_random host n - 0.5) * 5)%Q
       ((Math_random host (S n) - 0.5) * 5 + 2)%Q
       ((Math_random host (S (S n)) - 0.5) * 5)%Q.

(** The [count] particles spawned when [start] draws have been made. *)
Definition spawned (pos : Vector3) (colorHex : Z) (start count : nat)
  : list Particle :=
  map (fun i => mkParticle pos (spawnVelocity (start + 3 * i)) 1.0 0 0 1 colorHex)
    (seq 0 count).

End Statements.

(** The engine with the forward/back intent replaced. *)
Definition with_f (z : Z) (e : Engine) : Engine :=
  set_input (set_f z (input e)) e.

(** What a simulation step works on: the world, the player, the
    statistics, the session flag and what the host has seen. *)
Definition simulationState (e : Engine) :=
  (player e, stats e, blocks e, particles e, chunksGenerated e,
   active e, calls e, randomCalls e).

(** [e'] is [e] with other blocks and more random draws made. *)
Definition terrainOnly (e e' : Engine) : Prop :=
  e' = set_blocks (blocks e') (set_randomCalls (randomCalls e') e).

(** [e'] is [e] with another chunk ledger, other blocks and more random
    draws made. *)
Definition worldOnly (e e' : Engine) : Prop :=
  e' = set_chunksGenerated (chunksGenerated e')
         (set_blocks (blocks e') (set_randomCalls (randomCalls e') e)).

(** [e'] is [e] with another player. *)
Definition playerOnly (e e' : Engine) : Prop := e' = set_player (player e') e.

(** The number of [onDeath] calls among the callbacks made. *)
Definition isDeath (c : Callback) : bool :=
  match c with onDeath => true | _ => false end.

Definition deaths (e : Engine) : nat := length (List.filter isDeath (calls e)).

Definition grounded (e : Engine) : Prop := onGround (player e) = true.

(** The player's coordinates and velocity components. *)
Definition px (e : Engine) : Q := vec_x (position (player e)).
Definition py (e : Engine) : Q := vec_y (position (player e)).
Definition pvx (e : Engine) : Q := vec_x (velocity (player e)).
Definition pvy (e : Engine) : Q := vec_y (velocity (player e)).

(** The correction of [checkCollision('x')] at a block of column [x] when
    velocity.x is not positive, and that of [checkCollision('y')] at a
    block of row [y] when velocity.y is not positive. *)
Definition hitX (x : Z) (e : Engine) : Engine :=
  let pl := player e in
  set_player
    (set_velocity (set_x 0 (velocity pl))
       (set_position (set_x (inject_Z x + 0.5 + 0.35)%Q (position pl)) pl)) e.

Definition hitY (y : Z) (e : Engine) : Engine :=
  let pl := player e in
  set_player
    (set_onGround true
       (set_velocity (set_y 0 (velocity pl))
          (set_position (set_y (inject_Z y + 0.5 + 0.4)%Q (position pl)) pl)))
    e.

(** The cells that a collision test of [e] visits. *)
Definition cellsOf (e : Engine) : list (Z * Z) :=
  cells (Qfloor (px e - 0.35)) (Qfloor (px e + 0.35))
        (Qfloor (py e - 0.4)) (Qfloor (py e + 0.4)).

(** A floor: in the layer z = 0 the blocks are those of row y = 0 from
    column [lo] to column [hi]. *)
Definition flatFloor (lo hi : Z) (g : gmap Key BlockMesh) : Prop :=
  forall x y, is_Some (g !! (x, y, 0)) <-> y = 0 /\ lo <= x <= hi.

Definition floorGrid (lo hi : Z) : gmap Key BlockMesh :=
  fold_left (fun g x => put (x, 0, 0) stone g) (Zrange lo hi) ∅.

(** [n] physics steps of [dt] each. *)
Definition steps (dt : Q) (n : nat) (e : Engine) : Engine :=
  Nat.iter n (updatePhysics dt) e.

(** The player falls: after [n] steps of [dt] from rest at height 5 in
    column [x0], still above the reach of the floor. *)
Definition airborne (dt x0 : Q) (g : gmap Key BlockMesh) (n : nat)
  (e : Engine) : Prop :=
  let m := inject_Z (Z.of_nat n) in
  blocks e = g /\ r (input e) = 0 /\
  (px e == x0)%Q /\ (pvx e == 0)%Q /\
  (pvy e == - (40 * dt * m))%Q /\
  (py e == 5 - 20 * (dt * dt) * m * (m + 1))%Q /\
  (1.4 <= py e)%Q.

(** The player rests on the floor, over one of its blocks. *)
Definition landed (lo hi : Z) (g : gmap Key BlockMesh) (e : Engine) : Prop :=
  blocks e = g /\ r (input e) = 0 /\
  (py e == 0.9)%Q /\ (pvy e == 0)%Q /\ (pvx e == 0)%Q /\
  onGround (player e) = true /\
  exists x, lo <= x <= hi /\
            Qfloor (px e - 0.35) <= x <= Qfloor (px e + 0.35).

(** The engine before the X correction of a step. *)
Definition beforeX (dt : Q) (e : Engine) : Engine :=
  advance AxisX dt (accelerate dt e).

(** No block of [e] is replaced or removed in [e']. *)
Definition keeps (e e' : Engine) : Prop :=
  forall k b, blocks e !! k = Some b -> blocks e' !! k = Some b.

(** The block that the column loop creates at height [y] of a column of
    surface height [height]. *)
Definition terrainBlock (worldX y height : Z) : BlockMesh :=
  mkBlock (worldX, y, 0) (if y =? height then grass else dirt) (worldX, y, 0).

(** [End Statements] closed the host; what follows is independent of it
    or takes it as an argument. *)

(** Generate the chunk [cx] and enter it in the ledger, as [updateChunks]
    does for an index that is not in the ledger. *)
Definition generateAndMark (host : Host) (e : Engine) (cx : Z) : Engine :=
  let e1 := generateChunk host cx e in
  set_chunksGenerated ({[cx]} ∪ chunksGenerated e1) e1.

(** The events other than a call of [lock()]. *)
Definition notLock (ev : Event) : Prop :=
  match ev with CallLock _ => False | _ => True end.

(** The [delta] that [animate] computes at time [now]. *)
Definition frameDelta (now : Q) (e : Engine) : Q :=
  Qmin ((now - lastTime e) / 1000)%Q 0.1.

(** ** Concrete hosts and engines *)

(** A ray caster that reports the first object it is given, at distance
    [d]. *)
Definition hitFirst (d : Q)
  : Vector2 -> Vector3 -> list BlockMesh -> list Intersection :=
  fun _ _ objects =>
    match objects with
    | b :: _ => [mkHit d b]
    | [] => []
    end.

(** A host on which the terrain is flat at height 0 and no obstacle or
    platform is generated. *)
Definition flatHost : Host :=
  mkHost (fun _ => 0%Q) (fun _ => 0%Q) (fun _ => 0%Q) 800 600 (hitFirst 1).

Definition allListeners : list Listener :=
  [L_unlock; L_keydown; L_keyup; L_mousedown; L_mousemove; L_resize].

(** An engine over an empty world with the player at (0, 5, 0). *)
Definition fixture (act ground double : bool) : Engine :=
  mkEngine act 0 ∅ ∅ [] (mkStats 0 0)
    (mkPlayer (vec3 0 5 0) (vec3 0 0 0) ground double)
    (mkInput 0 0 false) (vec2 0 0) (vec3 0 5 15) 0 [] allListeners true true.

(** An active engine whose world is the single block (0, 0, 0), with the
    player at rest on it; [intent] is the lateral intent. *)
Definition perched (intent : Z) : Engine :=
  mkEngine true 0 (put (0, 0, 0) grass ∅) ∅ [] (mkStats 0 0)
    (mkPlayer (vec3 0 0.9 0) (vec3 0 0 0) true false)
    (mkInput 0 intent false) (vec2 0 0) (vec3 0 5 15) 0 [] allListeners
    true true.

(** An active engine over an empty world with the player just above the
    fall-death line. *)
Definition falling : Engine :=
  mkEngine true 0 ∅ ∅ [] (mkStats 0 0)
    (mkPlayer (vec3 0 (-9.9) 0) (vec3 0 (-4) 0) false false)
    (mkInput 0 0 false) (vec2 0 0) (vec3 0 5 15) 0 [] allListeners true true.

(** An active engine over the blocks [g] with the player at rest at
    (0, 5, 0) and no intent. *)
Definition dropped (g : gmap Key BlockMesh) : Engine :=
  mkEngine true 0 g ∅ [] (mkStats 0 0)
    (mkPlayer (vec3 0 5 0) (vec3 0 0 0) false false)
    (mkInput 0 0 false) (vec2 0 0) (vec3 0 5 15) 0 [] allListeners true true.

(** What the host delivers after the death frame in the example. *)
Definition laterEvents : list Event :=
  [AnimationFrame 120; Keydown Space; AnimationFrame 140; Mousedown;
   AnimationFrame 160].

Definition freshParticle : Particle :=
  mkParticle (vec3 0 0 0) (vec3 1 2 0) 1.0 0 0 1 0xffffff.


(** ** Definitions for the further properties *)

(** The speed limit of the current input. *)
Definition speedOf (e : Engine) : Q :=
  if sprint (input e) then SPRINT_SPEED else MOVE_SPEED.

(** The intersections that [destroyBlock] asks the ray caster for. *)
Definition aim (host : Host) (e : Engine) : list Intersection :=
  intersectObjects host
    (vec2 (vec2_x (mouse e) / (innerWidth host / 2))%Q
          (- (vec2_y (mouse e) / (innerHeight host / 2)))%Q)
    (camera e) (map snd (map_to_list (blocks e))).

(** Every block sits under its own key and at its own position. *)
Definition wellKeyed (g : gmap Key BlockMesh) : Prop :=
  forall k b, g !! k = Some b -> bKey b = k /\ bPosition b = k.

(** The look offset is within half the window in each direction. *)
Definition mouseInWindow (host : Host) (e : Engine) : Prop :=
  (- (innerWidth host / 2) <= vec2_x (mouse e) <= innerWidth host / 2)%Q /\
  (- (innerHeight host / 2) <= vec2_y (mouse e) <= innerHeight host / 2)%Q.

(** The engine after a successful [destroyBlock] on the intersection
    [hit]: eight particles of the block's colour at its position, the
    block's key deleted, ten points, one statistics report. *)
Definition destroyed (host : Host) (hit : Intersection) (e : Engine) : Engine :=
  let s := mkStats (score (stats e) + 10)%Q (time (stats e)) in
  callback (onStatsUpdate s)
    (set_stats s
       (set_blocks (delete (bKey (object hit)) (blocks e))
          (set_particles
             (particles e ++
              spawned host (blockPosition (object hit))
                (materialColor (bType (object hit))) (randomCalls e) 8)
             (set_randomCalls (3 * 8 + randomCalls e) e)))).

(** Well-keyed blocks stay well-keyed from [e] to [e']. *)
Definition keepsKeys (e e' : Engine) : Prop :=
  wellKeyed (blocks e) -> wellKeyed (blocks e').

(** Every block of [e'] was already a block of [e]. *)
Definition addsNothing (e e' : Engine) : Prop :=
  forall k b, blocks e' !! k = Some b -> blocks e !! k = Some b.

(** A frame is not delivered with a time before the engine's last one. *)
Definition notBefore (e : Engine) (ev : Event) : Prop :=
  match ev with
  | AnimationFrame now => (lastTime e <= now)%Q
  | _ => True
  end.

(** [Math.random] returns a number in [0, 1). *)
Definition unitRandom (host : Host) : Prop :=
  forall n, (0 <= Math_random host n < 1)%Q.

(** The cells that [generateChunk cx] may write: layer 0, the sixteen
    columns of the chunk and the first column of the next one, from
    y = -4 upwards. *)
Definition chunkRegion (cx : Z) (k : Key) : Prop :=
  let '(x, y, z) := k in
  z = 0 /\ cx * CHUNK_SIZE <= x <= cx * CHUNK_SIZE + CHUNK_SIZE /\ -4 <= y.

(** Every block of [e'] is a block of [e] or lies in the region of the
    chunk [cx]. *)
Definition writesWithin (cx : Z) (e e' : Engine) : Prop :=
  forall k b, blocks e' !! k = Some b ->
              blocks e !! k = Some b \/ chunkRegion cx k.

(** Sine and cosine of the host stay within [-1, 1]. *)
Definition boundedTrig (host : Host) : Prop :=
  forall a, (-1 <= Math_sin host a <= 1)%Q /\ (-1 <= Math_cos host a <= 1)%Q.

(** A host whose random draws are all 0.9: every column gets a fragile
    obstacle (from local column 3 on) and a stone platform. *)
Definition stonyHost : Host :=
  mkHost (fun _ => 0.9%Q) (fun _ => 0%Q) (fun _ => 0%Q) 800 600 (hitFirst 1).

(** An active engine over the blocks [g] with the player at rest on the
    row y = 0, at x = 0.85, and no intent. *)
Definition rested (g : gmap Key BlockMesh) : Engine :=
  mkEngine true 0 g ∅ [] (mkStats 0 0)
    (mkPlayer (vec3 0.85 0.9 0) (vec3 0 0 0) true false)
    (mkInput 0 0 false) (vec2 0 0) (vec3 0 5 15) 0 [] allListeners true true.

(** The engine as the constructor's field initialisers leave it, before
    [init()] generates the first chunks. *)
Definition blank : Engine :=
  mkEngine false 0 ∅ ∅ [] (mkStats 0 0)
    (mkPlayer (vec3 0 5 0) (vec3 0 0 0) false false)
    (mkInput 0 0 false) (vec2 0 0) (vec3 0 5 15) 0 []
    [L_unlock; L_keydown; L_keyup; L_mousedown; L_mousemove; L_resize]
    false false.

(** What the host delivers before the first [lock()] in the example. *)
Definition earlyEvents : list Event :=
  [AnimationFrame 16; Keydown Space; Mousedown; Mousemove 3 4;
   AnimationFrame 32].

(** The keys of the lateral intent. *)
Definition lateralKey (code : KeyCode) : bool :=
  match code with
  | ArrowLeft | KeyA | ArrowRight | KeyD => true
  | _ => false
  end.

(** From [e] to [e'] no frame has run: no frame is pending, the player
    has not moved, no time has been counted, the chunk ledger is the
    same, no block was added and no listener was registered. *)
Definition noFrameSince (e e' : Engine) : Prop :=
  framePending e' = false /\
  position (player e') = position (player e) /\
  time (stats e') = time (stats e) /\
  chunksGenerated e' = chunksGenerated e /\
  addsNothing e e' /\
  (forall l, l ∈ listeners e' -> l ∈ listeners e).

(** ** The application around the engine (App.tsx) *)

(** [enum GameState] of [types.ts]. *)
Inductive GameState := MENU | PLAYING | GAME_OVER.

(** The state hooks of [App]: [gameState], [stats] and [gameId]. *)
Record App := mkApp {
  gameState : GameState;
  appStats : GameStats;
  gameId : nat
}.

(** [handleStatsUpdate], [handleDeath] and [handleUnlock]. *)
Definition handleStatsUpdate (newStats : GameStats) (a : App) : App :=
  mkApp (gameState a) newStats (gameId a).

Definition handleDeath (a : App) : App :=
  mkApp GAME_OVER (appStats a) (gameId a).

Definition handleUnlock (a : App) : App :=
  mkApp (match gameState a with PLAYING => MENU | prev => prev end)
    (appStats a) (gameId a).

(** The state updates of [startGame]; the call of [lock()] that follows
    after 50 ms is the event [CallLock] of the engine. *)
Definition startGame (a : App) : App :=
  match gameState a with
  | GAME_OVER => mkApp PLAYING (mkStats 0 0) (S (gameId a))
  | _ => mkApp PLAYING (appStats a) (gameId a)
  end.

(** The callbacks that [App] hands to the engine. *)
Definition deliver (a : App) (c : Callback) : App :=
  match c with
  | onStatsUpdate s => handleStatsUpdate s a
  | onDeath => handleDeath a
  | onUnlock => handleUnlock a
  end.

(** The cells visited by a collision test of [e] that hold a block, in
    the order of the loops. *)
Definition occupied (e : Engine) : list (Z * Z) :=
  List.filter (fun c => has (fst c, snd c, 0) (blocks e)) (cellsOf e).

(** The correction at the cell [c] of a player that is not moving in the
    positive direction of the axis. *)
Definition hitOf (axis : Axis) (c : Z * Z) (e : Engine) : Engine :=
  match axis with
  | AxisX => hitX (fst c) e
  | AxisY => hitY (snd c) e
  end.

(** An active engine whose blocks are the two-block ceiling (0, 2, 0) and
    (1, 2, 0), with the player rising under the joint of the two. *)
Definition underCeiling : Engine :=
  mkEngine true 0 (put (1, 2, 0) stone (put (0, 2, 0) stone ∅)) ∅ []
    (mkStats 0 0)
    (mkPlayer (vec3 0.9 1.7 0) (vec3 0 8 0) false true)
    (mkInput 0 0 false) (vec2 0 0) (vec3 0 5 15) 0 [] allListeners true true.

(** The player is not moving in the positive direction of the axis. *)
Definition still (axis : Axis) (e : Engine) : Prop :=
  match axis with
  | AxisX => ~ (0 < pvx e)%Q
  | AxisY => ~ (0 < pvy e)%Q
  end.

(** A host with hills: sine steps from -1 through 0 to 1 between the
    world columns 36, 37 and 38, cosine is -1 throughout, and the random
    draws alternate between 0.9 and 0.2. *)
Definition hillHost : Host :=
  mkHost (fun n => if Nat.even n then 0.9%Q else 0.2%Q)
    (fun a => if Qltb a 3.65 then (-1)%Q else if Qltb a 3.75 then 0%Q else 1%Q)
    (fun _ => (-1)%Q) 800 600 (hitFirst 1).


(** The live set after ticks of the deltas [deltas], first to last. *)
Definition ticked (deltas : list Q) (ps : list Particle) : list Particle :=
  fold_left (fun ps delta => updateParticles delta ps) deltas ps.

(** The player falls below the reach of the floor [g]. *)
Definition fallen (g : gmap Key BlockMesh) (e : Engine) : Prop :=
  blocks e = g /\ r (input e) = 0 /\ (pvx e == 0)%Q /\
  (pvy e <= 0)%Q /\ (py e < -0.4)%Q /\ onGround (player e) = false.

(** [dropped g] with the player already falling at 75 blocks a second. *)
Definition plunging (g : gmap Key BlockMesh) : Engine :=
  mkEngine true 0 g ∅ [] (mkStats 0 0)
    (mkPlayer (vec3 0 5 0) (vec3 0 (-75) 0) false false)
    (mkInput 0 0 false) (vec2 0 0) (vec3 0 5 15) 0 [] allListeners true true.

(** The events other than a resize of the window, and those other than a
    mouse move. *)
Definition notResize (ev : Event) : Prop :=
  match ev with Resize => False | _ => True end.

Definition notMove (ev : Event) : Prop :=
  match ev with Mousemove _ _ => False | _ => True end.

(** The flat host after the window has shrunk to 400 by 300. *)
Definition narrowHost : Host :=
  mkHost (fun _ => 0%Q) (fun _ => 0%Q) (fun _ => 0%Q) 400 300 (hitFirst 1).

(** Sine and cosine of the host are within 1/100 of the sine and cosine
    of the reals, as those of [Math] are. *)
Definition realTrig (host : Host) : Prop :=
  forall a : Q,
    (Rabs (Q2R (Math_sin host a) - sin (Q2R a)) <= 1 / 100)%R /\
    (Rabs (Q2R (Math_cos host a) - cos (Q2R a)) <= 1 / 100)%R.

(** The surface rises by less than four from a column to the next. *)
Definition gentle (host : Host) : Prop :=
  forall worldX, columnHeight host (worldX + 1) < columnHeight host worldX + 4.

(** A host whose sine and cosine are those of the reals rounded up to
    the next hundredth. *)
Definition realHost : Host :=
  mkHost (fun _ => 0%Q)
    (fun a => (inject_Z (up (100 * sin (Q2R a))) / 100)%Q)
    (fun a => (inject_Z (up (100 * cos (Q2R a))) / 100)%Q)
    800 600 (hitFirst 1).
(** * Properties *)

(** ** The block map *)

Section VoxelGrid.

Implicit Types (k : Key) (g : gmap Key BlockMesh) (t : Material).

Lemma has_true k g : has k g = true <-> is_Some (g !! k).
Proof. unfold has. apply bool_decide_eq_true. Qed.

Lemma has_false k g : has k g = false <-> g !! k = None.
Proof.
  unfold has. rewrite bool_decide_eq_false. symmetry. apply eq_None_not_Some.
Qed.

Lemma put_occupied k t g : has k g = true -> put k t g = g.
Proof. intros H. unfold put. now rewrite H. Qed.

Lemma put_free k t g :
  g !! k = None -> put k t g = <[k := mkBlock k t k]> g.
Proof. intros H. unfold put. apply has_false in H. now rewrite H. Qed.

Lemma has_put k t g : has k (put k t g) = true.
Proof.
  destruct (has k g) eqn:E.
  - now rewrite put_occupied.
  - apply has_false in E. rewrite put_free by done.
    apply has_true. rewrite lookup_insert_eq. eauto.
Qed.

Lemma has_remove k g : has k (remove k g) = false.
Proof. apply has_false. apply lookup_delete_eq. Qed.

(** A present entry survives every later [put], whatever its key. *)
Lemma put_keeps k k' t g b : g !! k = Some b -> put k' t g !! k = Some b.
Proof.
  intros H. unfold put. destruct (has k' g) eqn:E; [done|].
  apply has_false in E. rewrite lookup_insert_ne; [done|]. congruence.
Qed.

Lemma put_other k k' t g : k <> k' -> put k' t g !! k = g !! k.
Proof.
  intros H. unfold put. destruct (has k' g); [done|].
  now rewrite lookup_insert_ne.
Qed.

Lemma put_new k t g : g !! k = None -> put k t g !! k = Some (mkBlock k t k).
Proof. intros H. rewrite put_free by done. apply lookup_insert_eq. Qed.

(** C4: on the block map, [put] then [has] is true, [remove] then [has]
    is false, and [put] at an occupied coordinate changes nothing: the
    map, and so the block and its type at that coordinate, stay as they
    were. *)
Theorem C4_put_has_remove k t g :
  has k (put k t g) = true /\
  has k (remove k g) = false /\
  (has k g = true -> put k t g = g /\ get k (put k t g) = get k g) /\
  put k t (put k t g) = put k t g.
Proof.
  split; [apply has_put|]. split; [apply has_remove|]. split.
  - intros H. rewrite put_occupied by done. done.
  - apply put_occupied, has_put.
Qed.

End VoxelGrid.

(** C4 at the coordinate (3, -1, 0) of a map that holds a grass block
    there: a [put] of stone leaves the grass block. *)
Lemma C4_put_has_remove_witness :
  let g : gmap Key BlockMesh := put (3, -1, 0) grass ∅ in
  has (3, -1, 0) g = true /\
  put (3, -1, 0) stone g = g /\
  bType <$> get (3, -1, 0) (put (3, -1, 0) stone g) = Some grass.
Proof.
  intros g.
  destruct (C4_put_has_remove (3, -1, 0) stone g) as (_ & _ & H & _).
  assert (Hg : has (3, -1, 0) g = true) by (vm_compute; reflexivity).
  destruct (H Hg) as [H1 H2].
  split; [exact Hg|]. split; [exact H1|].
  rewrite H2. vm_compute. reflexivity.
Defined.

(** ** Particles spawned *)

Section Spawn.

Variable host : Host.

Lemma spawnOne_eq pos c e :
  spawnOne host pos c e =
  set_particles (particles e ++ spawned host pos c (randomCalls e) 1)
    (set_randomCalls (3 + randomCalls e) e).
Proof.
  destruct e. unfold spawnOne, spawned, spawnVelocity. cbn.
  now rewrite Nat.add_0_r.
Qed.

Lemma spawned_S pos c start n :
  spawned host pos c start (S n) =
  spawned host pos c start 1 ++ spawned host pos c (3 + start) n.
Proof.
  unfold spawned. cbn [seq map app]. f_equal.
  rewrite <- seq_shift, map_map. apply map_ext. intros i.
  do 2 f_equal. lia.
Qed.

Lemma spawnParticles_eq pos c n : forall e,
  spawnParticles host pos n c e =
  set_particles (particles e ++ spawned host pos c (randomCalls e) n)
    (set_randomCalls (3 * n + randomCalls e) e).
Proof.
  induction n as [|n IH]; intros e.
  - destruct e. cbn. now rewrite app_nil_r.
  - cbn [spawnParticles]. rewrite IH, spawnOne_eq.
    destruct e. unfold set_particles, set_randomCalls.
    cbn -[spawned Nat.mul Nat.add].
    f_equal; [|lia].
    rewrite (spawned_S pos c _ n). now rewrite <- app_assoc.
Qed.

Lemma spawned_length pos c start n : length (spawned host pos c start n) = n.
Proof. unfold spawned. now rewrite length_map, length_seq. Qed.

Lemma spawned_Forall pos c start n :
  Forall (fun p => pPosition p = pos /\ pColor p = c /\ pLife p = 1.0%Q)
    (spawned host pos c start n).
Proof. unfold spawned. apply Forall_map, Forall_forall. intros; cbn; auto. Qed.

End Spawn.

(** ** The jump state machine *)

Section Jump.

Variable host : Host.

(** C3: a jump trigger on the ground sets velocity.y to JUMP_FORCE,
    clears onGround and sets canDoubleJump; airborne with canDoubleJump it
    sets velocity.y to JUMP_FORCE * 0.8, clears canDoubleJump and appends
    five white particles at the player position; airborne without
    canDoubleJump, or while the session is inactive, it changes nothing. *)
Theorem C3_jump_state_machine (e : Engine) :
  (active e = true -> onGround (player e) = true ->
   handleJump host e =
   set_player
     (mkPlayer (position (player e)) (set_y JUMP_FORCE (velocity (player e)))
        false true) e) /\
  (active e = true -> onGround (player e) = false ->
   canDoubleJump (player e) = true ->
   player (handleJump host e) =
     mkPlayer (position (player e))
       (set_y (JUMP_FORCE * 0.8) (velocity (player e))) false false /\
   exists ps,
     particles (handleJump host e) = particles e ++ ps /\
     length ps = 5%nat /\
     Forall (fun p => pPosition p = position (player e) /\
                      pColor p = 0xffffff /\ pLife p = 1.0%Q) ps) /\
  (active e = true -> onGround (player e) = false ->
   canDoubleJump (player e) = false -> handleJump host e = e) /\
  (active e = false -> handleJump host e = e).
Proof.
  unfold handleJump. split; [|split; [|split]].
  - intros -> ->. reflexivity.
  - intros Ha Hg Hd. rewrite Ha, Hg, Hd. cbn [negb].
    rewrite spawnParticles_eq. split.
    + destruct e as [? ? ? ? ? ? [] ? ? ? ? ? ? ? ?]. cbn in *. now subst.
    + cbn -[spawned]. eexists. split; [reflexivity|].
      split; [apply spawned_length|]. apply spawned_Forall.
  - intros -> -> ->. reflexivity.
  - intros ->. reflexivity.
Qed.

End Jump.

(** C3 on four engines: grounded, airborne with and without the double
    jump, and inactive. *)
Lemma C3_jump_state_machine_witness :
  player (handleJump flatHost (fixture true true false)) =
    mkPlayer (vec3 0 5 0) (vec3 0 JUMP_FORCE 0) false true /\
  player (handleJump flatHost (fixture true false true)) =
    mkPlayer (vec3 0 5 0) (vec3 0 (JUMP_FORCE * 0.8) 0) false false /\
  handleJump flatHost (fixture true false false) = fixture true false false /\
  handleJump flatHost (fixture false true true) = fixture false true true.
Proof.
  split; [|split; [|split]].
  - destruct (C3_jump_state_machine flatHost (fixture true true false))
      as (H & _).
    rewrite H by reflexivity. reflexivity.
  - destruct (C3_jump_state_machine flatHost (fixture true false true))
      as (_ & H & _).
    destruct H as [H _]; [reflexivity..|]. rewrite H. reflexivity.
  - destruct (C3_jump_state_machine flatHost (fixture true false false))
      as (_ & _ & H & _).
    apply H; reflexivity.
  - destruct (C3_jump_state_machine flatHost (fixture false true true))
      as (_ & _ & _ & H).
    apply H; reflexivity.
Defined.

(** ** The forward/back intent is never read *)

Lemma fold_left_commute {A B : Type} (g : A -> A) (step : A -> B -> A) :
  (forall a b, step (g a) b = g (step a b)) ->
  forall l a, fold_left step l (g a) = g (fold_left step l a).
Proof.
  intros H l. induction l as [|b l IH]; intros a; cbn; [done|].
  now rewrite H, IH.
Qed.

Section Intent.

Variable host : Host.
Variable z : Z.

Local Arguments put : simpl never.
Local Arguments has : simpl never.

Local Ltac by_fields e :=
  destruct e; unfold with_f; cbn; repeat case_match; reflexivity.

Lemma createBlock_with_f x y z' t e :
  createBlock x y z' t (with_f z e) = with_f z (createBlock x y z' t e).
Proof. by_fields e. Qed.

Lemma fillColumn_with_f worldX height e :
  fillColumn worldX height (with_f z e) = with_f z (fillColumn worldX height e).
Proof.
  unfold fillColumn. apply fold_left_commute.
  intros. apply createBlock_with_f.
Qed.

Lemma fragileObstacle_with_f x worldX height e :
  fragileObstacle host x worldX height (with_f z e) =
  with_f z (fragileObstacle host x worldX height e).
Proof. unfold fragileObstacle, random. by_fields e. Qed.

Lemma stonePlatform_with_f worldX height e :
  stonePlatform host worldX height (with_f z e) =
  with_f z (stonePlatform host worldX height e).
Proof. unfold stonePlatform, random. by_fields e. Qed.

Lemma generateChunk_with_f cx e :
  generateChunk host cx (with_f z e) = with_f z (generateChunk host cx e).
Proof.
  unfold generateChunk. apply fold_left_commute. intros a x.
  unfold generateColumn.
  now rewrite fillColumn_with_f, fragileObstacle_with_f, stonePlatform_with_f.
Qed.

Lemma ensureChunk_with_f e cx :
  ensureChunk host (with_f z e) cx = with_f z (ensureChunk host e cx).
Proof.
  unfold ensureChunk. rewrite generateChunk_with_f.
  change (chunksGenerated (with_f z e)) with (chunksGenerated e).
  case_bool_decide; [done|]. by_fields (generateChunk host cx e).
Qed.

Lemma updateChunks_with_f e :
  updateChunks host (with_f z e) = with_f z (updateChunks host e).
Proof.
  unfold updateChunks.
  change (playerChunkX (with_f z e)) with (playerChunkX e).
  apply fold_left_commute. intros. apply ensureChunk_with_f.
Qed.

Lemma collideCell_with_f axis e cell :
  collideCell axis (with_f z e) cell = with_f z (collideCell axis e cell).
Proof. unfold collideCell. destruct cell, axis; by_fields e. Qed.

Lemma checkCollision_with_f axis e :
  checkCollision axis (with_f z e) = with_f z (checkCollision axis e).
Proof.
  unfold checkCollision.
  change (position (player (with_f z e))) with (position (player e)).
  apply fold_left_commute. intros. apply collideCell_with_f.
Qed.

Lemma accelerate_with_f dt e :
  accelerate dt (with_f z e) = with_f z (accelerate dt e).
Proof. unfold accelerate. by_fields e. Qed.

Lemma advance_with_f axis dt e :
  advance axis dt (with_f z e) = with_f z (advance axis dt e).
Proof. unfold advance. destruct axis; by_fields e. Qed.

Lemma integrate_with_f dt e :
  integrate dt (with_f z e) = with_f z (integrate dt e).
Proof.
  unfold integrate.
  now rewrite accelerate_with_f, advance_with_f, checkCollision_with_f,
    advance_with_f, checkCollision_with_f.
Qed.

Lemma updatePhysics_with_f dt e :
  updatePhysics dt (with_f z e) = with_f z (updatePhysics dt e).
Proof.
  unfold updatePhysics. rewrite integrate_with_f.
  unfold fallDeath. by_fields (integrate dt e).
Qed.

Lemma simulate_with_f delta e :
  simulate host delta (with_f z e) = with_f z (simulate host delta e).
Proof.
  unfold simulate. cbv zeta. rewrite updatePhysics_with_f.
  generalize (updatePhysics delta e). intros e1.
  assert (H1 : set_particles (updateParticles delta (particles (with_f z e1)))
                 (with_f z e1) =
               with_f z (set_particles (updateParticles delta (particles e1)) e1))
    by (destruct e1; reflexivity).
  rewrite H1. clear H1.
  generalize (set_particles (updateParticles delta (particles e1)) e1).
  intros e2.
  assert (H2 : updateCamera delta (with_f z e2) =
               with_f z (updateCamera delta e2))
    by (destruct e2; reflexivity).
  rewrite H2. clear H2. rewrite updateChunks_with_f.
  generalize (updateChunks host (updateCamera delta e2)). intros e4.
  destruct e4; reflexivity.
Qed.

Lemma animate_with_f now e :
  animate host now (with_f z e) = with_f z (animate host now e).
Proof.
  unfold animate. cbv zeta.
  change (set_framePending true (with_f z e))
    with (with_f z (set_framePending true e)).
  set (e0 := set_framePending true e).
  change (lastTime (with_f z e0)) with (lastTime e0).
  change (set_lastTime now (with_f z e0)) with (with_f z (set_lastTime now e0)).
  change (active (with_f z (set_lastTime now e0)))
    with (active (set_lastTime now e0)).
  destruct (active _); [apply simulate_with_f | reflexivity].
Qed.

End Intent.

(** C10: two physics steps, or two whole frames, that start from engines
    differing only in the forward/back intent end with the same player,
    statistics, block map, particles, chunk ledger, session flag, callback
    trace and random draws. *)
Theorem C10_forward_intent_not_read (host : Host) (e : Engine)
  (dt now : Q) (f1 f2 : Z) :
  simulationState (updatePhysics dt (with_f f1 e)) =
    simulationState (updatePhysics dt (with_f f2 e)) /\
  simulationState (animate host now (with_f f1 e)) =
    simulationState (animate host now (with_f f2 e)).
Proof.
  rewrite !updatePhysics_with_f, !animate_with_f. split.
  - generalize (updatePhysics dt e). intros e1. now destruct e1.
  - generalize (animate host now e). intros e1. now destruct e1.
Qed.

(** ** What each operation leaves alone *)

Lemma fold_left_rel {A B : Type} (R : A -> A -> Prop) (step : A -> B -> A) :
  (forall a, R a a) -> (forall a b c, R a b -> R b c -> R a c) ->
  (forall a b, R a (step a b)) ->
  forall l a, R a (fold_left step l a).
Proof.
  intros Hrefl Htrans Hstep l. induction l as [|b l IH]; intros a; cbn.
  - apply Hrefl.
  - eapply Htrans; [apply Hstep | apply IH].
Qed.

Lemma terrainOnly_refl e : terrainOnly e e.
Proof. now destruct e. Qed.

Lemma terrainOnly_trans e1 e2 e3 :
  terrainOnly e1 e2 -> terrainOnly e2 e3 -> terrainOnly e1 e3.
Proof.
  unfold terrainOnly. intros H12 H23. rewrite H23 at 1. rewrite H12 at 1.
  now destruct e1.
Qed.

Lemma worldOnly_refl e : worldOnly e e.
Proof. now destruct e. Qed.

Lemma worldOnly_trans e1 e2 e3 :
  worldOnly e1 e2 -> worldOnly e2 e3 -> worldOnly e1 e3.
Proof.
  unfold worldOnly. intros H12 H23. rewrite H23 at 1. rewrite H12 at 1.
  now destruct e1.
Qed.

Lemma terrainOnly_worldOnly e e' : terrainOnly e e' -> worldOnly e e'.
Proof.
  unfold terrainOnly, worldOnly. intros H. rewrite H. now destruct e.
Qed.

Lemma playerOnly_refl e : playerOnly e e.
Proof. now destruct e. Qed.

Lemma playerOnly_trans e1 e2 e3 :
  playerOnly e1 e2 -> playerOnly e2 e3 -> playerOnly e1 e3.
Proof.
  unfold playerOnly. intros H12 H23. rewrite H23 at 1. rewrite H12 at 1.
  now destruct e1.
Qed.

Section Frames.

Variable host : Host.

Local Arguments put : simpl never.
Local Arguments has : simpl never.

Lemma createBlock_terrainOnly x y z t e : terrainOnly e (createBlock x y z t e).
Proof. now destruct e. Qed.

Lemma fillColumn_terrainOnly worldX height e :
  terrainOnly e (fillColumn worldX height e).
Proof.
  unfold fillColumn.
  apply (fold_left_rel terrainOnly);
    eauto using terrainOnly_refl, terrainOnly_trans, createBlock_terrainOnly.
Qed.

Lemma fragileObstacle_terrainOnly x worldX height e :
  terrainOnly e (fragileObstacle host x worldX height e).
Proof.
  unfold fragileObstacle, random. destruct e. cbn.
  repeat case_match; reflexivity.
Qed.

Lemma stonePlatform_terrainOnly worldX height e :
  terrainOnly e (stonePlatform host worldX height e).
Proof.
  unfold stonePlatform, random. destruct e. cbn.
  repeat case_match; reflexivity.
Qed.

Lemma generateColumn_terrainOnly offset e x :
  terrainOnly e (generateColumn host offset e x).
Proof.
  unfold generateColumn.
  eapply terrainOnly_trans; [apply fillColumn_terrainOnly|].
  eapply terrainOnly_trans; [apply fragileObstacle_terrainOnly|].
  apply stonePlatform_terrainOnly.
Qed.

Lemma generateChunk_terrainOnly cx e : terrainOnly e (generateChunk host cx e).
Proof.
  unfold generateChunk.
  apply (fold_left_rel terrainOnly);
    eauto using terrainOnly_refl, terrainOnly_trans, generateColumn_terrainOnly.
Qed.

Lemma ensureChunk_worldOnly e cx : worldOnly e (ensureChunk host e cx).
Proof.
  unfold ensureChunk. case_bool_decide; [apply worldOnly_refl|]. cbv zeta.
  pose proof (generateChunk_terrainOnly cx e) as Ht.
  revert Ht. generalize (generateChunk host cx e). intros e1 Ht.
  unfold worldOnly. rewrite Ht. now destruct e.
Qed.

Lemma updateChunks_worldOnly e : worldOnly e (updateChunks host e).
Proof.
  unfold updateChunks.
  apply (fold_left_rel worldOnly);
    eauto using worldOnly_refl, worldOnly_trans, ensureChunk_worldOnly.
Qed.

Lemma collideCell_playerOnly axis e cell :
  playerOnly e (collideCell axis e cell).
Proof.
  unfold collideCell. destruct cell, axis, e; cbn;
    repeat case_match; reflexivity.
Qed.

Lemma checkCollision_playerOnly axis e : playerOnly e (checkCollision axis e).
Proof.
  unfold checkCollision.
  apply (fold_left_rel playerOnly);
    eauto using playerOnly_refl, playerOnly_trans, collideCell_playerOnly.
Qed.

Lemma accelerate_playerOnly dt e : playerOnly e (accelerate dt e).
Proof. now destruct e. Qed.

Lemma advance_playerOnly axis dt e : playerOnly e (advance axis dt e).
Proof. now destruct axis, e. Qed.

Lemma integrate_playerOnly dt e : playerOnly e (integrate dt e).
Proof.
  unfold integrate.
  eapply playerOnly_trans; [apply (accelerate_playerOnly dt e)|].
  eapply playerOnly_trans; [apply (advance_playerOnly AxisX dt)|].
  eapply playerOnly_trans; [apply (checkCollision_playerOnly AxisX)|].
  eapply playerOnly_trans; [apply (advance_playerOnly AxisY dt)|].
  apply checkCollision_playerOnly.
Qed.

End Frames.

(** ** The ground flag *)

Lemma fold_left_inv {A B : Type} (P : A -> Prop) (step : A -> B -> A) :
  (forall a b, P a -> P (step a b)) ->
  forall l a, P a -> P (fold_left step l a).
Proof.
  intros Hstep l. induction l as [|b l IH]; intros a Ha; cbn; auto.
Qed.

Section Ground.

Variable host : Host.

Local Arguments put : simpl never.
Local Arguments has : simpl never.

Lemma collideCell_grounded axis e cell :
  grounded e -> grounded (collideCell axis e cell).
Proof.
  unfold grounded, collideCell. destruct cell, axis; cbn;
    repeat case_match; cbn; auto.
Qed.

Lemma checkCollision_grounded axis e :
  grounded e -> grounded (checkCollision axis e).
Proof.
  unfold checkCollision. apply fold_left_inv.
  intros. now apply collideCell_grounded.
Qed.

Lemma integrate_grounded dt e : grounded e -> grounded (integrate dt e).
Proof.
  intros H. unfold integrate.
  apply checkCollision_grounded.
  change (grounded (checkCollision AxisX (advance AxisX dt (accelerate dt e)))).
  apply checkCollision_grounded. exact H.
Qed.

Lemma fallDeath_player e : player (fallDeath e) = player e.
Proof. unfold fallDeath. now destruct (Qltb _ _). Qed.

Lemma updatePhysics_player dt e :
  player (updatePhysics dt e) = player (integrate dt e).
Proof. apply fallDeath_player. Qed.

Lemma updateChunks_player e : player (updateChunks host e) = player e.
Proof. now rewrite (updateChunks_worldOnly host e). Qed.

Lemma updateStats_player delta e : player (updateStats delta e) = player e.
Proof. reflexivity. Qed.

Lemma updateCamera_player delta e : player (updateCamera delta e) = player e.
Proof. reflexivity. Qed.

Lemma set_particles_player ps e : player (set_particles ps e) = player e.
Proof. reflexivity. Qed.

(** After the physics step nothing in the frame touches the player. *)
Lemma simulate_player delta e :
  player (simulate host delta e) = player (integrate delta e).
Proof.
  unfold simulate. cbv zeta.
  rewrite updateStats_player, updateChunks_player, updateCamera_player,
    set_particles_player.
  apply updatePhysics_player.
Qed.

Lemma animate_player now e :
  player (animate host now e) =
  if active e
  then player (integrate (frameDelta now e)
                 (set_lastTime now (set_framePending true e)))
  else player e.
Proof.
  unfold animate. cbv zeta. cbn [active set_lastTime set_framePending].
  destruct (active e); [apply simulate_player | reflexivity].
Qed.

Lemma animate_grounded now e : grounded e -> grounded (animate host now e).
Proof.
  unfold grounded at 2. rewrite animate_player.
  destruct (active e); [|done]. intros H. now apply integrate_grounded.
Qed.

Lemma destroyBlock_player e : player (destroyBlock host e) = player e.
Proof.
  unfold destroyBlock. destruct (negb (active e)); [done|].
  destruct (intersectObjects _ _ _ _) as [|hit ?]; [done|].
  destruct (Qltb _ _); [|done].
  cbv zeta. rewrite spawnParticles_eq. reflexivity.
Qed.

Lemma onKey_player code v e :
  (code, v) <> (Space, true) -> player (onKey host code v e) = player e.
Proof. destruct code, v; try done. Qed.

Lemma onMouseMove_player dx dy e : player (onMouseMove host dx dy e) = player e.
Proof. unfold onMouseMove. now destruct (negb (active e)). Qed.

Lemma handleJump_inactive e : active e = false -> handleJump host e = e.
Proof. unfold handleJump. now intros ->. Qed.

(** C9: no collision correction, physics step or frame clears onGround;
    among all events only a Space key-down on an active engine does; and
    a jump trigger on an engine whose onGround is set, wherever the player
    is, takes the grounded branch with the full JUMP_FORCE. *)
Theorem C9_onGround_cleared_only_by_jump (e : Engine) :
  onGround (player e) = true ->
  (forall axis, onGround (player (checkCollision axis e)) = true) /\
  (forall dt, onGround (player (updatePhysics dt e)) = true) /\
  (forall now, onGround (player (animate host now e)) = true) /\
  (forall ev, onGround (player (step host e ev)) = false ->
              ev = Keydown Space /\ active e = true) /\
  (active e = true ->
   player (handleJump host e) =
   mkPlayer (position (player e)) (set_y JUMP_FORCE (velocity (player e)))
     false true).
Proof.
  intros Hg. split; [|split; [|split; [|split]]].
  - intros axis. now apply checkCollision_grounded.
  - intros dt. rewrite updatePhysics_player. now apply integrate_grounded.
  - intros now. now apply animate_grounded.
  - intros ev Hev.
    assert (Hnot : onGround (player (step host e ev)) <> true) by congruence.
    destruct ev as [now|code|code| |dx dy| | |now| ]; cbn in Hnot.
    + exfalso. apply Hnot. destruct (framePending e); [|done].
      now apply animate_grounded.
    + destruct (registered L_keydown e); [|done].
      destruct code; try (exfalso; apply Hnot; exact Hg).
      split; [done|]. destruct (active e) eqn:Ha; [done|].
      exfalso. apply Hnot. cbn [onKey].
      rewrite handleJump_inactive by done. exact Hg.
    + exfalso. apply Hnot. destruct (registered L_keyup e); [|done].
      rewrite onKey_player; [done|congruence].
    + exfalso. apply Hnot. destruct (registered L_mousedown e); [|done].
      now rewrite destroyBlock_player.
    + exfalso. apply Hnot. destruct (registered L_mousemove e); [|done].
      now rewrite onMouseMove_player.
    + done.
    + exfalso. apply Hnot. now destruct (registered L_unlock e).
    + done.
    + done.
  - intros Ha. unfold handleJump. now rewrite Ha, Hg.
Qed.

End Ground.

(** C9 on the engine [perched 1]: the player stands on a single block and
    is pushed off its edge by one physics step with lateral intent 1; no
    block is in reach any more, the next step lets the player fall, and
    all along onGround stays set, so that the jump then taken in mid-air
    is the grounded one. *)
Lemma C9_onGround_cleared_only_by_jump_witness :
  let e1 := updatePhysics 0.1 (perched 1) in
  let e2 := updatePhysics 0.1 e1 in
  checkCollision AxisY e2 = e2 /\
  (vec_y (position (player e2)) < vec_y (position (player e1)))%Q /\
  onGround (player e2) = true /\
  player (handleJump flatHost e2) =
    mkPlayer (position (player e2)) (set_y JUMP_FORCE (velocity (player e2)))
      false true.
Proof.
  intros e1 e2.
  assert (Hg1 : onGround (player (perched 1)) = true) by reflexivity.
  destruct (C9_onGround_cleared_only_by_jump flatHost (perched 1) Hg1)
    as (_ & Hp1 & _).
  assert (Hg2 : onGround (player e2) = true).
  { destruct (C9_onGround_cleared_only_by_jump flatHost e1 (Hp1 0.1%Q))
      as (_ & Hp2 & _).
    apply Hp2. }
  destruct (C9_onGround_cleared_only_by_jump flatHost e2 Hg2)
    as (_ & _ & _ & _ & Hj).
  split; [vm_compute; reflexivity|].
  split; [vm_compute; reflexivity|].
  split; [exact Hg2|]. apply Hj. vm_compute. reflexivity.
Defined.

(** ** Fall-death *)

Section Death.

Variable host : Host.

Lemma deaths_callback c e :
  deaths (callback c e) = (deaths e + if isDeath c then 1 else 0)%nat.
Proof.
  unfold deaths, callback. cbn. rewrite List.filter_app, length_app. cbn.
  destruct (isDeath c); reflexivity.
Qed.

Lemma fallDeath_dead e :
  (vec_y (position (player e)) < -10)%Q ->
  fallDeath e = set_locked false (callback onDeath (set_active false e)).
Proof.
  intros H. unfold fallDeath, Qltb.
  destruct (Qle_bool _ _) eqn:E; [|done].
  apply Qle_bool_iff in E. lra.
Qed.

Lemma fallDeath_alive e :
  ~ (vec_y (position (player e)) < -10)%Q -> fallDeath e = e.
Proof.
  intros H. unfold fallDeath, Qltb.
  destruct (Qle_bool _ _) eqn:E; [done|].
  exfalso. apply H. apply Qnot_le_lt. intros Hle.
  apply Qle_bool_iff in Hle. congruence.
Qed.

Lemma updateChunks_fields e :
  let e' := updateChunks host e in
  active e' = active e /\ calls e' = calls e /\ stats e' = stats e /\
  particles e' = particles e.
Proof.
  cbv zeta. pose proof (updateChunks_worldOnly host e) as H. revert H.
  generalize (updateChunks host e). intros e' H. rewrite H. now destruct e.
Qed.

Lemma updateStats_active delta e : active (updateStats delta e) = active e.
Proof. reflexivity. Qed.

Lemma updateStats_deaths delta e : deaths (updateStats delta e) = deaths e.
Proof.
  unfold updateStats. rewrite deaths_callback. cbn [isDeath].
  rewrite Nat.add_0_r. reflexivity.
Qed.

Lemma updateChunks_deaths e : deaths (updateChunks host e) = deaths e.
Proof.
  unfold deaths. destruct (updateChunks_fields e) as (_ & -> & _). reflexivity.
Qed.

(** The session flag and the death count after the frame body. *)
Lemma simulate_active_deaths delta e :
  active (simulate host delta e) = active (updatePhysics delta e) /\
  deaths (simulate host delta e) = deaths (updatePhysics delta e).
Proof.
  unfold simulate. cbv zeta. generalize (updatePhysics delta e). intros e1.
  rewrite updateStats_active, updateStats_deaths, updateChunks_deaths.
  destruct (updateChunks_fields
              (updateCamera delta
                 (set_particles (updateParticles delta (particles e1)) e1)))
    as (-> & _).
  split; reflexivity.
Qed.

Lemma animate_active now e :
  active e = true ->
  animate host now e =
  simulate host (frameDelta now e) (set_lastTime now (set_framePending true e)).
Proof.
  intros Ha. unfold animate, frameDelta. cbv zeta.
  cbn [active lastTime set_lastTime set_framePending]. now rewrite Ha.
Qed.

Lemma animate_inactive now e :
  active e = false ->
  animate host now e = set_lastTime now (set_framePending true e).
Proof.
  intros Ha. unfold animate. cbv zeta.
  cbn [active lastTime set_lastTime set_framePending]. now rewrite Ha.
Qed.

(** An inactive engine: whatever the host delivers, short of [lock()],
    the session stays inactive and the simulation state stays put. *)
Lemma step_inactive e ev :
  active e = false -> notLock ev ->
  let e' := step host e ev in
  active e' = false /\ deaths e' = deaths e /\ player e' = player e /\
  particles e' = particles e /\ blocks e' = blocks e /\
  chunksGenerated e' = chunksGenerated e /\ stats e' = stats e /\
  randomCalls e' = randomCalls e.
Proof.
  intros Ha Hev. cbv zeta.
  destruct ev as [now|code|code| |dx dy| | |now| ]; cbn [step];
    try (cbn in Hev; contradiction).
  - destruct (framePending e); [|done]. now rewrite animate_inactive.
  - destruct (registered L_keydown e); [|done].
    destruct code; cbn [onKey]; try done.
    now rewrite handleJump_inactive.
  - destruct (registered L_keyup e); [|done]. destruct code; done.
  - destruct (registered L_mousedown e); [|done].
    unfold destroyBlock. now rewrite Ha.
  - destruct (registered L_mousemove e); [|done].
    unfold onMouseMove. now rewrite Ha.
  - done.
  - destruct (registered L_unlock e); [|done].
    unfold onUnlockEvent. rewrite deaths_callback. cbn.
    repeat split; done.
  - done.
Qed.

Lemma run_inactive evs : forall e,
  active e = false -> Forall notLock evs ->
  let e' := run host e evs in
  active e' = false /\ deaths e' = deaths e /\ player e' = player e /\
  particles e' = particles e /\ blocks e' = blocks e /\
  chunksGenerated e' = chunksGenerated e /\ stats e' = stats e /\
  randomCalls e' = randomCalls e.
Proof.
  induction evs as [|ev evs IH]; intros e Ha Hevs; cbv zeta; [done|].
  inversion Hevs as [|? ? Hev Hrest]; subst.
  destruct (step_inactive e ev Ha Hev) as (Ha1 & H1).
  destruct (IH (step host e ev) Ha1 Hrest) as (Ha2 & H2).
  change (run host e (ev :: evs)) with (run host (step host e ev) evs).
  split; [exact Ha2|].
  destruct H1 as (E1 & E2 & E3 & E4 & E5 & E6 & E7).
  rewrite <- E1, <- E2, <- E3, <- E4, <- E5, <- E6, <- E7. exact H2.
Qed.

Lemma integrate_calls dt e : calls (integrate dt e) = calls e.
Proof.
  pose proof (integrate_playerOnly dt e) as H. revert H.
  generalize (integrate dt e). intros e' H. rewrite H. reflexivity.
Qed.

Lemma fallDeath_dead_fields e :
  (vec_y (position (player e)) < -10)%Q ->
  active (fallDeath e) = false /\ deaths (fallDeath e) = S (deaths e).
Proof.
  intros H. rewrite fallDeath_dead by exact H. split; [reflexivity|].
  unfold deaths. cbn [calls set_locked callback set_calls set_active].
  rewrite List.filter_app, length_app. cbn. lia.
Qed.

(** C1: when the frame of an active engine leaves the player, after the
    physics step with both corrections, below y = -10, the session flag
    is cleared and onDeath has been called once more; and from then on,
    whatever frames and events arrive before a call of lock(), the session
    stays inactive, onDeath is not called again, and the player, the
    particles, the blocks, the chunk ledger, the statistics and the random
    draws are what they were at the end of that frame. *)
Theorem C1_fall_death_ends_session (e : Engine) (now : Q) :
  active e = true ->
  (vec_y (position (player (animate host now e))) < -10)%Q ->
  let e' := animate host now e in
  player e' =
    player (integrate (frameDelta now e)
              (set_lastTime now (set_framePending true e))) /\
  active e' = false /\
  deaths e' = S (deaths e) /\
  forall evs, Forall notLock evs ->
    let e'' := run host e' evs in
    active e'' = false /\ deaths e'' = deaths e' /\ player e'' = player e' /\
    particles e'' = particles e' /\ blocks e'' = blocks e' /\
    chunksGenerated e'' = chunksGenerated e' /\ stats e'' = stats e' /\
    randomCalls e'' = randomCalls e'.
Proof.
  intros Ha Hy. cbv zeta.
  assert (Hp := animate_player host now e). rewrite Ha in Hp.
  rewrite Hp in Hy. split; [exact Hp|].
  assert (Hdead : active (animate host now e) = false /\
                  deaths (animate host now e) = S (deaths e)).
  { rewrite animate_active by exact Ha.
    destruct (simulate_active_deaths (frameDelta now e)
                (set_lastTime now (set_framePending true e))) as [-> ->].
    unfold updatePhysics.
    destruct (fallDeath_dead_fields _ Hy) as [-> ->].
    split; [reflexivity|]. f_equal. unfold deaths.
    now rewrite integrate_calls. }
  destruct Hdead as [Hd1 Hd2]. split; [exact Hd1|]. split; [exact Hd2|].
  intros evs Hevs. now apply run_inactive.
Qed.

End Death.

(** C1 on the engine [falling]: one frame of 100 ms takes the player from
    y = -9.9 to below -10; three more frames, a Space key and a click
    later the session is still over and onDeath was called once. *)
Lemma C1_fall_death_ends_session_witness :
  active (animate flatHost 100 falling) = false /\
  deaths (animate flatHost 100 falling) = 1%nat /\
  active (run flatHost (animate flatHost 100 falling) laterEvents) = false /\
  deaths (run flatHost (animate flatHost 100 falling) laterEvents) = 1%nat /\
  player (run flatHost (animate flatHost 100 falling) laterEvents) =
    player (animate flatHost 100 falling) /\
  stats (run flatHost (animate flatHost 100 falling) laterEvents) =
    stats (animate flatHost 100 falling).
Proof.
  assert (Ha : active falling = true) by reflexivity.
  assert (Hy : (vec_y (position (player (animate flatHost 100 falling)))
                < -10)%Q) by (vm_compute; reflexivity).
  pose proof (C1_fall_death_ends_session flatHost falling 100 Ha Hy) as H.
  cbv zeta in H. destruct H as (_ & H1 & H2 & H3).
  assert (Hev : Forall notLock laterEvents) by (repeat constructor).
  destruct (H3 laterEvents Hev) as (H4 & H5 & H6 & _ & _ & _ & H7 & _).
  split; [exact H1|]. split; [exact H2|]. split; [exact H4|].
  split; [rewrite H5; exact H2|]. split; [exact H6|exact H7].
Defined.

(** ** Disposal *)

Lemma dispose_keeps_listener e l :
  l <> L_resize -> l ∈ listeners e -> l ∈ listeners (dispose e).
Proof. intros Hl Hin. unfold dispose. cbn. now apply list_elem_of_filter. Qed.

(** C8, on the code: [dispose()] cancels the pending frame and removes the
    resize listener, and nothing else.  On the disposed engine
    [dispose (perched 0)] no frame runs any more, but the key, mouse and
    unlock listeners are still registered and the session is still
    active: a Space key makes the player jump, a mouse move accumulates
    look, and a click destroys the block and scores 10. *)
Theorem C8_dispose_keeps_input_listeners :
  let e := dispose (perched 0) in
  (forall now, step flatHost e (AnimationFrame now) = e) /\
  listeners e = [L_unlock; L_keydown; L_keyup; L_mousedown; L_mousemove] /\
  active e = true /\
  player (step flatHost e (Keydown Space)) =
    mkPlayer (vec3 0 0.9 0) (vec3 0 JUMP_FORCE 0) false true /\
  mouse e = vec2 0 0 /\
  mouse (step flatHost e (Mousemove 3 4)) <> mouse e /\
  has (0, 0, 0) (blocks e) = true /\
  has (0, 0, 0) (blocks (step flatHost e Mousedown)) = false /\
  (score (stats (step flatHost e Mousedown)) == 10)%Q /\
  length (particles (step flatHost e Mousedown)) = 8%nat.
Proof.
  cbv zeta. split; [reflexivity|].
  repeat split; try (vm_compute; congruence).
Qed.

(** ** Chunk streaming *)

Lemma filter_ext_Forall {A : Type} (P1 P2 : A -> Prop)
  `{!forall x, Decision (P1 x), !forall x, Decision (P2 x)} (l : list A) :
  Forall (fun x => P1 x <-> P2 x) l -> filter P1 l = filter P2 l.
Proof.
  induction 1 as [|x l Hx Hl IH]; [done|].
  destruct (decide (P1 x)) as [H1|H1].
  - rewrite !filter_cons_True by tauto. now rewrite IH.
  - rewrite !filter_cons_False by tauto. exact IH.
Qed.

Section Chunks.

Variable host : Host.

Lemma chunkWindow_eq pcx :
  chunkWindow pcx =
  [pcx + -1; pcx + 0; pcx + 1; pcx + 2; pcx + 3; pcx + 4].
Proof. reflexivity. Qed.

Lemma chunkWindow_range pcx cx :
  cx ∈ chunkWindow pcx <-> pcx - 1 <= cx <= pcx + VIEW_DISTANCE.
Proof.
  rewrite chunkWindow_eq. unfold VIEW_DISTANCE.
  rewrite !elem_of_cons, elem_of_nil. lia.
Qed.

Lemma chunkWindow_NoDup pcx : NoDup (chunkWindow pcx).
Proof.
  rewrite chunkWindow_eq.
  repeat (apply NoDup_cons; split;
          [rewrite ?elem_of_cons, elem_of_nil; lia|]).
  apply NoDup_nil. done.
Qed.

Lemma generateChunk_chunksGenerated cx e :
  chunksGenerated (generateChunk host cx e) = chunksGenerated e.
Proof. now rewrite (generateChunk_terrainOnly host cx e). Qed.

Lemma ensureChunk_generated e cx :
  cx ∈ chunksGenerated e -> ensureChunk host e cx = e.
Proof. intros H. unfold ensureChunk. now rewrite bool_decide_eq_true_2. Qed.

Lemma ensureChunk_fresh e cx :
  cx ∉ chunksGenerated e -> ensureChunk host e cx = generateAndMark host e cx.
Proof. intros H. unfold ensureChunk. now rewrite bool_decide_eq_false_2. Qed.

Lemma generateAndMark_chunksGenerated e cx :
  chunksGenerated (generateAndMark host e cx) = {[cx]} ∪ chunksGenerated e.
Proof. unfold generateAndMark. cbn. now rewrite generateChunk_chunksGenerated. Qed.

Lemma ensureChunk_chunksGenerated e cx :
  chunksGenerated (ensureChunk host e cx) = {[cx]} ∪ chunksGenerated e.
Proof.
  destruct (decide (cx ∈ chunksGenerated e)) as [H|H].
  - rewrite ensureChunk_generated by done. set_solver.
  - rewrite ensureChunk_fresh by done. apply generateAndMark_chunksGenerated.
Qed.

Lemma ensureAll_chunksGenerated l : forall e,
  chunksGenerated (fold_left (ensureChunk host) l e) =
  chunksGenerated e ∪ list_to_set l.
Proof.
  induction l as [|cx l IH]; intros e; cbn.
  - set_solver.
  - rewrite IH, ensureChunk_chunksGenerated. set_solver.
Qed.

(** The loop generates the indices that are not in the ledger, each once,
    in the order of the window. *)
Lemma ensureAll_fresh l : forall e,
  NoDup l ->
  fold_left (ensureChunk host) l e =
  fold_left (generateAndMark host)
    (filter (fun cx => cx ∉ chunksGenerated e) l) e.
Proof.
  induction l as [|cx l IH]; intros e Hnd; [done|].
  apply NoDup_cons in Hnd as [Hcx Hnd]. cbn [fold_left].
  destruct (decide (cx ∈ chunksGenerated e)) as [H|H].
  - rewrite ensureChunk_generated by done.
    rewrite filter_cons_False by (intros ?; done). now apply IH.
  - rewrite ensureChunk_fresh by done.
    rewrite filter_cons_True by done. cbn [fold_left].
    rewrite IH by done. f_equal.
    apply filter_ext_Forall. apply Forall_forall. intros c Hc.
    rewrite generateAndMark_chunksGenerated. set_solver.
Qed.

Lemma ensureAll_generated l : forall e,
  (forall cx, cx ∈ l -> cx ∈ chunksGenerated e) ->
  fold_left (ensureChunk host) l e = e.
Proof.
  induction l as [|cx l IH]; intros e H; [done|]. cbn.
  rewrite ensureChunk_generated by (apply H; left).
  apply IH. intros c Hc. apply H. now right.
Qed.

Lemma updateChunks_playerChunkX e :
  playerChunkX (updateChunks host e) = playerChunkX e.
Proof. unfold playerChunkX. now rewrite updateChunks_player. Qed.

(** C5: [updateChunks] generates and marks exactly the chunk indices of
    the window [playerChunkX - 1 .. playerChunkX + VIEW_DISTANCE] that are
    not in the ledger; afterwards the ledger holds the old indices and the
    window; and a second call, the player not having moved, changes
    nothing: no chunk is generated, no block added, no random draw made. *)
Theorem C5_ensureWindow_idempotent (e : Engine) :
  let pcx := playerChunkX e in
  let e' := updateChunks host e in
  (forall cx, cx ∈ chunkWindow pcx <-> pcx - 1 <= cx <= pcx + VIEW_DISTANCE) /\
  e' = fold_left (generateAndMark host)
         (filter (fun cx => cx ∉ chunksGenerated e) (chunkWindow pcx)) e /\
  chunksGenerated e' = chunksGenerated e ∪ list_to_set (chunkWindow pcx) /\
  playerChunkX e' = pcx /\
  updateChunks host e' = e'.
Proof.
  cbv zeta. split; [apply chunkWindow_range|].
  split; [apply ensureAll_fresh, chunkWindow_NoDup|].
  split; [apply ensureAll_chunksGenerated|].
  split; [apply updateChunks_playerChunkX|].
  unfold updateChunks at 1. rewrite updateChunks_playerChunkX.
  apply ensureAll_generated. intros cx Hcx.
  unfold updateChunks. rewrite ensureAll_chunksGenerated.
  apply elem_of_union. right. now apply elem_of_list_to_set.
Qed.

End Chunks.

(** ** Column synthesis *)

Lemma Zrange_elem lo hi y : y ∈ Zrange lo hi <-> lo <= y <= hi.
Proof.
  unfold Zrange. rewrite list_elem_of_fmap. split.
  - intros (i & -> & Hi). apply elem_of_seq in Hi. lia.
  - intros H. exists (Z.to_nat (y - lo)). split; [lia|].
    apply elem_of_seq. lia.
Qed.

Section Columns.

Variable host : Host.

Local Arguments put : simpl never.
Local Arguments has : simpl never.

Implicit Types (e : Engine) (k : Key) (b : BlockMesh).

(** Blocks are never replaced. *)

Lemma keeps_refl e : keeps e e.
Proof. now intros k b. Qed.

Lemma keeps_trans e1 e2 e3 : keeps e1 e2 -> keeps e2 e3 -> keeps e1 e3.
Proof. intros H12 H23 k b H. auto. Qed.

Lemma createBlock_keeps x y z t e : keeps e (createBlock x y z t e).
Proof. intros k b H. cbn. now apply put_keeps. Qed.

Lemma fillColumn_keeps worldX height e : keeps e (fillColumn worldX height e).
Proof.
  unfold fillColumn.
  apply (fold_left_rel keeps);
    eauto using keeps_refl, keeps_trans, createBlock_keeps.
Qed.

Lemma fragileObstacle_keeps x worldX height e :
  keeps e (fragileObstacle host x worldX height e).
Proof.
  unfold fragileObstacle, random. intros k b H.
  repeat case_match; cbn; repeat apply put_keeps; exact H.
Qed.

Lemma stonePlatform_keeps worldX height e :
  keeps e (stonePlatform host worldX height e).
Proof.
  unfold stonePlatform, random. intros k b H.
  repeat case_match; cbn; repeat apply put_keeps; exact H.
Qed.

Lemma generateColumn_keeps offset e x : keeps e (generateColumn host offset e x).
Proof.
  unfold generateColumn.
  eapply keeps_trans; [apply fillColumn_keeps|].
  eapply keeps_trans; [apply fragileObstacle_keeps|].
  apply stonePlatform_keeps.
Qed.

Lemma generateColumns_keeps offset l e :
  keeps e (fold_left (generateColumn host offset) l e).
Proof.
  apply (fold_left_rel keeps);
    eauto using keeps_refl, keeps_trans, generateColumn_keeps.
Qed.

(** Where a column writes: in its own world column, and the one cell of
    the next column that the stone platform reaches. *)

Lemma createBlock_other x y z t e k :
  k <> (x, y, z) -> blocks (createBlock x y z t e) !! k = blocks e !! k.
Proof. intros H. cbn. now apply put_other. Qed.

Lemma fillColumn_other worldX height e kx ky kz :
  kx <> worldX ->
  blocks (fillColumn worldX height e) !! (kx, ky, kz) = blocks e !! (kx, ky, kz).
Proof.
  intros H. unfold fillColumn.
  apply (fold_left_inv
           (fun e' => blocks e' !! (kx, ky, kz) = blocks e !! (kx, ky, kz)));
    [|done].
  intros a y Ha. rewrite createBlock_other; [done|congruence].
Qed.

Lemma fragileObstacle_other x worldX height e kx ky kz :
  kx <> worldX ->
  blocks (fragileObstacle host x worldX height e) !! (kx, ky, kz) =
  blocks e !! (kx, ky, kz).
Proof.
  intros H. unfold fragileObstacle, random.
  repeat case_match; cbn; rewrite ?put_other by congruence; reflexivity.
Qed.

Lemma stonePlatform_other worldX height e kx ky kz :
  kx <> worldX -> (kx, ky, kz) <> (worldX + 1, height + 4, 0) ->
  blocks (stonePlatform host worldX height e) !! (kx, ky, kz) =
  blocks e !! (kx, ky, kz).
Proof.
  intros H1 H2. unfold stonePlatform, random.
  repeat case_match; cbn; rewrite ?put_other by congruence; reflexivity.
Qed.

Lemma generateColumn_other offset e x kx ky kz :
  kx <> offset + x ->
  (kx, ky, kz) <> (offset + x + 1, columnHeight host (offset + x) + 4, 0) ->
  blocks (generateColumn host offset e x) !! (kx, ky, kz) =
  blocks e !! (kx, ky, kz).
Proof.
  intros H1 H2. unfold generateColumn.
  rewrite stonePlatform_other, fragileObstacle_other, fillColumn_other; done.
Qed.

(** The inner loop. *)

Lemma fillColumn_blocks worldX height e :
  blocks (fillColumn worldX height e) =
  fold_left
    (fun g y => put (worldX, y, 0) (if y =? height then grass else dirt) g)
    (Zrange (-4) height) (blocks e).
Proof.
  unfold fillColumn. generalize (Zrange (-4) height) as l. intros l.
  revert e. induction l as [|y l IH]; intros e; cbn; [done|].
  now rewrite IH.
Qed.

Lemma puts_keep worldX height l : forall (g : gmap Key BlockMesh) k b,
  g !! k = Some b ->
  fold_left
    (fun g y => put (worldX, y, 0) (if y =? height then grass else dirt) g)
    l g !! k = Some b.
Proof.
  induction l as [|y l IH]; intros g k b H; cbn; [done|].
  apply IH. now apply put_keeps.
Qed.

Lemma puts_filled worldX height y l : forall (g : gmap Key BlockMesh),
  y ∈ l ->
  fold_left
    (fun g y => put (worldX, y, 0) (if y =? height then grass else dirt) g)
    l g !! (worldX, y, 0) =
  Some (default (terrainBlock worldX y height) (g !! (worldX, y, 0))).
Proof.
  induction l as [|y' l IH]; intros g Hy; [now apply elem_of_nil in Hy|].
  cbn [fold_left]. destruct (decide (y' = y)) as [->|Hne].
  - apply puts_keep. destruct (g !! (worldX, y, 0)) as [b|] eqn:E; cbn.
    + now apply put_keeps.
    + now apply put_new.
  - apply elem_of_cons in Hy as [Hy|Hy]; [congruence|].
    rewrite IH by done. rewrite put_other; [done|congruence].
Qed.

Lemma fillColumn_filled worldX height e y :
  -4 <= y <= height ->
  blocks (fillColumn worldX height e) !! (worldX, y, 0) =
  Some (default (terrainBlock worldX y height) (blocks e !! (worldX, y, 0))).
Proof.
  intros H. rewrite fillColumn_blocks. apply puts_filled.
  now apply Zrange_elem.
Qed.

Lemma generateColumn_filled offset e x y :
  -4 <= y <= columnHeight host (offset + x) ->
  blocks (generateColumn host offset e x) !! (offset + x, y, 0) =
  Some (default (terrainBlock (offset + x) y (columnHeight host (offset + x)))
          (blocks e !! (offset + x, y, 0))).
Proof.
  intros H. unfold generateColumn.
  apply stonePlatform_keeps, fragileObstacle_keeps.
  now apply fillColumn_filled.
Qed.

(** The whole chunk: the column [x] is filled, whatever was there. *)
Lemma generateColumns_has offset x l : forall e y,
  x ∈ l -> -4 <= y <= columnHeight host (offset + x) ->
  is_Some (blocks (fold_left (generateColumn host offset) l e)
             !! (offset + x, y, 0)).
Proof.
  induction l as [|x' l IH]; intros e y Hx Hy; [now apply elem_of_nil in Hx|].
  cbn [fold_left]. destruct (decide (x' = x)) as [->|Hne].
  - eexists. apply generateColumns_keeps. now apply generateColumn_filled.
  - apply elem_of_cons in Hx as [Hx|Hx]; [congruence|]. now apply IH.
Qed.

(** The whole chunk, from a free cell: unless it is the cell that the
    stone platform of the column before reaches, the cell of column [x]
    at height [y] is grass at the surface and dirt below. *)
Lemma generateColumns_typed offset x l :
  forall e y,
  x ∈ l -> -4 <= y <= columnHeight host (offset + x) ->
  blocks e !! (offset + x, y, 0) = None ->
  (x - 1 ∈ l -> y <> columnHeight host (offset + x - 1) + 4) ->
  blocks (fold_left (generateColumn host offset) l e) !! (offset + x, y, 0) =
  Some (terrainBlock (offset + x) y (columnHeight host (offset + x))).
Proof.
  induction l as [|x' l IH]; intros e y Hx Hy Hfree Hplat;
    [now apply elem_of_nil in Hx|].
  cbn [fold_left]. destruct (decide (x' = x)) as [->|Hne].
  - apply generateColumns_keeps. rewrite generateColumn_filled by done.
    now rewrite Hfree.
  - apply elem_of_cons in Hx as [Hx|Hx]; [congruence|].
    apply IH; [done..| |].
    + rewrite generateColumn_other; [done|lia|].
      intros Heq. injection Heq as H1 H2.
      assert (x' = x - 1) as -> by lia.
      apply Hplat; [left|].
      replace (offset + x - 1) with (offset + (x - 1)) by lia. lia.
    + intros Hin. apply Hplat. now right.
Qed.

End Columns.

(** ** Sine and cosine: how fast the surface can rise *)

(** Sine and cosine move no faster than their argument. *)
Lemma sin_abs_le (x : R) : (Rabs (sin x) <= Rabs x)%R.
Proof.
  assert (Hpos : forall y, (0 < y)%R -> (Rabs (sin y) <= y)%R).
  { intros y Hy. apply Rabs_le. split.
    - destruct (Rle_dec y PI) as [Hle|Hgt].
      + pose proof (sin_ge_0 y ltac:(Lra.lra) Hle). Lra.lra.
      + pose proof (SIN_bound y) as [Hb _]. pose proof PI2_1. pose proof PI_RGT_0.
        Lra.lra.
    - pose proof (sin_lt_x y Hy). Lra.lra. }
  destruct (Rtotal_order x 0) as [Hlt|[->|Hgt]].
  - rewrite <- (Ropp_involutive x) at 1. rewrite sin_neg, Rabs_Ropp.
    rewrite (Rabs_left x Hlt). apply Hpos. Lra.lra.
  - rewrite sin_0. Lra.lra.
  - rewrite (Rabs_right x) by Lra.lra. now apply Hpos.
Qed.

Lemma sin_lipschitz (x y : R) : (Rabs (sin x - sin y) <= Rabs (x - y))%R.
Proof.
  rewrite form4, !Rabs_mult.
  pose proof (sin_abs_le ((x - y) / 2)) as Hs.
  assert (Hc : (Rabs (cos ((x + y) / 2)) <= 1)%R).
  { apply Rabs_le. apply COS_bound. }
  assert (H2 : Rabs 2 = 2%R) by (apply Rabs_right; Lra.lra).
  assert (Hh : (Rabs ((x - y) / 2) = Rabs (x - y) / 2)%R).
  { unfold Rdiv. rewrite Rabs_mult. f_equal. apply Rabs_right.
    Lra.lra. }
  rewrite H2. rewrite Hh in Hs.
  pose proof (Rabs_pos (sin ((x - y) / 2))).
  pose proof (Rabs_pos (cos ((x + y) / 2))).
  Lra.nra.
Qed.

Lemma cos_lipschitz (x y : R) : (Rabs (cos x - cos y) <= Rabs (x - y))%R.
Proof.
  rewrite form2, !Rabs_mult.
  pose proof (sin_abs_le ((x - y) / 2)) as Hs.
  assert (Hc : (Rabs (sin ((x + y) / 2)) <= 1)%R).
  { apply Rabs_le. apply SIN_bound. }
  assert (H2 : Rabs (-2) = 2%R)
    by (unfold Rabs; destruct (Rcase_abs (-2)); Lra.lra).
  assert (Hh : (Rabs ((x - y) / 2) = Rabs (x - y) / 2)%R).
  { unfold Rdiv. rewrite Rabs_mult. f_equal. apply Rabs_right.
    Lra.lra. }
  rewrite H2. rewrite Hh in Hs.
  pose proof (Rabs_pos (sin ((x - y) / 2))).
  pose proof (Rabs_pos (sin ((x + y) / 2))).
  Lra.nra.
Qed.

Lemma Rabs_bound (a b : R) : (Rabs a <= b)%R -> (- b <= a <= b)%R.
Proof. unfold Rabs. destruct (Rcase_abs a); Lra.lra. Qed.

Lemma Q2R_inject_Z (z : Z) : Q2R (inject_Z z) = IZR z.
Proof. unfold Q2R, inject_Z. cbn [Qnum Qden]. Lra.lra. Qed.

Lemma Qfloor_near (u v : Q) : (u < v + 1)%Q -> Qfloor u <= Qfloor v + 1.
Proof.
  intros H. assert (Hu := Qfloor_le u). assert (Hv := Qlt_floor v).
  assert (Hlt : (inject_Z (Qfloor u) < inject_Z (Qfloor v + 1 + 1))%Q).
  { rewrite (inject_Z_plus (Qfloor v + 1) 1). change (inject_Z 1) with 1%Q.
    lra. }
  rewrite <- Zlt_Qlt in Hlt. lia.
Qed.

(** A function within 1/100 of a function of the reals that moves no
    faster than its argument: between two arguments [c] apart its values
    differ by at most [c] + 1/50. *)
Lemma near_step (fn : Q -> Q) (F : R -> R) (worldX : Z) (c k : Q) :
  (forall a, (Rabs (Q2R (fn a) - F (Q2R a)) <= 1 / 100)%R) ->
  (forall x y, (Rabs (F x - F y) <= Rabs (x - y))%R) ->
  (0 <= c)%Q -> (0 < k)%Q -> ((c + 1 / 50) * k < 1)%Q ->
  Qfloor (fn (inject_Z (worldX + 1) * c)%Q * k)
  <= Qfloor (fn (inject_Z worldX * c)%Q * k) + 1.
Proof.
  intros Hfn HF Hc Hk Hck. apply Qfloor_near. apply Rlt_Qlt.
  rewrite Q2R_plus, !Q2R_mult.
  set (a1 := (inject_Z (worldX + 1) * c)%Q). set (a0 := (inject_Z worldX * c)%Q).
  pose proof (Hfn a1) as H1. pose proof (Hfn a0) as H0.
  pose proof (HF (Q2R a1) (Q2R a0)) as Hd.
  assert (Ha : (Q2R a1 - Q2R a0 = Q2R c)%R).
  { unfold a1, a0. rewrite inject_Z_plus, !Q2R_mult, Q2R_plus.
    change (Q2R (inject_Z 1)) with (Q2R 1). rewrite RMicromega.Q2R_1.
    ring. }
  rewrite Ha in Hd.
  apply Qle_Rle in Hc. apply Qlt_Rlt in Hk, Hck.
  rewrite RMicromega.Q2R_0 in Hc, Hk.
  rewrite Q2R_mult, Q2R_plus in Hck.
  assert (H50 : Q2R (1 / 50) = (1 / 50)%R).
  { rewrite Q2R_div by discriminate.
    change 1%Q with (inject_Z 1). change 50%Q with (inject_Z 50).
    now rewrite !Q2R_inject_Z. }
  rewrite H50, RMicromega.Q2R_1 in Hck.
  rewrite (Rabs_right (Q2R c)) in Hd by Lra.lra.
  apply Rabs_bound in H1, H0, Hd.
  Lra.nra.
Qed.

Lemma realTrig_gentle (host : Host) : realTrig host -> gentle host.
Proof.
  intros Hreal worldX. unfold columnHeight. cbv zeta.
  assert (H1 := near_step (Math_sin host) sin worldX 0.1 2
                  (fun a => proj1 (Hreal a)) sin_lipschitz).
  assert (H2 := near_step (Math_cos host) cos worldX 0.5 1
                  (fun a => proj2 (Hreal a)) cos_lipschitz).
  assert (H1' := H1 ltac:(discriminate) ltac:(reflexivity) ltac:(reflexivity)).
  assert (H2' := H2 ltac:(discriminate) ltac:(reflexivity) ltac:(reflexivity)).
  clear H1 H2. repeat case_match; lia.
Qed.

Lemma hundredth_near (x : R) :
  (Rabs (Q2R (inject_Z (up (100 * x)) / 100) - x) <= 1 / 100)%R.
Proof.
  rewrite Q2R_div by discriminate.
  change 100%Q with (inject_Z 100). rewrite !Q2R_inject_Z. destruct (archimed (100 * x)) as [Hgt Hle].
  apply Rabs_le. Lra.lra.
Qed.

Lemma realHost_realTrig : realTrig realHost.
Proof. intros a. split; apply hundredth_near. Qed.

(** C6: for every chunk index [cx] and local column [x] in
    [0, CHUNK_SIZE), with worldX = cx * CHUNK_SIZE + x, the height is
    floor(sin(worldX * 0.1) * 2) + floor(cos(worldX * 0.5) * 1) clamped
    below at -2; after [generateChunk cx] there is a block at every y
    from -4 up to and including the height; and each of those cells that
    was free before the call holds grass at the height and dirt below
    it.  The one cell set aside is the one at previous height + 4, which
    the stone platform of the column before may have taken: it lies in
    the filled range only where the surface rises by four or more from
    one column to the next, which it does not when sine and cosine are
    those of the reals to within 1/100 (it then rises by at most two).
    So on such a host every column that was free before the call is
    grass on dirt. *)
Theorem C6_generateChunk_columns (host : Host) (e : Engine) (cx x : Z) :
  0 <= x < CHUNK_SIZE ->
  let worldX := cx * CHUNK_SIZE + x in
  let height := columnHeight host worldX in
  let e' := generateChunk host cx e in
  height =
    Z.max (-2)
      (Qfloor (Math_sin host (inject_Z worldX * 0.1) * 2)
       + Qfloor (Math_cos host (inject_Z worldX * 0.5) * 1)) /\
  (forall y, -4 <= y <= height -> has (worldX, y, 0) (blocks e') = true) /\
  (forall y, -4 <= y <= height ->
     blocks e !! (worldX, y, 0) = None ->
     (0 < x -> y <> columnHeight host (worldX - 1) + 4) ->
     blocks e' !! (worldX, y, 0) =
     Some (mkBlock (worldX, y, 0) (if y =? height then grass else dirt)
             (worldX, y, 0))) /\
  ((0 < x -> height < columnHeight host (worldX - 1) + 4) ->
   (forall y, -4 <= y <= height -> blocks e !! (worldX, y, 0) = None) ->
   forall y, -4 <= y <= height ->
     bType <$> blocks e' !! (worldX, y, 0) =
     Some (if y =? height then grass else dirt)) /\
  (realTrig host ->
   (forall y, -4 <= y <= height -> blocks e !! (worldX, y, 0) = None) ->
   forall y, -4 <= y <= height ->
     bType <$> blocks e' !! (worldX, y, 0) =
     Some (if y =? height then grass else dirt)).
Proof.
  intros Hx. cbv zeta.
  assert (Hin : x ∈ Zrange 0 (CHUNK_SIZE - 1)).
  { apply Zrange_elem. unfold CHUNK_SIZE in *. lia. }
  assert (Htyped : forall y,
            -4 <= y <= columnHeight host (cx * CHUNK_SIZE + x) ->
            blocks e !! (cx * CHUNK_SIZE + x, y, 0) = None ->
            (0 < x -> y <> columnHeight host (cx * CHUNK_SIZE + x - 1) + 4) ->
            blocks (generateChunk host cx e) !! (cx * CHUNK_SIZE + x, y, 0) =
            Some (mkBlock (cx * CHUNK_SIZE + x, y, 0)
                    (if y =? columnHeight host (cx * CHUNK_SIZE + x)
                     then grass else dirt)
                    (cx * CHUNK_SIZE + x, y, 0))).
  { intros y Hy Hfree Hplat. unfold generateChunk.
    apply (generateColumns_typed host (cx * CHUNK_SIZE) x); auto.
    intros Hprev. apply Hplat. apply Zrange_elem in Hprev. lia. }
  assert (Hcolumn :
            (0 < x -> columnHeight host (cx * CHUNK_SIZE + x)
                      < columnHeight host (cx * CHUNK_SIZE + x - 1) + 4) ->
            (forall y, -4 <= y <= columnHeight host (cx * CHUNK_SIZE + x) ->
                       blocks e !! (cx * CHUNK_SIZE + x, y, 0) = None) ->
            forall y, -4 <= y <= columnHeight host (cx * CHUNK_SIZE + x) ->
              bType <$> blocks (generateChunk host cx e)
                          !! (cx * CHUNK_SIZE + x, y, 0) =
              Some (if y =? columnHeight host (cx * CHUNK_SIZE + x)
                    then grass else dirt)).
  { intros Hslope Hfree y Hy. rewrite Htyped; [reflexivity|exact Hy| |].
    - now apply Hfree.
    - intros Hx0. specialize (Hslope Hx0). lia. }
  split; [|split; [|split; [|split]]].
  - unfold columnHeight. cbv zeta. case_match; lia.
  - intros y Hy. apply has_true. unfold generateChunk.
    now apply generateColumns_has.
  - exact Htyped.
  - exact Hcolumn.
  - intros Hreal. apply Hcolumn. intros _.
    pose proof (realTrig_gentle host Hreal (cx * CHUNK_SIZE + x - 1)) as Hg.
    replace (cx * CHUNK_SIZE + x - 1 + 1) with (cx * CHUNK_SIZE + x) in Hg
      by lia.
    exact Hg.
Qed.

(** C6 on the host with hills, chunk 2 of an empty world: the world
    columns 36, 37 and 38 have the heights -2 (clamped from -3), -1 and
    1; column 38 (local column 6) holds grass at y = 1 and dirt at
    y = 0 and y = -4.  And on the host with the sine and cosine of the
    reals, the same column is grass on dirt whatever its height is. *)
Lemma C6_generateChunk_columns_witness :
  let e' := generateChunk hillHost 2 (fixture true false false) in
  columnHeight hillHost 36 = -2 /\ columnHeight hillHost 37 = -1 /\
  columnHeight hillHost 38 = 1 /\
  bType <$> blocks e' !! (38, 1, 0) = Some grass /\
  bType <$> blocks e' !! (38, 0, 0) = Some dirt /\
  bType <$> blocks e' !! (38, -4, 0) = Some dirt /\
  (forall y, -4 <= y <= columnHeight realHost (2 * CHUNK_SIZE + 6) ->
     bType <$> blocks (generateChunk realHost 2 (fixture true false false))
                 !! (2 * CHUNK_SIZE + 6, y, 0) =
     Some (if y =? columnHeight realHost (2 * CHUNK_SIZE + 6)
           then grass else dirt)).
Proof.
  assert (Hx : 0 <= 6 < CHUNK_SIZE) by (unfold CHUNK_SIZE; lia).
  destruct (C6_generateChunk_columns hillHost (fixture true false false) 2 6
              Hx) as (_ & _ & _ & Ht & _).
  destruct (C6_generateChunk_columns realHost (fixture true false false) 2 6
              Hx) as (_ & _ & _ & _ & Hr).
  assert (Hs : 0 < 6 ->
               columnHeight hillHost (2 * CHUNK_SIZE + 6)
               < columnHeight hillHost (2 * CHUNK_SIZE + 6 - 1) + 4)
    by (intros _; reflexivity).
  assert (Hfree : forall y,
            -4 <= y <= columnHeight hillHost (2 * CHUNK_SIZE + 6) ->
            blocks (fixture true false false)
              !! (2 * CHUNK_SIZE + 6, y, 0) = None).
  { intros y _. apply lookup_empty. }
  assert (Hfree' : forall y,
            -4 <= y <= columnHeight realHost (2 * CHUNK_SIZE + 6) ->
            blocks (fixture true false false)
              !! (2 * CHUNK_SIZE + 6, y, 0) = None).
  { intros y _. apply lookup_empty. }
  cbv zeta. split; [reflexivity|]. split; [reflexivity|].
  split; [reflexivity|].
  split; [|split; [|split]].
  - change (38, 1, 0) with (2 * CHUNK_SIZE + 6, 1, 0).
    rewrite (Ht Hs Hfree 1) by (vm_compute; split; discriminate).
    reflexivity.
  - change (38, 0, 0) with (2 * CHUNK_SIZE + 6, 0, 0).
    rewrite (Ht Hs Hfree 0) by (vm_compute; split; discriminate).
    reflexivity.
  - change (38, -4, 0) with (2 * CHUNK_SIZE + 6, -4, 0).
    rewrite (Ht Hs Hfree (-4)) by (vm_compute; split; discriminate).
    reflexivity.
  - exact (Hr realHost_realTrig Hfree').
Defined.

(** ** Collision folds *)

Section Collision.

Local Arguments put : simpl never.
Local Arguments has : simpl never.

Lemma cells_elem minX maxX minY maxY x y :
  (x, y) ∈ cells minX maxX minY maxY <->
  minX <= x <= maxX /\ minY <= y <= maxY.
Proof.
  unfold cells. rewrite list_elem_of_In, in_flat_map. split.
  - intros (x' & Hx' & Hin). apply in_map_iff in Hin as (y' & Heq & Hy').
    injection Heq as -> ->.
    apply list_elem_of_In, Zrange_elem in Hx'.
    apply list_elem_of_In, Zrange_elem in Hy'. done.
  - intros [Hx Hy]. exists x. split.
    + now apply list_elem_of_In, Zrange_elem.
    + apply in_map_iff. exists y. split; [done|].
      now apply list_elem_of_In, Zrange_elem.
Qed.

Lemma checkCollision_cells axis e :
  checkCollision axis e = fold_left (collideCell axis) (cellsOf e) e.
Proof. reflexivity. Qed.

(** No block in reach: nothing happens. *)
Lemma collide_clear axis l : forall e,
  (forall x y, (x, y) ∈ l -> has (x, y, 0) (blocks e) = false) ->
  fold_left (collideCell axis) l e = e.
Proof.
  induction l as [|[x y] l IH]; intros e H; [done|]. cbn [fold_left].
  assert (Hc : collideCell axis e (x, y) = e).
  { unfold collideCell. rewrite H; [done|left]. }
  rewrite Hc. apply IH. intros x' y' Hin. apply H. now right.
Qed.

Lemma collideCell_X e x y :
  ~ (0 < pvx e)%Q ->
  collideCell AxisX e (x, y) =
  if has (x, y, 0) (blocks e) then hitX x e else e.
Proof.
  intros Hv. unfold collideCell. destruct (has _ _); [|done].
  unfold Qgtb, Qltb. destruct (Qle_bool (vec_x _) 0) eqn:E; [done|].
  exfalso. apply Hv. apply Qnot_le_lt. intros Hle.
  apply Qle_bool_iff in Hle. unfold pvx in *. congruence.
Qed.

Lemma collideCell_Y e x y :
  ~ (0 < pvy e)%Q ->
  collideCell AxisY e (x, y) =
  if has (x, y, 0) (blocks e) then hitY y e else e.
Proof.
  intros Hv. unfold collideCell. destruct (has _ _); [|done].
  unfold Qgtb, Qltb. destruct (Qle_bool (vec_y _) 0) eqn:E; [done|].
  exfalso. apply Hv. apply Qnot_le_lt. intros Hle.
  apply Qle_bool_iff in Hle. unfold pvy in *. congruence.
Qed.

Lemma hitX_hitX x x' e : hitX x' (hitX x e) = hitX x' e.
Proof. reflexivity. Qed.

Lemma hitY_hitY y y' e : hitY y' (hitY y e) = hitY y' e.
Proof. reflexivity. Qed.

Lemma hitX_still x e : ~ (0 < pvx (hitX x e))%Q.
Proof. cbn. lra. Qed.

Lemma hitY_still y e : ~ (0 < pvy (hitY y e))%Q.
Proof. cbn. lra. Qed.

(** With velocity.x not positive, the X correction either meets no block
    or ends at the last block met. *)
Lemma collide_X l : forall e,
  ~ (0 < pvx e)%Q ->
  (fold_left (collideCell AxisX) l e = e /\
   forall x y, (x, y) ∈ l -> has (x, y, 0) (blocks e) = false) \/
  (exists x y, (x, y) ∈ l /\ has (x, y, 0) (blocks e) = true /\
               fold_left (collideCell AxisX) l e = hitX x e).
Proof.
  induction l as [|[x y] l IH]; intros e Hv.
  - left. split; [done|]. intros x y H. now apply elem_of_nil in H.
  - cbn [fold_left]. rewrite collideCell_X by done.
    destruct (has (x, y, 0) (blocks e)) eqn:Hh.
    + right. destruct (IH (hitX x e) (hitX_still x e)) as [[Heq _]|Hhit].
      * exists x, y. split; [left|]. split; [done|]. exact Heq.
      * destruct Hhit as (x' & y' & Hin & Hh' & Heq).
        exists x', y'. split; [now right|]. split; [exact Hh'|].
        rewrite Heq. apply hitX_hitX.
    + destruct (IH e Hv) as [[Heq Hno]|Hhit].
      * left. split; [done|]. intros x' y' Hin.
        apply elem_of_cons in Hin as [Hin|Hin]; [congruence|]. now apply Hno.
      * right. destruct Hhit as (x' & y' & Hin & Hh' & Heq).
        exists x', y'. split; [now right|]. done.
Qed.

Lemma collide_Y l : forall e,
  ~ (0 < pvy e)%Q ->
  (fold_left (collideCell AxisY) l e = e /\
   forall x y, (x, y) ∈ l -> has (x, y, 0) (blocks e) = false) \/
  (exists x y, (x, y) ∈ l /\ has (x, y, 0) (blocks e) = true /\
               fold_left (collideCell AxisY) l e = hitY y e).
Proof.
  induction l as [|[x y] l IH]; intros e Hv.
  - left. split; [done|]. intros x y H. now apply elem_of_nil in H.
  - cbn [fold_left]. rewrite collideCell_Y by done.
    destruct (has (x, y, 0) (blocks e)) eqn:Hh.
    + right. destruct (IH (hitY y e) (hitY_still y e)) as [[Heq _]|Hhit].
      * exists x, y. split; [left|]. split; [done|]. exact Heq.
      * destruct Hhit as (x' & y' & Hin & Hh' & Heq).
        exists x', y'. split; [now right|]. split; [exact Hh'|].
        rewrite Heq. apply hitY_hitY.
    + destruct (IH e Hv) as [[Heq Hno]|Hhit].
      * left. split; [done|]. intros x' y' Hin.
        apply elem_of_cons in Hin as [Hin|Hin]; [congruence|]. now apply Hno.
      * right. destruct Hhit as (x' & y' & Hin & Hh' & Heq).
        exists x', y'. split; [now right|]. done.
Qed.

End Collision.

(** ** Landing on a floor *)

Lemma Qfloor_ge (z : Z) (u : Q) : (inject_Z z <= u)%Q -> z <= Qfloor u.
Proof. intros H. rewrite <- (Qfloor_Z z). now apply Qfloor_resp_le. Qed.

Lemma Qfloor_lt (z : Z) (u : Q) : (u < inject_Z z)%Q -> Qfloor u < z.
Proof.
  intros H. rewrite Zlt_Qlt. eapply Qle_lt_trans; [apply Qfloor_le|exact H].
Qed.

Lemma Qfloor_unique (z : Z) (u : Q) :
  (inject_Z z <= u)%Q -> (u < inject_Z z + 1)%Q -> Qfloor u = z.
Proof.
  intros H1 H2. apply Qfloor_ge in H1.
  assert (H3 : Qfloor u < z + 1).
  { apply Qfloor_lt. rewrite inject_Z_plus. exact H2. }
  lia.
Qed.

Lemma square_small (dt : Q) :
  (0 < dt)%Q -> (dt <= 0.1)%Q -> (0 < dt * dt)%Q /\ (dt * dt <= 0.01)%Q.
Proof. intros H1 H2. split; nra. Qed.

Lemma fall_bound (a : Q) (n : nat) :
  (0 < a)%Q -> (a <= 0.01)%Q ->
  let m := inject_Z (Z.of_nat n) in
  (1.4 <= 5 - 20 * a * m * (m + 1))%Q ->
  (-0.4 <= 5 - 20 * a * m * (m + 1) - 40 * a * (m + 1))%Q.
Proof.
  intros Ha1 Ha2 m H.
  destruct (Nat.le_gt_cases n 3) as [Hn|Hn].
  - assert (Hm : (m <= 3)%Q).
    { unfold m. change 3%Q with (inject_Z 3). rewrite <- Zle_Qle. lia. }
    assert (Hm0 : (0 <= m)%Q).
    { unfold m. change 0%Q with (inject_Z 0). rewrite <- Zle_Qle. lia. }
    nra.
  - assert (Hm : (4 <= m)%Q).
    { unfold m. change 4%Q with (inject_Z 4). rewrite <- Zle_Qle. lia. }
    nra.
Qed.

Lemma Zrange_snoc lo hi : lo <= hi -> Zrange lo hi = Zrange lo (hi - 1) ++ [hi].
Proof.
  intros H. unfold Zrange.
  replace (Z.to_nat (hi - lo + 1)) with (S (Z.to_nat (hi - 1 - lo + 1))) by lia.
  rewrite seq_S, map_app. cbn [map]. do 2 f_equal. lia.
Qed.

Lemma cells_snoc minX maxX minY maxY :
  minX <= maxX ->
  cells minX maxX minY maxY =
  cells minX (maxX - 1) minY maxY ++
  map (fun y => (maxX, y)) (Zrange minY maxY).
Proof.
  intros H. unfold cells. rewrite (Zrange_snoc minX maxX H), flat_map_app.
  cbn [flat_map]. now rewrite app_nil_r.
Qed.

Lemma collide_X_result l e :
  ~ (0 < pvx e)%Q ->
  fold_left (collideCell AxisX) l e = e \/
  exists x, fold_left (collideCell AxisX) l e = hitX x e.
Proof.
  intros Hv. destruct (collide_X l e Hv) as [[H _]|(x & y & _ & _ & H)];
    [now left|right; now exists x].
Qed.

(** The X loop over the columns [minX .. maxX], for a player that is not
    moving right: a block in the last column decides the outcome, and a
    last column without blocks can be left out. *)
Lemma collide_X_rightmost minX maxX minY maxY e y :
  ~ (0 < pvx e)%Q -> minX <= maxX -> minY <= y <= maxY ->
  has (maxX, y, 0) (blocks e) = true ->
  fold_left (collideCell AxisX) (cells minX maxX minY maxY) e = hitX maxX e.
Proof.
  intros Hv Hle Hy Hh.
  rewrite (cells_snoc _ _ _ _ Hle), fold_left_app.
  set (l1 := cells _ _ _ _).
  assert (Hmid : exists e1, fold_left (collideCell AxisX) l1 e = e1 /\
                   ~ (0 < pvx e1)%Q /\ blocks e1 = blocks e /\
                   forall x, hitX x e1 = hitX x e).
  { destruct (collide_X_result l1 e Hv) as [->|[x ->]].
    - exists e. done.
    - exists (hitX x e). split; [done|]. split; [apply hitX_still|]. done. }
  destruct Hmid as (e1 & -> & Hv1 & Hb1 & Hx1).
  destruct (collide_X (map (fun y0 => (maxX, y0)) (Zrange minY maxY))
              e1 Hv1) as [[_ Hno]|(x' & y' & Hin & _ & ->)].
  - exfalso. rewrite Hb1 in Hno. rewrite (Hno maxX y) in Hh; [discriminate|].
    apply list_elem_of_fmap. exists y. split; [done|]. now apply Zrange_elem.
  - apply list_elem_of_fmap in Hin as (y0 & [= -> ->] & _). apply Hx1.
Qed.

Lemma collide_X_skip minX maxX minY maxY e :
  ~ (0 < pvx e)%Q -> minX <= maxX ->
  (forall y, minY <= y <= maxY -> has (maxX, y, 0) (blocks e) = false) ->
  fold_left (collideCell AxisX) (cells minX maxX minY maxY) e =
  fold_left (collideCell AxisX) (cells minX (maxX - 1) minY maxY) e.
Proof.
  intros Hv Hle Hfree. rewrite (cells_snoc _ _ _ _ Hle), fold_left_app.
  apply collide_clear. intros x y Hin.
  apply list_elem_of_fmap in Hin as (y0 & [= -> ->] & Hy0).
  apply Zrange_elem in Hy0.
  assert (Hb : blocks (fold_left (collideCell AxisX)
                         (cells minX (maxX - 1) minY maxY) e) = blocks e).
  { destruct (collide_X_result (cells minX (maxX - 1) minY maxY) e Hv)
      as [->|[x ->]]; reflexivity. }
  rewrite Hb. now apply Hfree.
Qed.

(** The X correction of a player that is not moving right, when a block
    lies in the rightmost column its box reaches: the player ends on the
    right-hand side of that column. *)
Lemma checkCollision_X_rightmost e y :
  ~ (0 < pvx e)%Q ->
  Qfloor (py e - 0.4) <= y <= Qfloor (py e + 0.4) ->
  has (Qfloor (px e + 0.35), y, 0) (blocks e) = true ->
  checkCollision AxisX e = hitX (Qfloor (px e + 0.35)) e.
Proof.
  intros Hv Hy Hh. rewrite checkCollision_cells. unfold cellsOf.
  apply (collide_X_rightmost _ _ _ _ e y); [done| |done|done].
  apply Qfloor_resp_le. lra.
Qed.

(** The box of the player, 0.7 wide, reaches at most two columns. *)
Lemma Qfloor_span (u : Q) : Qfloor (u + 0.35) <= Qfloor (u - 0.35) + 1.
Proof.
  assert (Qfloor (u + 0.35) < Qfloor (u - 0.35) + 1 + 1); [|lia].
  apply Qfloor_lt. pose proof (Qlt_floor (u - 0.35)) as H.
  rewrite (inject_Z_plus (Qfloor (u - 0.35) + 1) 1).
  change (inject_Z 1) with 1%Q. lra.
Qed.

Lemma rest_rows e :
  (py e == 0.9)%Q -> Qfloor (py e - 0.4) = 0 /\ Qfloor (py e + 0.4) = 1.
Proof.
  intros H. split; apply Qfloor_unique.
  - change (inject_Z 0) with 0%Q. lra.
  - change (inject_Z 0) with 0%Q. lra.
  - change (inject_Z 1) with 1%Q. lra.
  - change (inject_Z 1) with 1%Q. lra.
Qed.

Lemma hitX_floor k e : Qfloor (px (hitX k e) + 0.35) = k + 1.
Proof.
  change (px (hitX k e)) with (inject_Z k + 0.5 + 0.35)%Q.
  apply Qfloor_unique; rewrite inject_Z_plus; change (inject_Z 1) with 1%Q; lra.
Qed.

(** What the corrections overwrite, the step before them need not have
    computed. *)
Lemma rest_collapse dt k e :
  hitY 0 (advance AxisY dt (hitX k (beforeX dt e))) = hitY 0 (hitX k e).
Proof. reflexivity. Qed.

Lemma hit_collapse k k' e :
  hitY 0 (hitX k' (hitY 0 (hitX k e))) = hitY 0 (hitX k' e).
Proof. reflexivity. Qed.

Section Landing.

Variables (dt : Q) (lo hi : Z) (g : gmap Key BlockMesh).
Hypothesis Hdt0 : (0 < dt)%Q.
Hypothesis Hdt1 : (dt <= 0.1)%Q.
Hypothesis Hfloor : flatFloor lo hi g.

Local Arguments put : simpl never.
Local Arguments has : simpl never.

Lemma floor_has x y : has (x, y, 0) g = true <-> y = 0 /\ lo <= x <= hi.
Proof. rewrite has_true. apply Hfloor. Qed.

Lemma floor_clear x y : y <> 0 -> has (x, y, 0) g = false.
Proof.
  intros Hy. destruct (has (x, y, 0) g) eqn:E; [|done].
  apply floor_has in E. tauto.
Qed.

Lemma clamp_zero (v s : Q) : (v == 0)%Q -> (0 < s)%Q -> (Qmax (Qmin v s) (- s) == 0)%Q.
Proof.
  intros Hv Hs.
  assert (H1 : (Qmin v s == v)%Q) by (apply Q.min_l; lra).
  assert (H2 : (Qmax (Qmin v s) (- s) == Qmin v s)%Q) by (apply Q.max_l; lra).
  lra.
Qed.

Lemma beforeX_fields e :
  r (input e) = 0 -> (pvx e == 0)%Q ->
  blocks (beforeX dt e) = blocks e /\ input (beforeX dt e) = input e /\
  (px (beforeX dt e) == px e)%Q /\ py (beforeX dt e) = py e /\
  (pvx (beforeX dt e) == 0)%Q /\
  pvy (beforeX dt e) = (pvy e - GRAVITY * dt)%Q /\
  onGround (player (beforeX dt e)) = onGround (player e).
Proof.
  intros Hr Hv. unfold beforeX, advance, accelerate, px, py, pvx, pvy in *.
  cbn. rewrite Hr. cbn.
  assert (Hc : (Qmax (Qmin (vec_x (velocity (player e)) -
                             vec_x (velocity (player e)) * DRAG * dt)
                        (if sprint (input e) then SPRINT_SPEED else MOVE_SPEED))
                  (- (if sprint (input e) then SPRINT_SPEED else MOVE_SPEED))
                == 0)%Q).
  { apply clamp_zero; [unfold DRAG; nra|].
    destruct (sprint (input e)); reflexivity. }
  repeat split; try reflexivity; [|exact Hc].
  rewrite Hc. lra.
Qed.

(** Above the reach of the floor no correction applies. *)
Lemma checkCollision_high axis e :
  blocks e = g -> (1.4 <= py e)%Q -> checkCollision axis e = e.
Proof.
  intros Hb Hy. rewrite checkCollision_cells. apply collide_clear.
  intros x y Hin. apply cells_elem in Hin as [_ [Hlow _]].
  rewrite Hb. apply floor_clear.
  assert (1 <= Qfloor (py e - 0.4)); [|lia].
  apply Qfloor_ge. change (inject_Z 1) with 1%Q. lra.
Qed.

(** Within reach of the floor and over one of its blocks, a player that
    is not rising is put on the floor. *)
Lemma checkCollision_land e :
  blocks e = g -> ~ (0 < pvy e)%Q ->
  (-0.4 <= py e)%Q -> (py e < 1.4)%Q ->
  (exists x, lo <= x <= hi /\
             Qfloor (px e - 0.35) <= x <= Qfloor (px e + 0.35)) ->
  checkCollision AxisY e = hitY 0 e.
Proof.
  intros Hb Hv Hy1 Hy2 (x & Hx & Hr). rewrite checkCollision_cells.
  destruct (collide_Y (cellsOf e) e Hv) as [[_ Hno]|(x' & y' & _ & Hh & Heq)].
  - exfalso. specialize (Hno x 0).
    assert (Hh : has (x, 0, 0) (blocks e) = true).
    { rewrite Hb. apply floor_has. lia. }
    rewrite Hno in Hh; [discriminate|].
    apply cells_elem. split; [exact Hr|]. split.
    + assert (Qfloor (py e - 0.4) < 1); [|lia].
      apply Qfloor_lt. change (inject_Z 1) with 1%Q. lra.
    + apply Qfloor_ge. change (inject_Z 0) with 0%Q. lra.
  - rewrite Hb in Hh. apply floor_has in Hh as [-> _]. exact Heq.
Qed.

(** Resting on the floor, the X correction finds the floor block too and
    moves the player to its right-hand side. *)
Lemma checkCollision_slide e :
  blocks e = g -> ~ (0 < pvx e)%Q -> (py e == 0.9)%Q ->
  (exists x, lo <= x <= hi /\
             Qfloor (px e - 0.35) <= x <= Qfloor (px e + 0.35)) ->
  exists x, lo <= x <= hi /\ checkCollision AxisX e = hitX x e.
Proof.
  intros Hb Hv Hy (x & Hx & Hr). rewrite checkCollision_cells.
  destruct (collide_X (cellsOf e) e Hv) as [[_ Hno]|(x' & y' & _ & Hh & Heq)].
  - exfalso. specialize (Hno x 0).
    assert (Hh : has (x, 0, 0) (blocks e) = true).
    { rewrite Hb. apply floor_has. lia. }
    rewrite Hno in Hh; [discriminate|].
    apply cells_elem. split; [exact Hr|]. split.
    + assert (Qfloor (py e - 0.4) < 1); [|lia].
      apply Qfloor_lt. change (inject_Z 1) with 1%Q. lra.
    + apply Qfloor_ge. change (inject_Z 0) with 0%Q. lra.
  - rewrite Hb in Hh. apply floor_has in Hh as [_ Hx']. eauto.
Qed.

Lemma hitX_range x e :
  Qfloor (px (hitX x e) - 0.35) <= x <= Qfloor (px (hitX x e) + 0.35).
Proof.
  change (px (hitX x e)) with (inject_Z x + 0.5 + 0.35)%Q. split.
  - assert (Qfloor (inject_Z x + 0.5 + 0.35 - 0.35) < x + 1); [|lia].
    apply Qfloor_lt. rewrite inject_Z_plus. change (inject_Z 1) with 1%Q. lra.
  - apply Qfloor_ge. lra.
Qed.

Lemma updatePhysics_phases e :
  updatePhysics dt e =
  fallDeath
    (checkCollision AxisY
       (advance AxisY dt (checkCollision AxisX (beforeX dt e)))).
Proof. reflexivity. Qed.

Lemma fallDeath_world e :
  blocks (fallDeath e) = blocks e /\ input (fallDeath e) = input e.
Proof. unfold fallDeath. now destruct (Qltb _ _). Qed.

Lemma landed_fallDeath e : landed lo hi g e -> landed lo hi g (fallDeath e).
Proof.
  unfold landed, px, py, pvx, pvy.
  destruct (fallDeath_world e) as [-> ->]. now rewrite fallDeath_player.
Qed.

Lemma airborne_fallDeath x0 n e :
  airborne dt x0 g n e -> airborne dt x0 g n (fallDeath e).
Proof.
  unfold airborne, px, py, pvx, pvy.
  destruct (fallDeath_world e) as [-> ->]. now rewrite fallDeath_player.
Qed.

(** Once landed, always landed. *)
Lemma landed_step e : landed lo hi g e -> landed lo hi g (updatePhysics dt e).
Proof.
  intros (Hb & Hr & Hy & Hvy & Hvx & Hg & x0 & Hx0 & Hr0).
  rewrite updatePhysics_phases. apply landed_fallDeath.
  destruct (beforeX_fields e Hr Hvx) as (B1 & B2 & B3 & B4 & B5 & B6 & B7).
  revert B1 B2 B3 B4 B5 B6 B7. generalize (beforeX dt e). intros e2.
  intros B1 B2 B3 B4 B5 B6 B7.
  assert (Hf1 : Qfloor (px e2 - 0.35) = Qfloor (px e - 0.35))
    by (apply Qfloor_comp; lra).
  assert (Hf2 : Qfloor (px e2 + 0.35) = Qfloor (px e + 0.35))
    by (apply Qfloor_comp; lra).
  destruct (checkCollision_slide e2) as (x & Hx & ->).
  { congruence. }
  { lra. }
  { rewrite B4. exact Hy. }
  { exists x0. rewrite Hf1, Hf2. done. }
  assert (Hd := square_small dt Hdt0 Hdt1).
  rewrite checkCollision_land.
  - unfold landed.
    change (blocks (hitY 0 (advance AxisY dt (hitX x e2)))) with (blocks e2).
    change (input (hitY 0 (advance AxisY dt (hitX x e2)))) with (input e2).
    change (py (hitY 0 (advance AxisY dt (hitX x e2))))
      with (inject_Z 0 + 0.5 + 0.4)%Q.
    change (pvy (hitY 0 (advance AxisY dt (hitX x e2)))) with 0%Q.
    change (pvx (hitY 0 (advance AxisY dt (hitX x e2)))) with 0%Q.
    change (px (hitY 0 (advance AxisY dt (hitX x e2))))
      with (px (hitX x e2)).
    split; [congruence|]. split; [congruence|].
    split; [reflexivity|]. split; [reflexivity|]. split; [reflexivity|].
    split; [reflexivity|]. exists x. split; [exact Hx|]. apply hitX_range.
  - change (blocks (advance AxisY dt (hitX x e2))) with (blocks e2). congruence.
  - change (pvy (advance AxisY dt (hitX x e2))) with (pvy e2).
    rewrite B6. unfold GRAVITY. lra.
  - change (py (advance AxisY dt (hitX x e2)))
      with (py e2 + pvy e2 * dt)%Q.
    rewrite B4, B6. unfold GRAVITY. nra.
  - change (py (advance AxisY dt (hitX x e2)))
      with (py e2 + pvy e2 * dt)%Q.
    rewrite B4, B6. unfold GRAVITY. nra.
  - exists x. split; [exact Hx|].
    change (px (advance AxisY dt (hitX x e2))) with (px (hitX x e2)).
    apply hitX_range.
Qed.

Variable x0 : Q.
Hypothesis Hspan : lo <= Qfloor (x0 - 0.35) /\ Qfloor (x0 + 0.35) <= hi.

(** A falling step either stays above the reach of the floor or ends on
    the floor: it cannot pass through. *)
Lemma airborne_step n e :
  airborne dt x0 g n e ->
  airborne dt x0 g (S n) (updatePhysics dt e) \/
  landed lo hi g (updatePhysics dt e).
Proof.
  intros (Hb & Hr & Hx & Hvx & Hvy & Hy & Hhigh).
  rewrite updatePhysics_phases.
  destruct (beforeX_fields e Hr Hvx) as (B1 & B2 & B3 & B4 & B5 & B6 & B7).
  revert B1 B2 B3 B4 B5 B6 B7. generalize (beforeX dt e). intros e2.
  intros B1 B2 B3 B4 B5 B6 B7.
  rewrite (checkCollision_high AxisX e2) by (rewrite ?B4; congruence).
  assert (Hd := square_small dt Hdt0 Hdt1).
  set (m := inject_Z (Z.of_nat n)) in *.
  assert (Hm : (0 <= m)%Q).
  { unfold m. change 0%Q with (inject_Z 0). rewrite <- Zle_Qle. lia. }
  assert (Hy4 : (py (advance AxisY dt e2) ==
                 5 - 20 * (dt * dt) * m * (m + 1) - 40 * (dt * dt) * (m + 1))%Q).
  { change (py (advance AxisY dt e2)) with (py e2 + pvy e2 * dt)%Q.
    rewrite B4, B6, Hy, Hvy. unfold GRAVITY. ring. }
  assert (Hv4 : (pvy (advance AxisY dt e2) == - (40 * dt * (m + 1)))%Q).
  { change (pvy (advance AxisY dt e2)) with (pvy e2).
    rewrite B6, Hvy. unfold GRAVITY. ring. }
  destruct (Qlt_le_dec (py (advance AxisY dt e2)) 1.4) as [Hlow|Hup].
  - right. apply landed_fallDeath.
    assert (Hfb : (-0.4 <= py (advance AxisY dt e2))%Q).
    { rewrite Hy4. apply fall_bound; [tauto|tauto|]. fold m. rewrite <- Hy.
      exact Hhigh. }
    assert (Hrange : exists x, lo <= x <= hi /\
              Qfloor (px (advance AxisY dt e2) - 0.35) <= x
              <= Qfloor (px (advance AxisY dt e2) + 0.35)).
    { exists (Qfloor (x0 - 0.35)).
      change (px (advance AxisY dt e2)) with (px e2).
      rewrite (Qfloor_comp (px e2 - 0.35) (x0 - 0.35)) by lra.
      rewrite (Qfloor_comp (px e2 + 0.35) (x0 + 0.35)) by lra.
      assert (Qfloor (x0 - 0.35) <= Qfloor (x0 + 0.35))
        by (apply Qfloor_resp_le; lra).
      lia. }
    rewrite checkCollision_land;
      [|change (blocks e2 = g); congruence| |exact Hfb|exact Hlow|exact Hrange].
    + unfold landed.
      change (blocks (hitY 0 (advance AxisY dt e2))) with (blocks e2).
      change (input (hitY 0 (advance AxisY dt e2))) with (input e2).
      change (py (hitY 0 (advance AxisY dt e2)))
        with (inject_Z 0 + 0.5 + 0.4)%Q.
      change (pvy (hitY 0 (advance AxisY dt e2))) with 0%Q.
      change (pvx (hitY 0 (advance AxisY dt e2))) with (pvx e2).
      change (px (hitY 0 (advance AxisY dt e2)))
        with (px (advance AxisY dt e2)).
      split; [congruence|]. split; [congruence|].
      split; [reflexivity|]. split; [reflexivity|]. split; [exact B5|].
      split; [reflexivity|]. exact Hrange.
    + rewrite Hv4. nra.
  - left. apply airborne_fallDeath.
    rewrite (checkCollision_high AxisY (advance AxisY dt e2));
      [|change (blocks e2 = g); congruence|exact Hup].
    unfold airborne. cbv zeta.
    rewrite Nat2Z.inj_succ. unfold Z.succ. rewrite inject_Z_plus.
    change (inject_Z 1) with 1%Q. fold m.
    change (blocks (advance AxisY dt e2)) with (blocks e2).
    change (input (advance AxisY dt e2)) with (input e2).
    change (px (advance AxisY dt e2)) with (px e2).
    change (pvx (advance AxisY dt e2)) with (pvx e2).
    split; [congruence|]. split; [congruence|]. split; [lra|].
    split; [exact B5|]. split; [exact Hv4|]. split; [|exact Hup].
    rewrite Hy4. ring.
Qed.

(** A fall does not last: after enough steps the height formula of
    [airborne] is below the floor. *)
Lemma airborne_bounded :
  exists B : nat, forall e, ~ airborne dt x0 g B e.
Proof.
  assert (Hd := square_small dt Hdt0 Hdt1).
  exists (Z.to_nat (Qceiling (1 / (dt * dt)))).
  intros e (_ & _ & _ & _ & _ & Hy & Hhigh).
  set (m := inject_Z (Z.of_nat (Z.to_nat (Qceiling (1 / (dt * dt)))))) in *.
  assert (Hc : (1 / (dt * dt) <= m)%Q).
  { eapply Qle_trans; [apply Qle_ceiling|]. unfold m.
    rewrite <- Zle_Qle. lia. }
  assert (Ham : (1 <= dt * dt * m)%Q).
  { assert (H1 : (1 / (dt * dt) * (dt * dt) == 1)%Q) by (field; lra).
    rewrite <- H1. rewrite (Qmult_comm (dt * dt) m).
    apply Qmult_le_compat_r; [exact Hc|lra]. }
  assert (Hm : (0 <= m)%Q).
  { unfold m. change 0%Q with (inject_Z 0). rewrite <- Zle_Qle. lia. }
  rewrite Hy in Hhigh. nra.
Qed.

Lemma landed_forever e :
  landed lo hi g e -> forall n, landed lo hi g (steps dt n e).
Proof.
  intros H n. induction n as [|n IH]; [exact H|].
  change (steps dt (S n) e) with (updatePhysics dt (steps dt n e)).
  now apply landed_step.
Qed.

Lemma steps_add n k e : steps dt (n + k) e = steps dt n (steps dt k e).
Proof. apply Nat.iter_add. Qed.

(** Resting on the floor, the X correction puts the player on the
    right-hand side of the rightmost floor column its box reaches. *)
Lemma checkCollision_slide_to e :
  blocks e = g -> ~ (0 < pvx e)%Q -> (py e == 0.9)%Q ->
  (exists x, lo <= x <= hi /\
             Qfloor (px e - 0.35) <= x <= Qfloor (px e + 0.35)) ->
  checkCollision AxisX e = hitX (Z.min (Qfloor (px e + 0.35)) hi) e.
Proof.
  intros Hb Hv Hy (x & Hx & Hr).
  destruct (rest_rows e Hy) as [Hr0 Hr1].
  destruct (Z_le_gt_dec (Qfloor (px e + 0.35)) hi) as [Hle|Hgt].
  - rewrite Z.min_l by lia.
    apply (checkCollision_X_rightmost e 0); [done|lia|].
    rewrite Hb. apply floor_has. lia.
  - rewrite Z.min_r by lia.
    pose proof (Qfloor_span (px e)) as Hs.
    assert (Hhi : Qfloor (px e + 0.35) - 1 = hi) by lia.
    rewrite checkCollision_cells. unfold cellsOf.
    rewrite collide_X_skip; [|done|lia|].
    + rewrite Hhi. apply (collide_X_rightmost _ _ _ _ e 0); [done|lia|lia|].
      rewrite Hb. apply floor_has. lia.
    + intros y _. rewrite Hb. destruct (has _ g) eqn:E; [|done].
      apply floor_has in E. lia.
Qed.

(** A step of a player resting on the floor: the two corrections, at
    the rightmost floor column in reach and at the floor row. *)
Lemma landed_rest e :
  landed lo hi g e ->
  updatePhysics dt e = hitY 0 (hitX (Z.min (Qfloor (px e + 0.35)) hi) e).
Proof.
  intros (Hb & Hr & Hy & Hvy & Hvx & Hg & xc & Hxc & Hrc).
  rewrite updatePhysics_phases.
  rewrite <- (rest_collapse dt (Z.min (Qfloor (px e + 0.35)) hi) e).
  destruct (beforeX_fields e Hr Hvx) as (B1 & B2 & B3 & B4 & B5 & B6 & B7).
  revert B1 B2 B3 B4 B5 B6 B7. generalize (beforeX dt e). intros e2.
  intros B1 B2 B3 B4 B5 B6 B7.
  assert (Hf1 : Qfloor (px e2 - 0.35) = Qfloor (px e - 0.35))
    by (apply Qfloor_comp; lra).
  assert (Hf2 : Qfloor (px e2 + 0.35) = Qfloor (px e + 0.35))
    by (apply Qfloor_comp; lra).
  rewrite (checkCollision_slide_to e2);
    [|congruence|lra|rewrite B4; exact Hy|exists xc; rewrite Hf1, Hf2; done].
  rewrite Hf2. set (k := Z.min (Qfloor (px e + 0.35)) hi).
  assert (Hk : lo <= k <= hi) by (unfold k; lia).
  assert (Hd := square_small dt Hdt0 Hdt1).
  rewrite checkCollision_land.
  - apply fallDeath_alive.
    change (vec_y (position (player (hitY 0 (advance AxisY dt (hitX k e2))))))
      with (inject_Z 0 + 0.5 + 0.4)%Q.
    intros H. vm_compute in H. discriminate.
  - change (blocks (advance AxisY dt (hitX k e2))) with (blocks e2). congruence.
  - change (pvy (advance AxisY dt (hitX k e2))) with (pvy e2).
    rewrite B6. unfold GRAVITY. lra.
  - change (py (advance AxisY dt (hitX k e2)))
      with (py e2 + pvy e2 * dt)%Q.
    rewrite B4, B6. unfold GRAVITY. nra.
  - change (py (advance AxisY dt (hitX k e2)))
      with (py e2 + pvy e2 * dt)%Q.
    rewrite B4, B6. unfold GRAVITY. nra.
  - exists k. split; [exact Hk|].
    change (px (advance AxisY dt (hitX k e2))) with (px (hitX k e2)).
    apply hitX_range.
Qed.

(** From then on the player moves one column to the right with every
    step, until the last column of the floor. *)
Lemma landed_steps e n :
  landed lo hi g e ->
  steps dt (S n) e =
  hitY 0 (hitX (Z.min (Qfloor (px e + 0.35) + Z.of_nat n) hi) e).
Proof.
  intros Hl. induction n as [|n IH].
  - change (steps dt 1 e) with (updatePhysics dt e).
    rewrite landed_rest by exact Hl. do 2 f_equal. lia.
  - change (steps dt (S (S n)) e) with (updatePhysics dt (steps dt (S n) e)).
    pose proof (landed_forever e Hl (S n)) as Hl'.
    rewrite (landed_rest _ Hl'). rewrite IH.
    set (k := Z.min (Qfloor (px e + 0.35) + Z.of_nat n) hi).
    change (px (hitY 0 (hitX k e))) with (px (hitX k e)).
    rewrite hitX_floor, hit_collapse. do 2 f_equal. lia.
Qed.

Lemma slides_to_end e :
  landed lo hi g e ->
  exists M, forall n, (M <= n)%nat -> steps dt n e = hitY 0 (hitX hi e).
Proof.
  intros Hl. exists (S (Z.to_nat (hi - Qfloor (px e + 0.35)))). intros n Hn.
  destruct n as [|n]; [lia|]. rewrite landed_steps by exact Hl.
  do 2 f_equal. lia.
Qed.

(** Below the reach of the floor no correction applies, and a falling
    player keeps falling. *)
Lemma checkCollision_low axis e :
  blocks e = g -> (py e < -0.4)%Q -> checkCollision axis e = e.
Proof.
  intros Hb Hy. rewrite checkCollision_cells. apply collide_clear.
  intros x y Hin. apply cells_elem in Hin as [_ [_ Hup]].
  rewrite Hb. apply floor_clear.
  assert (Qfloor (py e + 0.4) < 0); [|lia].
  apply Qfloor_lt. change (inject_Z 0) with 0%Q. lra.
Qed.

Lemma fallen_fallDeath e : fallen g e -> fallen g (fallDeath e).
Proof.
  unfold fallen, px, py, pvx, pvy.
  destruct (fallDeath_world e) as [-> ->]. now rewrite fallDeath_player.
Qed.

Lemma fallen_step e : fallen g e -> fallen g (updatePhysics dt e).
Proof.
  intros (Hb & Hr & Hvx & Hvy & Hy & Hg).
  rewrite updatePhysics_phases. apply fallen_fallDeath.
  destruct (beforeX_fields e Hr Hvx) as (B1 & B2 & B3 & B4 & B5 & B6 & B7).
  revert B1 B2 B3 B4 B5 B6 B7. generalize (beforeX dt e). intros e2.
  intros B1 B2 B3 B4 B5 B6 B7.
  rewrite (checkCollision_low AxisX e2) by (rewrite ?B4; congruence).
  assert (Hy' : (py (advance AxisY dt e2) < -0.4)%Q).
  { change (py (advance AxisY dt e2)) with (py e2 + pvy e2 * dt)%Q.
    rewrite B4, B6. unfold GRAVITY. nra. }
  rewrite (checkCollision_low AxisY (advance AxisY dt e2));
    [|change (blocks e2 = g); congruence|exact Hy'].
  unfold fallen.
  change (blocks (advance AxisY dt e2)) with (blocks e2).
  change (input (advance AxisY dt e2)) with (input e2).
  change (pvx (advance AxisY dt e2)) with (pvx e2).
  change (pvy (advance AxisY dt e2)) with (pvy e2).
  change (onGround (player (advance AxisY dt e2))) with (onGround (player e2)).
  split; [congruence|]. split; [congruence|]. split; [exact B5|].
  split; [rewrite B6; unfold GRAVITY; lra|]. split; [exact Hy'|congruence].
Qed.

Lemma fallen_forever e :
  fallen g e -> forall n, fallen g (steps dt n e).
Proof.
  intros H n. induction n as [|n IH]; [exact H|].
  change (steps dt (S n) e) with (updatePhysics dt (steps dt n e)).
  now apply fallen_step.
Qed.


Lemma fall_or_land e :
  airborne dt x0 g 0 e ->
  forall n, airborne dt x0 g n (steps dt n e) \/
            exists k, (k <= n)%nat /\ landed lo hi g (steps dt k e).
Proof.
  intros H0 n. induction n as [|n [IH|(k & Hk & IH)]].
  - left. exact H0.
  - change (steps dt (S n) e) with (updatePhysics dt (steps dt n e)).
    destruct (airborne_step n _ IH) as [H|H]; [now left|].
    right. exists (S n). split; [lia|exact H].
  - right. exists k. split; [lia|exact IH].
Qed.

(** From rest at height 5 the player is on the floor after finitely many
    steps and stays there. *)
Lemma settles e :
  airborne dt x0 g 0 e ->
  exists N, forall n, (N <= n)%nat -> landed lo hi g (steps dt n e).
Proof.
  intros H0. destruct airborne_bounded as [B HB].
  destruct (fall_or_land e H0 B) as [H|(k & _ & Hk)]; [now apply HB in H|].
  exists k. intros n Hn. replace n with ((n - k) + k)%nat by lia.
  rewrite steps_add. now apply landed_forever.
Qed.

(** And it comes to rest there: from some step on the state no longer
    changes, the player standing at the right end of the floor. *)
Lemma settles_fixed e :
  airborne dt x0 g 0 e ->
  exists N e', landed lo hi g e' /\
    forall n, (N <= n)%nat -> steps dt n e = hitY 0 (hitX hi e').
Proof.
  intros H0. destruct (settles e H0) as [N0 HN0].
  pose proof (HN0 N0 (Nat.le_refl _)) as Hl.
  destruct (slides_to_end _ Hl) as [M HM].
  exists (M + N0)%nat, (steps dt N0 e). split; [exact Hl|].
  intros n Hn. replace n with ((n - N0) + N0)%nat by lia.
  rewrite steps_add. apply HM. lia.
Qed.

End Landing.

Lemma floorGrid_lookup l : forall (g0 : gmap Key BlockMesh) k,
  is_Some (fold_left (fun g x => put (x, 0, 0) stone g) l g0 !! k) <->
  is_Some (g0 !! k) \/ exists x, x ∈ l /\ k = (x, 0, 0).
Proof.
  induction l as [|x l IH]; intros g0 k; cbn [fold_left].
  - split; [now left|]. intros [H|(x & Hx & _)]; [done|].
    now apply elem_of_nil in Hx.
  - rewrite IH. split.
    + intros [H|(x' & Hx' & ->)].
      * destruct (decide (k = (x, 0, 0))) as [->|Hne].
        -- right. exists x. split; [left|done].
        -- left. now rewrite put_other in H.
      * right. exists x'. split; [now right|done].
    + intros [[b H]|(x' & Hx' & ->)].
      * left. exists b. now apply put_keeps.
      * apply elem_of_cons in Hx' as [->|Hx'].
        -- left. apply has_true, has_put.
        -- right. exists x'. done.
Qed.

Lemma floorGrid_flat lo hi : flatFloor lo hi (floorGrid lo hi).
Proof.
  intros x y. unfold floorGrid. rewrite floorGrid_lookup. split.
  - intros [[b H]|(x' & Hx' & Heq)]; [now rewrite lookup_empty in H|].
    injection Heq as -> ->. apply Zrange_elem in Hx'. done.
  - intros [-> Hx]. right. exists x. split; [now apply Zrange_elem|done].
Qed.

(** C2, as stated, fails twice.  Stepped with dt = 0.1 over a floor
    from column -1 to column 1, the player would at some step be at
    y = 0.5; it never is: the heights are 5, 4.6, 3.8, 2.6 and from then
    on 0.9, the top face of the floor (0.5) plus half the player's height
    (0.4).  And the vertical velocity at the start, of which the claim
    says nothing, matters: a player that starts at y = 5 falling at 75
    blocks a second is below the floor after the first step (y = -2.9),
    no correction having applied, and never has onGround set. *)
Lemma C2_counterexample :
  (~ exists n, (py (steps 0.1 n (dropped (floorGrid (-1) 1))) == 0.5)%Q) /\
  (forall n,
     onGround (player (steps 0.1 n (plunging (floorGrid (-1) 1)))) = false).
Proof.
  split.
  - intros (n & Hn).
    assert (H4 : landed (-1) 1 (floorGrid (-1) 1)
                   (steps 0.1 4 (dropped (floorGrid (-1) 1)))).
    { unfold landed. repeat split; try (vm_compute; reflexivity).
      exists 0. vm_compute. repeat split; discriminate. }
    destruct (Nat.lt_ge_cases n 4) as [Hlt|Hge].
    + destruct n as [|[|[|[|n]]]]; [| | | |lia]; vm_compute in Hn; discriminate.
    + replace n with ((n - 4) + 4)%nat in Hn by lia.
      rewrite steps_add in Hn.
      pose proof (landed_forever 0.1 (-1) 1 (floorGrid (-1) 1)
                    ltac:(reflexivity) ltac:(discriminate)
                    (floorGrid_flat (-1) 1) _ H4 (n - 4)%nat)
        as (_ & _ & Hy & _).
      rewrite Hy in Hn. discriminate.
  - assert (H1 : fallen (floorGrid (-1) 1)
                   (steps 0.1 1 (plunging (floorGrid (-1) 1)))).
    { unfold fallen. split; [vm_compute; reflexivity|].
      split; [reflexivity|]. split; [vm_compute; reflexivity|].
      split; [vm_compute; discriminate|].
      split; [vm_compute; reflexivity|vm_compute; reflexivity]. }
    intros [|n]; [reflexivity|].
    replace (S n) with (n + 1)%nat by lia. rewrite steps_add.
    assert (Hf : fallen (floorGrid (-1) 1)
                   (steps 0.1 n (steps 0.1 1 (plunging (floorGrid (-1) 1))))).
    { eapply (fallen_forever 0.1 (-1) 1); [..|exact H1];
        first [reflexivity|discriminate|apply floorGrid_flat]. }
    destruct Hf as (_ & _ & _ & _ & _ & Hg). exact Hg.
Qed.

(** C2, amended: over a flat floor of blocks at y = 0 that spans the
    player's horizontal range, a player at height 5 with zero velocity
    and no lateral intent, stepped with any fixed dt in (0, 0.1], reaches
    a fixed point of the step after finitely many steps, at y = 0.9 with
    onGround set.  The fixed point is at the right end of the floor,
    x = hi + 0.85: once landed, the X correction moves the player one
    column to the right with every step, as far as the floor goes. *)
Theorem C2_player_settles_on_floor (dt : Q) (lo hi : Z) (e : Engine) :
  (0 < dt)%Q -> (dt <= 0.1)%Q ->
  flatFloor lo hi (blocks e) ->
  lo <= Qfloor (px e - 0.35) -> Qfloor (px e + 0.35) <= hi ->
  (py e == 5)%Q -> (pvx e == 0)%Q -> (pvy e == 0)%Q -> r (input e) = 0 ->
  exists N,
    updatePhysics dt (steps dt N e) = steps dt N e /\
    (forall n, (N <= n)%nat -> steps dt n e = steps dt N e) /\
    (py (steps dt N e) == 0.9)%Q /\
    onGround (player (steps dt N e)) = true /\
    (pvx (steps dt N e) == 0)%Q /\ (pvy (steps dt N e) == 0)%Q /\
    (px (steps dt N e) == inject_Z hi + 0.5 + 0.35)%Q.
Proof.
  intros Hdt0 Hdt1 Hfloor Hlo Hhi Hy Hvx Hvy Hr.
  destruct (settles_fixed dt lo hi (blocks e) Hdt0 Hdt1 Hfloor (px e)
              (conj Hlo Hhi) e) as (N & e' & _ & HN).
  { unfold airborne. cbv zeta. change (inject_Z (Z.of_nat 0)) with 0%Q.
    repeat split; try done; lra. }
  exists N.
  assert (Hfix : forall n, (N <= n)%nat -> steps dt n e = steps dt N e).
  { intros n Hn. rewrite (HN n Hn). symmetry. apply HN. lia. }
  split.
  - change (updatePhysics dt (steps dt N e)) with (steps dt (S N) e).
    apply Hfix. lia.
  - split; [exact Hfix|]. rewrite (HN N (Nat.le_refl _)).
    change (py (hitY 0 (hitX hi e'))) with (inject_Z 0 + 0.5 + 0.4)%Q.
    change (pvx (hitY 0 (hitX hi e'))) with 0%Q.
    change (pvy (hitY 0 (hitX hi e'))) with 0%Q.
    change (px (hitY 0 (hitX hi e'))) with (inject_Z hi + 0.5 + 0.35)%Q.
    split; [reflexivity|]. split; [reflexivity|]. split; [reflexivity|].
    split; reflexivity.
Qed.

(** C2 on a floor from column -1 to column 1, dt = 0.1: the player comes
    to rest at (1.85, 0.9). *)
Lemma C2_player_settles_on_floor_witness :
  exists N,
    updatePhysics 0.1 (steps 0.1 N (dropped (floorGrid (-1) 1))) =
      steps 0.1 N (dropped (floorGrid (-1) 1)) /\
    (py (steps 0.1 N (dropped (floorGrid (-1) 1))) == 0.9)%Q /\
    onGround (player (steps 0.1 N (dropped (floorGrid (-1) 1)))) = true /\
    (px (steps 0.1 N (dropped (floorGrid (-1) 1))) == 1.85)%Q.
Proof.
  assert (Hdt0 : (0 < 0.1)%Q) by reflexivity.
  assert (Hdt1 : (0.1 <= 0.1)%Q) by discriminate.
  assert (Hlo : -1 <= Qfloor (px (dropped (floorGrid (-1) 1)) - 0.35))
    by (vm_compute; discriminate).
  assert (Hhi : Qfloor (px (dropped (floorGrid (-1) 1)) + 0.35) <= 1)
    by (vm_compute; discriminate).
  assert (Hy : (py (dropped (floorGrid (-1) 1)) == 5)%Q) by reflexivity.
  assert (Hvx : (pvx (dropped (floorGrid (-1) 1)) == 0)%Q) by reflexivity.
  assert (Hvy : (pvy (dropped (floorGrid (-1) 1)) == 0)%Q) by reflexivity.
  assert (Hr : r (input (dropped (floorGrid (-1) 1))) = 0) by reflexivity.
  destruct (C2_player_settles_on_floor 0.1 (-1) 1 (dropped (floorGrid (-1) 1))
              Hdt0 Hdt1 (floorGrid_flat (-1) 1) Hlo Hhi Hy Hvx Hvy Hr)
    as (N & H1 & _ & H2 & H3 & _ & _ & H4).
  exists N. split; [exact H1|]. split; [exact H2|]. split; [exact H3|].
  rewrite H4. reflexivity.
Defined.

(** * Further properties of the engine *)

(** ** The physics step and the rest of the engine *)

Lemma fallDeath_cases e :
  ((vec_y (position (player e)) < -10)%Q /\
   fallDeath e = set_locked false (callback onDeath (set_active false e))) \/
  (~ (vec_y (position (player e)) < -10)%Q /\ fallDeath e = e).
Proof.
  destruct (Qlt_le_dec (vec_y (position (player e))) (-10)) as [H|H].
  - left. split; [exact H|]. now apply fallDeath_dead.
  - right. split; [lra|]. apply fallDeath_alive. lra.
Qed.

(** A physics step changes the player and nothing else of the world: the
    blocks, the chunk ledger, the particles, the statistics, the input,
    the look offset, the camera and the random draws are untouched; the
    session is ended, with one onDeath call, exactly when the player ends
    below y = -10. *)
Theorem updatePhysics_changes_player_only (dt : Q) (e : Engine) :
  let e' := updatePhysics dt e in
  blocks e' = blocks e /\ chunksGenerated e' = chunksGenerated e /\
  particles e' = particles e /\ stats e' = stats e /\
  input e' = input e /\ mouse e' = mouse e /\ camera e' = camera e /\
  randomCalls e' = randomCalls e /\ listeners e' = listeners e /\
  framePending e' = framePending e /\ lastTime e' = lastTime e /\
  (((py e' < -10)%Q /\ active e' = false /\ calls e' = calls e ++ [onDeath] /\
    locked e' = false) \/
   (~ (py e' < -10)%Q /\ active e' = active e /\ calls e' = calls e /\
    locked e' = locked e)).
Proof.
  cbv zeta. unfold updatePhysics, py.
  pose proof (integrate_playerOnly dt e) as Hi. revert Hi.
  generalize (integrate dt e). intros e1 Hi.
  rewrite fallDeath_player.
  destruct (fallDeath_cases e1) as [[Hy ->]|[Hy ->]].
  - rewrite Hi. cbn. repeat split; try reflexivity.
    left. rewrite Hi in Hy. cbn in Hy. done.
  - rewrite Hi. cbn. repeat split; try reflexivity.
    right. rewrite Hi in Hy. cbn in Hy. done.
Qed.

(** ** The speed limit *)

Lemma collideCell_speed axis e cell (s : Q) :
  (0 <= s)%Q -> (- s <= pvx e <= s)%Q ->
  (- s <= pvx (collideCell axis e cell) <= s)%Q.
Proof.
  intros Hs H. unfold collideCell. destruct cell as [x y].
  destruct (has _ _); [|exact H].
  destruct axis; [cbn; lra|].
  destruct (Qgtb _ _); exact H.
Qed.

Lemma checkCollision_speed axis e (s : Q) :
  (0 <= s)%Q -> (- s <= pvx e <= s)%Q ->
  (- s <= pvx (checkCollision axis e) <= s)%Q.
Proof.
  intros Hs. unfold checkCollision.
  apply (fold_left_inv (fun e' => (- s <= pvx e' <= s)%Q)).
  intros a b. now apply collideCell_speed.
Qed.

Lemma speedOf_pos e : (0 < speedOf e)%Q.
Proof. unfold speedOf. now destruct (sprint (input e)). Qed.

Lemma accelerate_speed dt e :
  (- speedOf e <= pvx (accelerate dt e) <= speedOf e)%Q.
Proof.
  pose proof (speedOf_pos e) as Hs. unfold accelerate, pvx. cbv zeta.
  fold (speedOf e). cbn [player set_player velocity set_velocity vec_x set_y set_x].
  split.
  - apply Q.le_max_r.
  - apply Q.max_lub; [apply Q.le_min_r|lra].
Qed.

(** After every physics step velocity.x is within the speed of the
    current input: MOVE_SPEED, or SPRINT_SPEED while sprinting. *)
Theorem updatePhysics_speed_limit (dt : Q) (e : Engine) :
  (- speedOf e <= pvx (updatePhysics dt e) <= speedOf e)%Q.
Proof.
  pose proof (speedOf_pos e) as Hs.
  unfold updatePhysics, pvx. rewrite fallDeath_player. fold (pvx (integrate dt e)).
  unfold integrate.
  apply checkCollision_speed; [lra|].
  change (pvx (advance AxisY dt (checkCollision AxisX (advance AxisX dt (accelerate dt e)))))
    with (pvx (checkCollision AxisX (advance AxisX dt (accelerate dt e)))).
  apply checkCollision_speed; [lra|].
  change (pvx (advance AxisX dt (accelerate dt e))) with (pvx (accelerate dt e)).
  apply accelerate_speed.
Qed.

(** ** Block destruction *)

Section Destroy.

Variable host : Host.

Lemma destroyBlock_aim e :
  destroyBlock host e =
  if negb (active e) then e
  else match aim host e with
       | hit :: _ =>
           if Qltb (distance hit) 20 then destroyed host hit e else e
       | [] => e
       end.
Proof.
  unfold destroyBlock, aim, destroyed. destruct (negb (active e)); [done|].
  cbv zeta. destruct (intersectObjects _ _ _ _) as [|hit rest]; [done|].
  destruct (Qltb _ _); [|done].
  rewrite spawnParticles_eq. now destruct e.
Qed.

Lemma Qltb_lt a b : Qltb a b = true <-> (a < b)%Q.
Proof.
  unfold Qltb. rewrite negb_true_iff. split.
  - intros H. apply Qnot_le_lt. intros Hle. apply Qle_bool_iff in Hle.
    congruence.
  - intros H. destruct (Qle_bool b a) eqn:E; [|done].
    apply Qle_bool_iff in E. lra.
Qed.

(** A click on an active engine whose nearest intersection is closer than
    20 deletes that block's key, adds exactly 10 to the score, appends 8
    particles of the block's colour at the block's position and reports
    the statistics once; a click that meets nothing, or whose nearest
    intersection is at distance 20 or more, or on an inactive engine,
    changes nothing at all. *)
Theorem destroyBlock_hit_or_miss (e : Engine) :
  (forall hit rest,
     active e = true -> aim host e = hit :: rest -> (distance hit < 20)%Q ->
     let e' := destroyBlock host e in
     blocks e' = delete (bKey (object hit)) (blocks e) /\
     stats e' = mkStats (score (stats e) + 10)%Q (time (stats e)) /\
     particles e' =
       particles e ++
       spawned host (blockPosition (object hit))
         (materialColor (bType (object hit))) (randomCalls e) 8 /\
     calls e' = calls e ++ [onStatsUpdate (stats e')] /\
     player e' = player e /\ chunksGenerated e' = chunksGenerated e /\
     active e' = true) /\
  (forall hit rest,
     aim host e = hit :: rest -> (20 <= distance hit)%Q ->
     destroyBlock host e = e) /\
  (aim host e = [] -> destroyBlock host e = e) /\
  (active e = false -> destroyBlock host e = e).
Proof.
  rewrite destroyBlock_aim. split; [|split; [|split]].
  - intros hit rest Ha Haim Hd. cbv zeta. rewrite Ha, Haim. cbn [negb].
    apply Qltb_lt in Hd. rewrite Hd. unfold destroyed. cbn.
    repeat split; try reflexivity. exact Ha.
  - intros hit rest Haim Hd. destruct (negb (active e)); [done|].
    rewrite Haim. destruct (Qltb (distance hit) 20) eqn:E; [|done].
    apply Qltb_lt in E. lra.
  - intros ->. now destruct (negb (active e)).
  - intros ->. reflexivity.
Qed.

End Destroy.

(** With the single block (0, 0, 0) reported at distance 1, a click
    deletes it and scores ten points. *)
Lemma destroyBlock_hit_or_miss_witness :
  active (perched 0) = true /\
  aim flatHost (perched 0) = [mkHit 1 (mkBlock (0, 0, 0) grass (0, 0, 0))] /\
  blocks (destroyBlock flatHost (perched 0)) = delete (0, 0, 0) (blocks (perched 0)) /\
  stats (destroyBlock flatHost (perched 0)) = mkStats (0 + 10)%Q 0.
Proof.
  assert (Ha : active (perched 0) = true) by reflexivity.
  assert (Haim : aim flatHost (perched 0)
                 = [mkHit 1 (mkBlock (0, 0, 0) grass (0, 0, 0))])
    by (vm_compute; reflexivity).
  assert (Hd : Qlt (distance (mkHit 1 (mkBlock (0, 0, 0) grass (0, 0, 0)))) 20)
    by (cbn; lra).
  split; [exact Ha|]. split; [exact Haim|].
  destruct (proj1 (destroyBlock_hit_or_miss flatHost (perched 0))
              _ _ Ha Haim Hd) as (Hb & Hs & _).
  split; [exact Hb|exact Hs].
Defined.

(** ** The frame body, field by field *)

Section FrameFields.

Variable host : Host.

(** The frame body is the statistics update of the chunk update of an
    engine that differs from the start in the player, the particles, the
    camera and, on death, the session. *)
Lemma simulate_shape delta e :
  exists e3,
    simulate host delta e = updateStats delta (updateChunks host e3) /\
    player e3 = player (updatePhysics delta e) /\
    blocks e3 = blocks e /\ chunksGenerated e3 = chunksGenerated e /\
    stats e3 = stats e /\ input e3 = input e /\ mouse e3 = mouse e /\
    listeners e3 = listeners e /\ framePending e3 = framePending e /\
    lastTime e3 = lastTime e /\ randomCalls e3 = randomCalls e.
Proof.
  unfold simulate. cbv zeta.
  pose proof (updatePhysics_changes_player_only delta e) as H.
  cbv zeta in H. revert H. generalize (updatePhysics delta e). intros e1 H.
  destruct H as (H1 & H2 & H3 & H4 & H5 & H6 & H7 & H8 & H9 & H10 & H11 & _).
  eexists. split; [reflexivity|]. cbn.
  repeat split; assumption.
Qed.

Lemma updateChunks_rest e :
  let e' := updateChunks host e in
  player e' = player e /\ stats e' = stats e /\ input e' = input e /\
  mouse e' = mouse e /\ listeners e' = listeners e /\
  framePending e' = framePending e /\ lastTime e' = lastTime e /\
  active e' = active e /\ calls e' = calls e /\ particles e' = particles e /\
  camera e' = camera e /\ locked e' = locked e.
Proof.
  cbv zeta. pose proof (updateChunks_worldOnly host e) as H. revert H.
  generalize (updateChunks host e). intros e' H. rewrite H. now destruct e.
Qed.

Lemma simulate_fields delta e :
  let e' := simulate host delta e in
  input e' = input e /\ mouse e' = mouse e /\ listeners e' = listeners e /\
  framePending e' = framePending e /\ lastTime e' = lastTime e /\
  stats e' = mkStats (score (stats e) + delta * 10)%Q (time (stats e) + delta)%Q.
Proof.
  cbv zeta.
  destruct (simulate_shape delta e)
    as (e3 & -> & _ & _ & _ & S4 & S5 & S6 & S7 & S8 & S9 & _).
  destruct (updateChunks_rest e3) as (_ & U2 & U3 & U4 & U5 & U6 & U7 & _).
  revert U2 U3 U4 U5 U6 U7. generalize (updateChunks host e3). intros e4.
  intros U2 U3 U4 U5 U6 U7. cbn.
  rewrite U2, U3, U4, U5, U6, U7, S4, S5, S6, S7, S8, S9. done.
Qed.

End FrameFields.

(** ** The look offset *)

Section Mouse.

Variable host : Host.

Lemma handleJump_form e :
  exists p ps n,
    handleJump host e = set_particles ps (set_randomCalls n (set_player p e)).
Proof.
  unfold handleJump. destruct (negb (active e)).
  { exists (player e), (particles e), (randomCalls e). now destruct e. }
  destruct (onGround (player e)).
  { exists (set_canDoubleJump true
              (set_onGround false
                 (set_velocity (set_y JUMP_FORCE (velocity (player e)))
                    (player e)))),
      (particles e), (randomCalls e).
    now destruct e. }
  destruct (canDoubleJump (player e)).
  - rewrite spawnParticles_eq.
    exists (set_canDoubleJump false
              (set_velocity (set_y (JUMP_FORCE * 0.8) (velocity (player e)))
                 (player e))),
      (particles e ++
       spawned host (position (player e)) 0xffffff (randomCalls e) 5),
      (3 * 5 + randomCalls e)%nat.
    now destruct e.
  - exists (player e), (particles e), (randomCalls e). now destruct e.
Qed.

Lemma animate_mouse now e : mouse (animate host now e) = mouse e.
Proof.
  destruct (active e) eqn:Ha.
  - rewrite animate_active by exact Ha.
    destruct (simulate_fields host (frameDelta now e)
                (set_lastTime now (set_framePending true e))) as (_ & -> & _).
    reflexivity.
  - now rewrite animate_inactive.
Qed.

Lemma onKey_mouse code v e : mouse (onKey host code v e) = mouse e.
Proof.
  destruct code, v; try reflexivity.
  cbn [onKey]. destruct (handleJump_form e) as (p & ps & n & ->). reflexivity.
Qed.

Lemma destroyBlock_mouse e : mouse (destroyBlock host e) = mouse e.
Proof.
  rewrite destroyBlock_aim. destruct (negb (active e)); [done|].
  destruct (aim host e) as [|hit rest]; [done|]. now destruct (Qltb _ _).
Qed.

Lemma clamp_range (limit v : Q) :
  (0 <= limit)%Q -> (- limit <= Qmax (- limit) (Qmin limit v) <= limit)%Q.
Proof.
  intros H. split; [apply Q.le_max_l|].
  apply Q.max_lub; [lra|apply Q.le_min_l].
Qed.

Lemma onMouseMove_inWindow dx dy e :
  (0 <= innerWidth host)%Q -> (0 <= innerHeight host)%Q ->
  mouseInWindow host e -> mouseInWindow host (onMouseMove host dx dy e).
Proof.
  intros Hw Hh H. unfold onMouseMove. destruct (negb (active e)); [exact H|].
  unfold mouseInWindow. cbn [mouse set_mouse vec2_x vec2_y].
  assert (0 <= innerWidth host / 2)%Q by (apply Qle_shift_div_l; lra).
  assert (0 <= innerHeight host / 2)%Q by (apply Qle_shift_div_l; lra).
  split; now apply clamp_range.
Qed.

Lemma step_inWindow e ev :
  (0 <= innerWidth host)%Q -> (0 <= innerHeight host)%Q ->
  mouseInWindow host e -> mouseInWindow host (step host e ev).
Proof.
  intros Hw Hh H. unfold mouseInWindow in *.
  destruct ev as [now|code|code| |dx dy| | |now| ]; cbn [step].
  - destruct (framePending e); [|exact H]. now rewrite animate_mouse.
  - destruct (registered L_keydown e); [|exact H]. now rewrite onKey_mouse.
  - destruct (registered L_keyup e); [|exact H]. now rewrite onKey_mouse.
  - destruct (registered L_mousedown e); [|exact H].
    now rewrite destroyBlock_mouse.
  - destruct (registered L_mousemove e); [|exact H].
    now apply onMouseMove_inWindow.
  - exact H.
  - destruct (registered L_unlock e); exact H.
  - exact H.
  - exact H.
Qed.

Lemma set_lastTime_mouse t e : mouse (set_lastTime t e) = mouse e.
Proof. reflexivity. Qed.

Lemma init_mouse now : mouse (init host now) = vec2 0 0.
Proof.
  unfold init. cbv zeta. rewrite animate_mouse, set_lastTime_mouse.
  match goal with |- mouse (updateChunks host ?e0) = _ =>
    destruct (updateChunks_rest host e0) as (_ & _ & _ & -> & _) end.
  reflexivity.
Qed.

Lemma onMouseMove_clamps dx dy e :
  (0 <= innerWidth host)%Q -> (0 <= innerHeight host)%Q ->
  active e = true -> mouseInWindow host (onMouseMove host dx dy e).
Proof.
  intros Hw Hh Ha. unfold onMouseMove. rewrite Ha. cbn [negb].
  unfold mouseInWindow. cbn [mouse set_mouse vec2_x vec2_y].
  assert (0 <= innerWidth host / 2)%Q by (apply Qle_shift_div_l; lra).
  assert (0 <= innerHeight host / 2)%Q by (apply Qle_shift_div_l; lra).
  split; now apply clamp_range.
Qed.

Lemma step_mouse e ev : notMove ev -> mouse (step host e ev) = mouse e.
Proof.
  intros Hev.
  destruct ev as [now|code|code| |dx dy| | |now| ]; cbn [step];
    try reflexivity.
  - destruct (framePending e); [|done]. now rewrite animate_mouse.
  - destruct (registered L_keydown e); [|done]. now rewrite onKey_mouse.
  - destruct (registered L_keyup e); [|done]. now rewrite onKey_mouse.
  - destruct (registered L_mousedown e); [|done].
    now rewrite destroyBlock_mouse.
  - cbn in Hev. contradiction.
  - now destruct (registered L_unlock e).
Qed.

(** The look offset is clamped when the mouse moves, to the window as it
    is then: after a mouse move handled by an active engine the offset
    is within half the width and half the height of the window (of
    non-negative size), whatever it was before.  No other event changes
    the offset, a resize included: nothing clamps it again when the
    window shrinks.  An inactive engine ignores mouse moves.  So in a run
    from the construction on in which the window keeps its size, the
    offset is within half the window throughout. *)
Theorem mouse_clamped_at_each_move (e : Engine) (now : Q) (evs : list Event) :
  (0 <= innerWidth host)%Q -> (0 <= innerHeight host)%Q ->
  (forall dx dy, active e = true -> registered L_mousemove e = true ->
     mouseInWindow host (step host e (Mousemove dx dy))) /\
  (forall ev, notMove ev -> mouse (step host e ev) = mouse e) /\
  (forall dx dy, active e = false -> step host e (Mousemove dx dy) = e) /\
  (Forall notResize evs -> mouseInWindow host (run host (init host now) evs)).
Proof.
  intros Hw Hh. split; [|split; [|split]].
  - intros dx dy Ha Hl. cbn [step]. rewrite Hl. now apply onMouseMove_clamps.
  - intros ev Hev. now apply step_mouse.
  - intros dx dy Ha. cbn [step]. unfold onMouseMove. rewrite Ha.
    now destruct (registered L_mousemove e).
  - intros _. unfold run. apply (fold_left_inv (mouseInWindow host)).
    + intros a b. now apply step_inWindow.
    + unfold mouseInWindow. rewrite init_mouse.
      cbn [vec2_x vec2_y].
      assert (0 <= innerWidth host / 2)%Q by (apply Qle_shift_div_l; lra).
      assert (0 <= innerHeight host / 2)%Q by (apply Qle_shift_div_l; lra).
      lra.
Qed.

End Mouse.

(** On an 800 by 600 window a mouse move of (1000, -1000) leaves the
    offset inside half the window, at (400, -300).  When the window then
    shrinks to 400 by 300, the resize leaves the offset where it is,
    outside half the new window. *)
Lemma mouse_clamped_at_each_move_witness :
  (0 <= innerWidth flatHost)%Q /\ (0 <= innerHeight flatHost)%Q /\
  mouseInWindow flatHost (step flatHost (perched 0) (Mousemove 1000 (-1000))) /\
  ~ mouseInWindow narrowHost
      (step narrowHost (step flatHost (perched 0) (Mousemove 1000 (-1000)))
         Resize).
Proof.
  assert (Hw : (0 <= innerWidth flatHost)%Q) by (cbn; lra).
  assert (Hh : (0 <= innerHeight flatHost)%Q) by (cbn; lra).
  destruct (mouse_clamped_at_each_move flatHost (perched 0) 0 [] Hw Hh)
    as (H & _).
  split; [exact Hw|]. split; [exact Hh|]. split.
  - apply H; reflexivity.
  - intros [[_ Hx] _]. vm_compute in Hx. now apply Hx.
Defined.

(** ** The blocks along a run *)

Section Blocks.

Variable host : Host.

Local Arguments put : simpl never.
Local Arguments has : simpl never.

Lemma put_wellKeyed (k : Key) (t : Material) (g : gmap Key BlockMesh) :
  wellKeyed g -> wellKeyed (put k t g).
Proof.
  intros Hg k' b. unfold put. destruct (has k g); [apply Hg|].
  destruct (decide (k = k')) as [->|Hne].
  - rewrite lookup_insert_eq. intros [= <-]. done.
  - rewrite lookup_insert_ne by done. apply Hg.
Qed.

Lemma remove_wellKeyed (k : Key) (g : gmap Key BlockMesh) :
  wellKeyed g -> wellKeyed (remove k g).
Proof.
  intros Hg k' b. unfold remove. intros H.
  apply lookup_delete_Some in H as [_ H]. now apply Hg.
Qed.

Lemma keepsKeys_refl e : keepsKeys e e.
Proof. now intros H. Qed.

Lemma keepsKeys_trans e1 e2 e3 :
  keepsKeys e1 e2 -> keepsKeys e2 e3 -> keepsKeys e1 e3.
Proof. unfold keepsKeys. auto. Qed.

Lemma createBlock_keepsKeys x y z t e : keepsKeys e (createBlock x y z t e).
Proof. intros H. cbn. now apply put_wellKeyed. Qed.

Lemma fillColumn_keepsKeys worldX height e :
  keepsKeys e (fillColumn worldX height e).
Proof.
  unfold fillColumn.
  apply (fold_left_rel keepsKeys);
    eauto using keepsKeys_refl, keepsKeys_trans, createBlock_keepsKeys.
Qed.

Lemma fragileObstacle_keepsKeys x worldX height e :
  keepsKeys e (fragileObstacle host x worldX height e).
Proof.
  unfold fragileObstacle, random. intros H.
  repeat case_match; cbn; repeat apply put_wellKeyed; exact H.
Qed.

Lemma stonePlatform_keepsKeys worldX height e :
  keepsKeys e (stonePlatform host worldX height e).
Proof.
  unfold stonePlatform, random. intros H.
  repeat case_match; cbn; repeat apply put_wellKeyed; exact H.
Qed.

Lemma generateChunk_keepsKeys cx e : keepsKeys e (generateChunk host cx e).
Proof.
  unfold generateChunk. apply (fold_left_rel keepsKeys);
    eauto using keepsKeys_refl, keepsKeys_trans.
  intros a x. unfold generateColumn.
  eapply keepsKeys_trans; [apply fillColumn_keepsKeys|].
  eapply keepsKeys_trans; [apply fragileObstacle_keepsKeys|].
  apply stonePlatform_keepsKeys.
Qed.

Lemma updateChunks_keepsKeys e : keepsKeys e (updateChunks host e).
Proof.
  unfold updateChunks. apply (fold_left_rel keepsKeys);
    eauto using keepsKeys_refl, keepsKeys_trans.
  intros a cx. unfold ensureChunk. case_bool_decide; [apply keepsKeys_refl|].
  cbv zeta. intros Hw. apply (generateChunk_keepsKeys cx a) in Hw. exact Hw.
Qed.

Lemma updateStats_world delta e :
  blocks (updateStats delta e) = blocks e /\
  chunksGenerated (updateStats delta e) = chunksGenerated e.
Proof. split; reflexivity. Qed.

Lemma simulate_blocks delta e :
  exists e3, blocks e3 = blocks e /\ chunksGenerated e3 = chunksGenerated e /\
             player e3 = player (updatePhysics delta e) /\
             blocks (simulate host delta e) = blocks (updateChunks host e3) /\
             chunksGenerated (simulate host delta e) =
               chunksGenerated (updateChunks host e3) /\
             player (simulate host delta e) = player e3.
Proof.
  destruct (simulate_shape host delta e)
    as (e3 & -> & S1 & S2 & S3 & _).
  exists e3. destruct (updateChunks_rest host e3) as (U1 & _).
  destruct (updateStats_world delta (updateChunks host e3)) as [W1 W2].
  split; [exact S2|]. split; [exact S3|]. split; [exact S1|].
  split; [exact W1|]. split; [exact W2|].
  rewrite updateStats_player. exact U1.
Qed.

Lemma animate_keepsKeys now e : keepsKeys e (animate host now e).
Proof.
  destruct (active e) eqn:Ha.
  - rewrite animate_active by exact Ha.
    destruct (simulate_blocks (frameDelta now e)
                (set_lastTime now (set_framePending true e)))
      as (e3 & B1 & _ & _ & B2 & _).
    unfold keepsKeys. rewrite B2. intros H. apply updateChunks_keepsKeys.
    rewrite B1. exact H.
  - rewrite animate_inactive by exact Ha. intros H. exact H.
Qed.

Lemma onKey_blocks code v e : blocks (onKey host code v e) = blocks e.
Proof.
  destruct code, v; try reflexivity.
  cbn [onKey]. destruct (handleJump_form host e) as (p & ps & n & ->).
  reflexivity.
Qed.

Lemma onMouseMove_blocks dx dy e : blocks (onMouseMove host dx dy e) = blocks e.
Proof. unfold onMouseMove. now destruct (negb (active e)). Qed.

Lemma destroyBlock_blocks e :
  blocks (destroyBlock host e) = blocks e \/
  exists hit, blocks (destroyBlock host e) = remove (bKey (object hit)) (blocks e).
Proof.
  rewrite destroyBlock_aim. destruct (negb (active e)); [now left|].
  destruct (aim host e) as [|hit rest]; [now left|].
  destruct (Qltb _ _); [|now left]. right. now exists hit.
Qed.

Lemma step_keepsKeys e ev : keepsKeys e (step host e ev).
Proof.
  destruct ev as [now|code|code| |dx dy| | |now| ]; cbn [step].
  - destruct (framePending e); [apply animate_keepsKeys|apply keepsKeys_refl].
  - destruct (registered L_keydown e); [|apply keepsKeys_refl].
    unfold keepsKeys. now rewrite onKey_blocks.
  - destruct (registered L_keyup e); [|apply keepsKeys_refl].
    unfold keepsKeys. now rewrite onKey_blocks.
  - destruct (registered L_mousedown e); [|apply keepsKeys_refl].
    unfold keepsKeys. destruct (destroyBlock_blocks e) as [->|[hit ->]];
      [done|]. apply remove_wellKeyed.
  - destruct (registered L_mousemove e); [|apply keepsKeys_refl].
    unfold keepsKeys. now rewrite onMouseMove_blocks.
  - apply keepsKeys_refl.
  - destruct (registered L_unlock e); intros Hk; exact Hk.
  - intros Hk. exact Hk.
  - intros Hk. exact Hk.
Qed.

Lemma init_wellKeyed now : wellKeyed (blocks (init host now)).
Proof.
  unfold init. cbv zeta.
  match goal with |- wellKeyed (blocks (animate host now (set_lastTime now ?u))) =>
    generalize (updateChunks_keepsKeys
                  (mkEngine false 0 ∅ ∅ [] (mkStats 0 0)
                     (mkPlayer (vec3 0 5 0) (vec3 0 0 0) false false)
                     (mkInput 0 0 false) (vec2 0 0) (vec3 0 5 15) 0 []
                     [L_unlock; L_keydown; L_keyup; L_mousedown; L_mousemove;
                      L_resize] false false));
    generalize u
  end.
  intros u Hu. apply animate_keepsKeys.
  change (blocks (set_lastTime now u)) with (blocks u). apply Hu.
  intros k b H. cbn in H. now rewrite lookup_empty in H.
Qed.

(** From the construction of the engine on and whatever events arrive,
    every block of the map is stored under the key of its own position
    and carries that key in its userData; so a click whose hit object is
    one of the meshes handed to the ray caster deletes exactly that
    block. *)
Theorem blocks_stay_well_keyed (now : Q) (evs : list Event) :
  let e := run host (init host now) evs in
  wellKeyed (blocks e) /\
  forall b, b ∈ map snd (map_to_list (blocks e)) ->
            blocks e !! bKey b = Some b /\
            remove (bKey b) (blocks e) !! bKey b = None /\
            size (remove (bKey b) (blocks e)) = pred (size (blocks e)).
Proof.
  cbv zeta.
  assert (H : wellKeyed (blocks (run host (init host now) evs))).
  { unfold run. apply (fold_left_inv (fun e => wellKeyed (blocks e))).
    - intros a ev. apply step_keepsKeys.
    - apply init_wellKeyed. }
  split; [exact H|]. revert H.
  generalize (blocks (run host (init host now) evs)). intros g H b Hb.
  apply list_elem_of_In, in_map_iff in Hb as ([k b'] & Heq & Hin).
  cbn in Heq. subst b'.
  apply list_elem_of_In, elem_of_map_to_list in Hin.
  destruct (H k b Hin) as [Hk _]. rewrite Hk.
  split; [exact Hin|]. unfold remove.
  split; [apply lookup_delete_eq|]. now apply map_size_delete_Some.
Qed.

End Blocks.

(** ** The chunk ledger along a run *)

Section Ledger.

Variable host : Host.

Lemma updateChunks_ledger e :
  chunksGenerated (updateChunks host e) =
  chunksGenerated e ∪ list_to_set (chunkWindow (playerChunkX e)).
Proof. unfold updateChunks. apply ensureAll_chunksGenerated. Qed.

Lemma animate_ledger now e :
  chunksGenerated e ⊆ chunksGenerated (animate host now e).
Proof.
  destruct (active e) eqn:Ha.
  - rewrite animate_active by exact Ha.
    destruct (simulate_blocks host (frameDelta now e)
                (set_lastTime now (set_framePending true e)))
      as (e3 & _ & B1 & _ & _ & -> & _).
    rewrite updateChunks_ledger, B1. apply union_subseteq_l.
  - now rewrite animate_inactive.
Qed.

Lemma onKey_ledger code v e :
  chunksGenerated (onKey host code v e) = chunksGenerated e.
Proof.
  destruct code, v; try reflexivity.
  cbn [onKey]. destruct (handleJump_form host e) as (p & ps & n & ->).
  reflexivity.
Qed.

Lemma destroyBlock_ledger e :
  chunksGenerated (destroyBlock host e) = chunksGenerated e.
Proof.
  rewrite destroyBlock_aim. destruct (negb (active e)); [done|].
  destruct (aim host e) as [|hit rest]; [done|]. now destruct (Qltb _ _).
Qed.

Lemma onMouseMove_ledger dx dy e :
  chunksGenerated (onMouseMove host dx dy e) = chunksGenerated e.
Proof. unfold onMouseMove. now destruct (negb (active e)). Qed.

Lemma step_ledger e ev : chunksGenerated e ⊆ chunksGenerated (step host e ev).
Proof.
  destruct ev as [now|code|code| |dx dy| | |now| ]; cbn [step].
  - destruct (framePending e); [apply animate_ledger|done].
  - destruct (registered L_keydown e); [|done]. now rewrite onKey_ledger.
  - destruct (registered L_keyup e); [|done]. now rewrite onKey_ledger.
  - destruct (registered L_mousedown e); [|done].
    now rewrite destroyBlock_ledger.
  - destruct (registered L_mousemove e); [|done].
    now rewrite onMouseMove_ledger.
  - done.
  - destruct (registered L_unlock e); done.
  - done.
  - done.
Qed.

(** The chunk ledger only grows: no event removes an index from it
    (chunks are never unloaded); and at the end of every frame of an
    active engine the chunks from one behind the player's chunk to
    VIEW_DISTANCE ahead of it are all in the ledger. *)
Theorem chunk_ledger_grows_and_covers_window (e : Engine) :
  (forall evs, chunksGenerated e ⊆ chunksGenerated (run host e evs)) /\
  (forall now cx,
     active e = true ->
     let e' := animate host now e in
     playerChunkX e' - 1 <= cx <= playerChunkX e' + VIEW_DISTANCE ->
     cx ∈ chunksGenerated e').
Proof.
  split.
  - intros evs. unfold run.
    apply (fold_left_rel (fun a b => chunksGenerated a ⊆ chunksGenerated b)).
    + done.
    + intros a b c Hab Hbc. now transitivity (chunksGenerated b).
    + apply step_ledger.
  - intros now cx Ha. cbv zeta. rewrite animate_active by exact Ha.
    destruct (simulate_blocks host (frameDelta now e)
                (set_lastTime now (set_framePending true e)))
      as (e3 & _ & _ & _ & _ & -> & Hp).
    unfold playerChunkX at 1 2. rewrite Hp. fold (playerChunkX e3).
    intros Hcx. rewrite updateChunks_ledger.
    apply elem_of_union. right. apply elem_of_list_to_set.
    now apply chunkWindow_range.
Qed.

End Ledger.

(** ** Who adds blocks and who removes them *)

Section AddRemove.

Variable host : Host.

Lemma generateChunk_keeps cx e : keeps e (generateChunk host cx e).
Proof. unfold generateChunk. apply generateColumns_keeps. Qed.

Lemma updateChunks_keeps e : keeps e (updateChunks host e).
Proof.
  unfold updateChunks. apply (fold_left_rel keeps);
    eauto using keeps_refl, keeps_trans.
  intros a cx. unfold ensureChunk. case_bool_decide; [apply keeps_refl|].
  cbv zeta. intros k b Hk. apply (generateChunk_keeps cx a) in Hk. exact Hk.
Qed.

Lemma animate_keeps now e : keeps e (animate host now e).
Proof.
  destruct (active e) eqn:Ha.
  - rewrite animate_active by exact Ha.
    destruct (simulate_blocks host (frameDelta now e)
                (set_lastTime now (set_framePending true e)))
      as (e3 & B1 & _ & _ & B2 & _).
    intros k b Hk. rewrite B2. apply updateChunks_keeps. rewrite B1. exact Hk.
  - rewrite animate_inactive by exact Ha. intros k b Hk. exact Hk.
Qed.

(** Blocks are added by frames only, and removed by clicks only: a frame
    (and every event but a click) leaves each block of the map in place,
    unchanged; a click (and every event but a frame) leaves in the map
    only blocks that were there. *)
Theorem blocks_added_by_frames_removed_by_clicks (e : Engine) (ev : Event) :
  (ev <> Mousedown -> keeps e (step host e ev)) /\
  ((forall now, ev <> AnimationFrame now) -> addsNothing e (step host e ev)).
Proof.
  split.
  - intros Hev.
    destruct ev as [now|code|code| |dx dy| | |now| ]; cbn [step];
      try (intros k b Hk; exact Hk).
    + destruct (framePending e); [apply animate_keeps|apply keeps_refl].
    + destruct (registered L_keydown e); [|apply keeps_refl].
      intros k b Hk. now rewrite onKey_blocks.
    + destruct (registered L_keyup e); [|apply keeps_refl].
      intros k b Hk. now rewrite onKey_blocks.
    + congruence.
    + destruct (registered L_mousemove e); [|apply keeps_refl].
      intros k b Hk. now rewrite onMouseMove_blocks.
    + destruct (registered L_unlock e); intros k b Hk; exact Hk.
  - intros Hev. unfold addsNothing.
    destruct ev as [now|code|code| |dx dy| | |now| ]; cbn [step];
      try (intros k b Hk; exact Hk).
    + now destruct (Hev now).
    + destruct (registered L_keydown e); [|done].
      intros k b. now rewrite onKey_blocks.
    + destruct (registered L_keyup e); [|done].
      intros k b. now rewrite onKey_blocks.
    + destruct (registered L_mousedown e); [|done].
      destruct (destroyBlock_blocks host e) as [->|[hit ->]]; [done|].
      intros k b Hk. unfold remove in Hk.
      now apply lookup_delete_Some in Hk as [_ Hk].
    + destruct (registered L_mousemove e); [|done].
      intros k b. now rewrite onMouseMove_blocks.
    + destruct (registered L_unlock e); intros k b Hk; exact Hk.
Qed.

End AddRemove.

(** ** Statistics *)

Section Stats.

Variable host : Host.

Lemma frameDelta_range now e :
  (lastTime e <= now)%Q -> (0 <= frameDelta now e <= 0.1)%Q.
Proof.
  intros H. unfold frameDelta. split.
  - apply Q.min_glb; [|discriminate].
    apply Qle_shift_div_l; [reflexivity|]. lra.
  - apply Q.le_min_r.
Qed.

Lemma animate_stats now e :
  stats (animate host now e) =
  if active e
  then mkStats (score (stats e) + frameDelta now e * 10)%Q
               (time (stats e) + frameDelta now e)%Q
  else stats e.
Proof.
  destruct (active e) eqn:Ha.
  - rewrite animate_active by exact Ha.
    destruct (simulate_fields host (frameDelta now e)
                (set_lastTime now (set_framePending true e)))
      as (_ & _ & _ & _ & _ & ->).
    reflexivity.
  - now rewrite animate_inactive.
Qed.

Lemma onKey_stats code v e : stats (onKey host code v e) = stats e.
Proof.
  destruct code, v; try reflexivity.
  cbn [onKey]. destruct (handleJump_form host e) as (p & ps & n & ->).
  reflexivity.
Qed.

Lemma destroyBlock_stats e :
  stats (destroyBlock host e) = stats e \/
  stats (destroyBlock host e) =
    mkStats (score (stats e) + 10)%Q (time (stats e)).
Proof.
  rewrite destroyBlock_aim. destruct (negb (active e)); [now left|].
  destruct (aim host e) as [|hit rest]; [now left|].
  destruct (Qltb _ _); [now right|now left].
Qed.

(** Score and elapsed time never decrease: whatever event arrives (a
    frame not being dated before the previous one), the score grows by at
    most 10 and the time by at most 0.1 s; an active frame adds its delta
    to the time and ten times its delta to the score. *)
Theorem stats_never_decrease (e : Engine) (ev : Event) :
  notBefore e ev ->
  let e' := step host e ev in
  (score (stats e) <= score (stats e') <= score (stats e) + 10)%Q /\
  (time (stats e) <= time (stats e') <= time (stats e) + 0.1)%Q /\
  (forall now, ev = AnimationFrame now -> framePending e = true ->
     active e = true ->
     stats e' = mkStats (score (stats e) + frameDelta now e * 10)%Q
                        (time (stats e) + frameDelta now e)%Q).
Proof.
  intros Hev. cbv zeta.
  assert (Hsame : forall e', stats e' = stats e ->
            (score (stats e) <= score (stats e') <= score (stats e) + 10)%Q /\
            (time (stats e) <= time (stats e') <= time (stats e) + 0.1)%Q).
  { intros e' ->. split; lra. }
  destruct ev as [now|code|code| |dx dy| | |now| ]; cbn [step];
    try (split; [|split]; [apply Hsame; reflexivity ..| discriminate]).
  - cbn in Hev. pose proof (frameDelta_range now e Hev) as Hd.
    destruct (framePending e).
    + rewrite animate_stats. destruct (active e).
      * cbn [score time]. split; [lra|]. split; [lra|].
        intros now' [= <-] _ _. reflexivity.
      * split; [lra|]. split; [lra|]. discriminate.
    + split; [lra|]. split; [lra|]. discriminate.
  - destruct (registered L_keydown e);
      (split; [|split]; [| |discriminate]); apply Hsame;
      rewrite ?onKey_stats; reflexivity.
  - destruct (registered L_keyup e);
      (split; [|split]; [| |discriminate]); apply Hsame;
      rewrite ?onKey_stats; reflexivity.
  - destruct (registered L_mousedown e).
    + destruct (destroyBlock_stats e) as [->| ->]; cbn [score time].
      * split; [lra|]. split; [lra|]. discriminate.
      * split; [lra|]. split; [lra|]. discriminate.
    + split; [lra|]. split; [lra|]. discriminate.
  - destruct (registered L_mousemove e).
    + unfold onMouseMove. destruct (negb (active e));
        (split; [|split]; [| |discriminate]); apply Hsame; reflexivity.
    + split; [|split]; [| |discriminate]; apply Hsame; reflexivity.
  - destruct (registered L_unlock e);
      (split; [|split]; [| |discriminate]); apply Hsame; reflexivity.
Qed.

End Stats.

(** A frame 50 ms after the last one raises the score by at most ten and
    the time by at most a tenth of a second. *)
Lemma stats_never_decrease_witness :
  notBefore (perched 0) (AnimationFrame 50) /\
  (score (stats (perched 0))
   <= score (stats (step flatHost (perched 0) (AnimationFrame 50)))
   <= score (stats (perched 0)) + 10)%Q.
Proof.
  assert (Hn : notBefore (perched 0) (AnimationFrame 50)) by (cbn; lra).
  split; [exact Hn|].
  exact (proj1 (stats_never_decrease flatHost (perched 0)
                  (AnimationFrame 50) Hn)).
Defined.

(** ** The life of a particle *)

Lemma updateParticles_cons delta p ps :
  updateParticles delta (p :: ps) =
  if Qle_bool (pLife p - delta * 2) 0 then updateParticles delta ps
  else ageParticle delta p :: updateParticles delta ps.
Proof. reflexivity. Qed.

Lemma updateParticles_live delta ps :
  Forall (fun p => (0 < pLife p)%Q) (updateParticles delta ps) /\
  (length (updateParticles delta ps) <= length ps)%nat.
Proof.
  induction ps as [|p ps [IH1 IH2]]; [split; [constructor|done]|].
  rewrite updateParticles_cons.
  destruct (Qle_bool (pLife p - delta * 2) 0) eqn:E.
  - split; [exact IH1|cbn; lia].
  - split; [|cbn; lia]. constructor; [|exact IH1].
    cbn. apply Qnot_le_lt. intros H. apply Qle_bool_iff in H. congruence.
Qed.

Lemma ageParticle_iter_life delta n p :
  (pLife (Nat.iter n (ageParticle delta) p) ==
   pLife p - inject_Z (Z.of_nat n) * (delta * 2))%Q.
Proof.
  induction n as [|n IH].
  - cbn. ring.
  - change (Nat.iter (S n) (ageParticle delta) p)
      with (ageParticle delta (Nat.iter n (ageParticle delta) p)).
    change (pLife (ageParticle delta (Nat.iter n (ageParticle delta) p)))
      with (pLife (Nat.iter n (ageParticle delta) p) - delta * 2)%Q.
    rewrite IH, Nat2Z.inj_succ. unfold Z.succ. rewrite inject_Z_plus.
    change (inject_Z 1) with 1%Q. ring.
Qed.

Lemma updateParticles_iter_single delta n p :
  (0 <= delta)%Q ->
  Nat.iter n (updateParticles delta) [p] =
  if Qle_bool (pLife p - inject_Z (Z.of_nat n) * (delta * 2)) 0 && (0 <? n)%nat
  then [] else [Nat.iter n (ageParticle delta) p].
Proof.
  intros Hd. induction n as [|n IH].
  - cbn. now rewrite andb_false_r.
  - change (Nat.iter (S n) (updateParticles delta) [p])
      with (updateParticles delta (Nat.iter n (updateParticles delta) [p])).
    rewrite IH. clear IH.
    assert (Hm : (inject_Z (Z.of_nat (S n)) == inject_Z (Z.of_nat n) + 1)%Q).
    { rewrite Nat2Z.inj_succ. unfold Z.succ. now rewrite inject_Z_plus. }
    assert (Hn0 : (0 <= inject_Z (Z.of_nat n))%Q).
    { change 0%Q with (inject_Z 0). rewrite <- Zle_Qle. lia. }
    change (0 <? S n)%nat with true. rewrite andb_true_r.
    destruct (Qle_bool (pLife p - inject_Z (Z.of_nat (S n)) * (delta * 2)) 0)
      eqn:E1.
    + apply Qle_bool_iff in E1.
      destruct (Qle_bool (pLife p - inject_Z (Z.of_nat n) * (delta * 2)) 0
                && (0 <? n)%nat); [reflexivity|].
      rewrite updateParticles_cons.
      assert (E2 : Qle_bool
                (pLife (Nat.iter n (ageParticle delta) p) - delta * 2) 0 = true).
      { apply Qle_bool_iff. rewrite ageParticle_iter_life. rewrite Hm in E1.
        lra. }
      now rewrite E2.
    + assert (H1 : ~ (pLife p - inject_Z (Z.of_nat (S n)) * (delta * 2) <= 0)%Q).
      { intros H. apply Qle_bool_iff in H. congruence. }
      assert (E0 : Qle_bool (pLife p - inject_Z (Z.of_nat n) * (delta * 2)) 0
                   = false).
      { destruct (Qle_bool (pLife p - inject_Z (Z.of_nat n) * (delta * 2)) 0)
          eqn:E; [|reflexivity].
        apply Qle_bool_iff in E. exfalso. apply H1. rewrite Hm. nra. }
      rewrite E0. cbn [andb]. rewrite updateParticles_cons.
      assert (E2 : Qle_bool
                (pLife (Nat.iter n (ageParticle delta) p) - delta * 2) 0 = false).
      { destruct (Qle_bool
                    (pLife (Nat.iter n (ageParticle delta) p) - delta * 2) 0)
          eqn:E; [|reflexivity].
        apply Qle_bool_iff in E. exfalso. apply H1.
        rewrite ageParticle_iter_life in E. rewrite Hm. lra. }
      now rewrite E2.
Qed.

Lemma inject_S (n : nat) :
  (inject_Z (Z.of_nat (S n)) == inject_Z (Z.of_nat n) + 1)%Q.
Proof. rewrite Nat2Z.inj_succ. unfold Z.succ. now rewrite inject_Z_plus. Qed.

Lemma inject_nat_nonneg (n : nat) : (0 <= inject_Z (Z.of_nat n))%Q.
Proof. change 0%Q with (inject_Z 0). rewrite <- Zle_Qle. lia. Qed.


(** While the deltas stay at or below 0.1, each tick takes at most 0.2
    from the life. *)
Lemma ticked_single deltas : forall p,
  Forall (fun d => (d <= 0.1)%Q) deltas ->
  (inject_Z (Z.of_nat (length deltas)) * 0.2 < pLife p)%Q ->
  exists p', ticked deltas [p] = [p'] /\
             (pLife p - inject_Z (Z.of_nat (length deltas)) * 0.2
              <= pLife p')%Q.
Proof.
  induction deltas as [|d ds IH]; intros p Hd Hl.
  - exists p. split; [reflexivity|]. cbn [length].
    change (inject_Z (Z.of_nat 0)) with 0%Q. lra.
  - apply Forall_cons in Hd as [Hd Hds].
    cbn [length] in *. rewrite inject_S in Hl.
    pose proof (inject_nat_nonneg (length ds)) as Hn.
    change (ticked (d :: ds) [p]) with (ticked ds (updateParticles d [p])).
    rewrite updateParticles_cons.
    destruct (Qle_bool (pLife p - d * 2) 0) eqn:E.
    { apply Qle_bool_iff in E. lra. }
    change (updateParticles d []) with (@nil Particle).
    destruct (IH (ageParticle d p) Hds) as (p' & Hp' & Hlife).
    + change (pLife (ageParticle d p)) with (pLife p - d * 2)%Q. lra.
    + exists p'. split; [exact Hp'|]. rewrite inject_S.
      change (pLife (ageParticle d p)) with (pLife p - d * 2)%Q in Hlife.
      lra.
Qed.

(** Every particle left after a tick has a positive life, and a tick
    never adds a particle.  A particle spawned with life 1.0 outlives its
    first four ticks whatever the deltas of the frames, which [animate]
    keeps at or below 0.1: each tick takes at most 0.2, so the life is at
    least 0.2 after the fourth.  Ticked at 0.1 every time, it is gone
    from the sixth tick on. *)
Theorem particle_lifetime (deltas : list Q) (p : Particle) :
  Forall (fun d => (d <= 0.1)%Q) deltas -> (pLife p == 1.0)%Q ->
  (forall delta ps,
     Forall (fun q => (0 < pLife q)%Q) (updateParticles delta ps) /\
     (length (updateParticles delta ps) <= length ps)%nat) /\
  ((length deltas <= 4)%nat ->
   exists p', ticked deltas [p] = [p'] /\ (0.2 <= pLife p')%Q) /\
  (forall n, (6 <= n)%nat -> Nat.iter n (updateParticles 0.1) [p] = []).
Proof.
  intros Hd Hp. split; [intros delta ps; apply updateParticles_live|]. split.
  - intros Hlen.
    assert (Hn : (inject_Z (Z.of_nat (length deltas)) <= 4)%Q).
    { change 4%Q with (inject_Z 4). rewrite <- Zle_Qle. lia. }
    destruct (ticked_single deltas p Hd) as (p' & Hp' & Hlife); [lra|].
    exists p'. split; [exact Hp'|]. lra.
  - intros n Hn. rewrite updateParticles_iter_single by discriminate.
    assert (Hpos : (0 <? n)%nat = true) by (apply Nat.ltb_lt; lia).
    rewrite Hpos, andb_true_r.
    assert (H6 : (6 <= inject_Z (Z.of_nat n))%Q).
    { change 6%Q with (inject_Z 6). rewrite <- Zle_Qle. lia. }
    assert (E : Qle_bool (pLife p - inject_Z (Z.of_nat n) * (0.1 * 2)) 0
                = true) by (apply Qle_bool_iff; lra).
    now rewrite E.
Qed.

(** A fresh particle after frames of 0.1, 0.05, 0.1 and 0.016 seconds is
    still live; after six frames of 0.1 seconds it is gone. *)
Lemma particle_lifetime_witness :
  (exists p', ticked [0.1; 0.05; 0.1; 0.016]%Q [freshParticle] = [p'] /\
              (0.2 <= pLife p')%Q) /\
  Nat.iter 6 (updateParticles 0.1) [freshParticle] = [].
Proof.
  assert (Hd : Forall (fun d => (d <= 0.1)%Q) [0.1; 0.05; 0.1; 0.016]%Q).
  { repeat constructor; discriminate. }
  assert (Hp : (pLife freshParticle == 1.0)%Q) by reflexivity.
  destruct (particle_lifetime [0.1; 0.05; 0.1; 0.016]%Q freshParticle Hd Hp)
    as (_ & H4 & H6).
  split; [apply H4; cbn; lia|apply H6; lia].
Defined.

(** ** A fresh particle and the first two frames *)

Section TwoFrames.

Variable host : Host.








End TwoFrames.



(** ** Spawned particles *)

Lemma spawned_velocity host pos c start n :
  unitRandom host ->
  Forall (fun p =>
            (-2.5 <= vec_x (pVel p) <= 2.5)%Q /\
            (-0.5 <= vec_y (pVel p) <= 4.5)%Q /\
            (-2.5 <= vec_z (pVel p) <= 2.5)%Q)
    (spawned host pos c start n).
Proof.
  intros Hr. unfold spawned. apply Forall_map, Forall_forall. intros i _.
  unfold spawnVelocity. cbn [pVel vec_x vec_y vec_z].
  pose proof (Hr (start + 3 * i)%nat). pose proof (Hr (S (start + 3 * i))).
  pose proof (Hr (S (S (start + 3 * i)))).
  repeat split; lra.
Qed.

(** [spawnParticles(pos, count, colour)] appends exactly [count]
    particles and keeps the others, each new one at [pos] with life 1.0
    and the colour given; it makes three random draws per particle and
    changes nothing else; and with draws in [0, 1) each velocity lies
    within [-2.5, 2.5] on x and z and within [-0.5, 4.5] on y. *)
Theorem spawnParticles_appends (host : Host) (pos : Vector3) (count : nat)
  (colorHex : Z) (e : Engine) :
  unitRandom host ->
  exists ps,
    spawnParticles host pos count colorHex e =
      set_particles (particles e ++ ps)
        (set_randomCalls (3 * count + randomCalls e) e) /\
    length ps = count /\
    Forall (fun p =>
              pPosition p = pos /\ pColor p = colorHex /\ pLife p = 1.0%Q /\
              (-2.5 <= vec_x (pVel p) <= 2.5)%Q /\
              (-0.5 <= vec_y (pVel p) <= 4.5)%Q /\
              (-2.5 <= vec_z (pVel p) <= 2.5)%Q) ps.
Proof.
  intros Hr. exists (spawned host pos colorHex (randomCalls e) count).
  split; [apply spawnParticles_eq|]. split; [apply spawned_length|].
  pose proof (spawned_Forall host pos colorHex (randomCalls e) count) as H1.
  pose proof (spawned_velocity host pos colorHex (randomCalls e) count Hr)
    as H2.
  rewrite Forall_forall in *. intros p Hp.
  destruct (H1 p Hp) as (? & ? & ?). destruct (H2 p Hp) as (? & ? & ?).
  repeat split; tauto.
Qed.

Lemma hillHost_unitRandom : unitRandom hillHost.
Proof.
  intros n. cbn. destruct (Nat.even n); split; (discriminate || reflexivity).
Qed.

(** Five white particles at (0, 5, 0), on a host whose draws alternate
    between 0.9 and 0.2. *)
Lemma spawnParticles_appends_witness :
  exists ps,
    spawnParticles hillHost (vec3 0 5 0) 5 0xffffff (fixture true false true) =
      set_particles (particles (fixture true false true) ++ ps)
        (set_randomCalls (3 * 5 + randomCalls (fixture true false true))
           (fixture true false true)) /\
    length ps = 5%nat /\
    Forall (fun p =>
              pPosition p = vec3 0 5 0 /\ pColor p = 0xffffff /\
              pLife p = 1.0%Q /\
              (-2.5 <= vec_x (pVel p) <= 2.5)%Q /\
              (-0.5 <= vec_y (pVel p) <= 4.5)%Q /\
              (-2.5 <= vec_z (pVel p) <= 2.5)%Q) ps.
Proof.
  apply (spawnParticles_appends hillHost (vec3 0 5 0) 5 0xffffff
           (fixture true false true) hillHost_unitRandom).
Defined.

(** ** Where a chunk writes *)

Section Region.

Variable host : Host.
Variable cx : Z.

Local Arguments put : simpl never.
Local Arguments has : simpl never.

Lemma writesWithin_refl e : writesWithin cx e e.
Proof. intros k b H. now left. Qed.

Lemma writesWithin_trans e1 e2 e3 :
  writesWithin cx e1 e2 -> writesWithin cx e2 e3 -> writesWithin cx e1 e3.
Proof.
  intros H12 H23 k b H. destruct (H23 k b H) as [H2|H2]; [|now right].
  now apply H12.
Qed.

Lemma createBlock_within x y z t e :
  chunkRegion cx (x, y, z) -> writesWithin cx e (createBlock x y z t e).
Proof.
  intros Hreg k b H. cbn in H.
  destruct (decide (k = (x, y, z))) as [->|Hne]; [now right|].
  left. now rewrite put_other in H.
Qed.

Lemma columnHeight_min worldX : -2 <= columnHeight host worldX.
Proof. unfold columnHeight. cbv zeta. case_match; lia. Qed.

Lemma fillColumn_within x e :
  0 <= x < CHUNK_SIZE ->
  writesWithin cx e
    (fillColumn (cx * CHUNK_SIZE + x)
       (columnHeight host (cx * CHUNK_SIZE + x)) e).
Proof.
  intros Hx. unfold fillColumn.
  assert (Hl : Forall (fun y => -4 <= y)
                 (Zrange (-4) (columnHeight host (cx * CHUNK_SIZE + x)))).
  { apply Forall_forall. intros y Hy. apply Zrange_elem in Hy. lia. }
  revert e Hl. generalize (Zrange (-4) (columnHeight host (cx * CHUNK_SIZE + x))).
  intros l. induction l as [|y l IH]; intros e Hl; [apply writesWithin_refl|].
  cbn [fold_left]. apply Forall_cons in Hl as [Hy Hl].
  eapply writesWithin_trans; [|apply IH, Hl].
  apply createBlock_within. cbn. unfold CHUNK_SIZE in *. lia.
Qed.

Lemma put_origin (k k' : Key) (t : Material) (g : gmap Key BlockMesh) b :
  put k' t g !! k = Some b -> g !! k = Some b \/ k = k'.
Proof.
  intros H. destruct (decide (k = k')) as [->|Hne]; [now right|].
  left. now rewrite put_other in H.
Qed.

Lemma fragileObstacle_within x e :
  unitRandom host -> 0 <= x < CHUNK_SIZE ->
  writesWithin cx e
    (fragileObstacle host x (cx * CHUNK_SIZE + x)
       (columnHeight host (cx * CHUNK_SIZE + x)) e).
Proof.
  intros Hr Hx.
  pose proof (columnHeight_min (cx * CHUNK_SIZE + x)) as Hh.
  assert (H0 : forall n, 0 <= Qfloor (Math_random host n * 3)).
  { intros n. apply Qfloor_ge. change (inject_Z 0) with 0%Q.
    pose proof (Hr n). lra. }
  unfold fragileObstacle, random, writesWithin, chunkRegion.
  destruct e as [? ? ? ? ? ? ? ? ? ? rc ? ? ? ?].
  cbn -[Qfloor Qmult]. unfold CHUNK_SIZE in *.
  repeat case_match; intros k b Hkb; try (now left).
  - apply put_origin in Hkb as [Hkb| ->]; [|right].
    + apply put_origin in Hkb as [Hkb| ->]; [now left|right].
      pose proof (H0 (S rc)). lia.
    + pose proof (H0 (S rc)). lia.
  - apply put_origin in Hkb as [Hkb| ->]; [now left|right].
    pose proof (H0 (S rc)). lia.
Qed.

Lemma stonePlatform_within x e :
  0 <= x < CHUNK_SIZE ->
  writesWithin cx e
    (stonePlatform host (cx * CHUNK_SIZE + x)
       (columnHeight host (cx * CHUNK_SIZE + x)) e).
Proof.
  intros Hx.
  pose proof (columnHeight_min (cx * CHUNK_SIZE + x)) as Hh.
  unfold stonePlatform, random, writesWithin, chunkRegion.
  destruct e. cbn. unfold CHUNK_SIZE in *.
  repeat case_match; intros k b Hkb; try (now left).
  apply put_origin in Hkb as [Hkb| ->]; [|right; lia].
  apply put_origin in Hkb as [Hkb| ->]; [now left|right; lia].
Qed.

Lemma generateColumns_within l : forall e,
  unitRandom host -> Forall (fun x => 0 <= x < CHUNK_SIZE) l ->
  writesWithin cx e (fold_left (generateColumn host (cx * CHUNK_SIZE)) l e).
Proof.
  induction l as [|x l IH]; intros e Hr Hl; [apply writesWithin_refl|].
  apply Forall_cons in Hl as [Hx Hl]. cbn [fold_left].
  eapply writesWithin_trans; [|now apply IH].
  unfold generateColumn.
  eapply writesWithin_trans; [now apply fillColumn_within|].
  eapply writesWithin_trans; [now apply fragileObstacle_within|].
  now apply stonePlatform_within.
Qed.

End Region.

(** With draws in [0, 1), [generateChunk cx] keeps every block there is
    and adds blocks only in layer z = 0, from y = -4 upwards, in the
    sixteen columns of its chunk and, for a stone platform on its last
    column, in the first column of the next chunk. *)
Theorem generateChunk_writes_within (host : Host) (cx : Z) (e : Engine) :
  unitRandom host ->
  keeps e (generateChunk host cx e) /\
  forall x y z b,
    blocks (generateChunk host cx e) !! (x, y, z) = Some b ->
    blocks e !! (x, y, z) = Some b \/
    (z = 0 /\ cx * CHUNK_SIZE <= x <= cx * CHUNK_SIZE + CHUNK_SIZE /\ -4 <= y).
Proof.
  intros Hr. split; [apply generateChunk_keeps|].
  intros x y z b H.
  apply (generateColumns_within host cx (Zrange 0 (CHUNK_SIZE - 1)) e Hr);
    [|exact H].
  apply Forall_forall. intros x' Hx'. apply Zrange_elem in Hx'.
  unfold CHUNK_SIZE in *. lia.
Qed.

(** On a host whose draws are all 0.9 every column gets its stone
    platform: chunk 0 of an empty world then holds a stone block at
    (16, 4, 0), in the first column of chunk 1. *)
Lemma generateChunk_writes_within_witness :
  keeps (fixture true false false)
    (generateChunk stonyHost 0 (fixture true false false)) /\
  bType <$> blocks (generateChunk stonyHost 0 (fixture true false false))
              !! (16, 4, 0) = Some stone.
Proof.
  assert (Hr : unitRandom stonyHost).
  { intros n. cbn. split; [discriminate|reflexivity]. }
  destruct (generateChunk_writes_within stonyHost 0 (fixture true false false)
              Hr) as [H _].
  split; [exact H|]. vm_compute. reflexivity.
Defined.

(** ** The height of the terrain *)

Lemma columnHeight_max (host : Host) (worldX : Z) :
  boundedTrig host -> columnHeight host worldX <= 3.
Proof.
  intros Hb. unfold columnHeight. cbv zeta.
  destruct (Hb (inject_Z worldX * 0.1)%Q) as [[_ Hs] _].
  destruct (Hb (inject_Z worldX * 0.5)%Q) as [_ [_ Hc]].
  assert (H1 : Qfloor (Math_sin host (inject_Z worldX * 0.1) * 2) < 3).
  { apply Qfloor_lt. change (inject_Z 3) with 3%Q. lra. }
  assert (H2 : Qfloor (Math_cos host (inject_Z worldX * 0.5) * 1) < 2).
  { apply Qfloor_lt. change (inject_Z 2) with 2%Q. lra. }
  case_match; lia.
Qed.

Lemma hillHost_boundedTrig : boundedTrig hillHost.
Proof.
  intros a. cbn. split; [|split; discriminate].
  destruct (Qltb a 3.65); [split; discriminate|].
  destruct (Qltb a 3.75); split; discriminate.
Qed.

(** With sine and cosine within [-1, 1] the surface of every column of a
    chunk is between -2 and 3; and, whatever sine and cosine are, after
    [generateChunk] every column of the chunk holds a block at y = -4,
    -3 and -2: the terrain is at least three blocks deep. *)
Theorem columnHeight_bounds (host : Host) (cx x : Z) (e : Engine) :
  0 <= x < CHUNK_SIZE ->
  let worldX := cx * CHUNK_SIZE + x in
  (boundedTrig host -> -2 <= columnHeight host worldX <= 3) /\
  forall y, -4 <= y <= -2 ->
    has (worldX, y, 0) (blocks (generateChunk host cx e)) = true.
Proof.
  intros Hx. cbv zeta. split.
  - intros Hb. split; [apply columnHeight_min|now apply columnHeight_max].
  - intros y Hy. apply has_true. unfold generateChunk.
    apply generateColumns_has.
    + apply Zrange_elem. unfold CHUNK_SIZE in *. lia.
    + pose proof (columnHeight_min host (cx * CHUNK_SIZE + x)). lia.
Qed.

(** On the host with hills, world column 36 (chunk 2, local column 4)
    has the clamped height -2 and column 38 the height 1; both are
    filled from y = -4 to y = -2. *)
Lemma columnHeight_bounds_witness :
  columnHeight hillHost 36 = -2 /\ columnHeight hillHost 38 = 1 /\
  -2 <= columnHeight hillHost (2 * CHUNK_SIZE + 6) <= 3 /\
  has (2 * CHUNK_SIZE + 6, -4, 0)
    (blocks (generateChunk hillHost 2 (fixture true false false))) = true.
Proof.
  assert (Hx : 0 <= 6 < CHUNK_SIZE) by (unfold CHUNK_SIZE; lia).
  destruct (columnHeight_bounds hillHost 2 6 (fixture true false false) Hx)
    as [Hh Hb].
  split; [reflexivity|]. split; [reflexivity|].
  split; [exact (Hh hillHost_boundedTrig)|].
  apply (Hb (-4)). lia.
Defined.

(** ** The X correction and a player at rest *)

(** A player at rest on a flat floor whose box reaches a floor column,
    no key pressed, is moved by every physics step to the right-hand
    side of the rightmost floor column its box reaches: the X correction
    finds the floor row inside the player's box ([floor(0.9 - 0.4) = 0]).
    While the column at x + 0.35 is a floor column the player so moves
    more than 0.2 to the right; once that column is the last one of the
    floor or lies beyond it, the step leaves the player at the end of
    the floor, x = hi + 0.85, and a further step changes nothing.  In
    both cases y stays 0.9 and onGround stays set. *)
Theorem resting_player_slides_to_floor_end (dt : Q) (lo hi : Z) (e : Engine) :
  (0 < dt)%Q -> (dt <= 0.1)%Q ->
  flatFloor lo hi (blocks e) -> r (input e) = 0 ->
  (py e == 0.9)%Q -> (pvx e == 0)%Q -> (pvy e == 0)%Q ->
  onGround (player e) = true ->
  lo <= hi -> lo <= Qfloor (px e + 0.35) -> Qfloor (px e - 0.35) <= hi ->
  let k := Z.min (Qfloor (px e + 0.35)) hi in
  let e' := updatePhysics dt e in
  e' = hitY 0 (hitX k e) /\
  px e' = (inject_Z k + 0.5 + 0.35)%Q /\
  (py e' == 0.9)%Q /\ pvx e' = 0%Q /\ pvy e' = 0%Q /\
  onGround (player e') = true /\
  (Qfloor (px e + 0.35) <= hi -> (px e + 0.2 < px e')%Q) /\
  (hi <= Qfloor (px e + 0.35) -> updatePhysics dt e' = e').
Proof.
  intros Hdt0 Hdt1 Hfloor Hr Hy Hvx Hvy Hg Hlh Hlo Hhi. cbv zeta.
  assert (Hl : landed lo hi (blocks e) e).
  { unfold landed. repeat split; try done.
    exists (Z.max (Qfloor (px e - 0.35)) lo).
    assert (Qfloor (px e - 0.35) <= Qfloor (px e + 0.35))
      by (apply Qfloor_resp_le; lra).
    lia. }
  rewrite (landed_rest dt lo hi (blocks e) Hdt0 Hdt1 Hfloor e Hl).
  set (k := Z.min (Qfloor (px e + 0.35)) hi).
  split; [reflexivity|]. split; [reflexivity|]. split; [reflexivity|].
  split; [reflexivity|]. split; [reflexivity|]. split; [reflexivity|].
  split.
  - intros Hle.
    change (px (hitY 0 (hitX k e))) with (inject_Z k + 0.5 + 0.35)%Q.
    assert (Hk : k = Qfloor (px e + 0.35)) by (unfold k; lia).
    rewrite Hk. pose proof (Qlt_floor (px e + 0.35)) as Hlt.
    rewrite inject_Z_plus in Hlt. change (inject_Z 1) with 1%Q in Hlt. lra.
  - intros Hge.
    assert (Hk : k = hi) by (unfold k; lia).
    rewrite Hk.
    pose proof (landed_step dt lo hi (blocks e) Hdt0 Hdt1 Hfloor e Hl) as Hl'.
    rewrite (landed_rest dt lo hi (blocks e) Hdt0 Hdt1 Hfloor e Hl) in Hl'.
    fold k in Hl'. rewrite Hk in Hl'.
    rewrite (landed_rest dt lo hi (blocks e) Hdt0 Hdt1 Hfloor _ Hl').
    change (px (hitY 0 (hitX hi e))) with (px (hitX hi e)).
    rewrite hitX_floor, hit_collapse. do 2 f_equal. lia.
Qed.

(** On a floor from column -1 to column 1, a player standing at
    x = 0.85 is at x = 1.85 after one step of 0.1 s, the end of the
    floor, and stays there. *)
Lemma resting_player_slides_to_floor_end_witness :
  (px (updatePhysics 0.1 (rested (floorGrid (-1) 1))) == 1.85)%Q /\
  (py (updatePhysics 0.1 (rested (floorGrid (-1) 1))) == 0.9)%Q /\
  updatePhysics 0.1 (updatePhysics 0.1 (rested (floorGrid (-1) 1))) =
    updatePhysics 0.1 (rested (floorGrid (-1) 1)).
Proof.
  assert (Hdt0 : (0 < 0.1)%Q) by reflexivity.
  assert (Hdt1 : (0.1 <= 0.1)%Q) by discriminate.
  assert (Hr : r (input (rested (floorGrid (-1) 1))) = 0) by reflexivity.
  assert (Hy : (py (rested (floorGrid (-1) 1)) == 0.9)%Q) by reflexivity.
  assert (Hvx : (pvx (rested (floorGrid (-1) 1)) == 0)%Q) by reflexivity.
  assert (Hvy : (pvy (rested (floorGrid (-1) 1)) == 0)%Q) by reflexivity.
  assert (Hg : onGround (player (rested (floorGrid (-1) 1))) = true)
    by reflexivity.
  assert (Hlh : -1 <= 1) by lia.
  assert (Hf : Qfloor (px (rested (floorGrid (-1) 1)) + 0.35) = 1)
    by (vm_compute; reflexivity).
  assert (Hlo : -1 <= Qfloor (px (rested (floorGrid (-1) 1)) + 0.35))
    by (rewrite Hf; lia).
  assert (Hhi : Qfloor (px (rested (floorGrid (-1) 1)) - 0.35) <= 1)
    by (vm_compute; discriminate).
  destruct (resting_player_slides_to_floor_end 0.1 (-1) 1
              (rested (floorGrid (-1) 1)) Hdt0 Hdt1 (floorGrid_flat (-1) 1)
              Hr Hy Hvx Hvy Hg Hlh Hlo Hhi)
    as (_ & H1 & H2 & _ & _ & _ & _ & H3).
  split; [rewrite H1, Hf; vm_compute; reflexivity|].
  split; [exact H2|]. apply H3. rewrite Hf. lia.
Defined.

(** ** Before the first lock *)

Section BeforeLock.

Variable host : Host.

Lemma init_blank now :
  init host now =
  animate host now (set_lastTime now (updateChunks host blank)).
Proof. reflexivity. Qed.

Lemma init_fields now :
  active (init host now) = false /\
  player (init host now) = player blank /\
  stats (init host now) = mkStats 0 0 /\
  particles (init host now) = [] /\
  calls (init host now) = [] /\
  framePending (init host now) = true /\
  listeners (init host now) = listeners blank /\
  chunksGenerated (init host now) = chunksGenerated (updateChunks host blank).
Proof.
  rewrite init_blank.
  destruct (updateChunks_rest host blank)
    as (U1 & U2 & U3 & U4 & U5 & U6 & U7 & U8 & U9 & U10 & _).
  revert U1 U2 U3 U4 U5 U6 U7 U8 U9 U10.
  generalize (updateChunks host blank). intros e1.
  intros U1 U2 U3 U4 U5 U6 U7 U8 U9 U10.
  rewrite animate_inactive by exact U8. cbn.
  rewrite U1, U2, U5, U8, U9, U10. done.
Qed.

(** The constructor generates the chunks -1 to 4 and starts no session:
    until [lock()] is called, whatever frames, keys, clicks and mouse
    moves arrive, the player stays at rest at (0, 5, 0), the statistics
    stay zero, no particle exists, no callback other than onUnlock is
    made, and blocks, chunk ledger and random draws stay as the
    constructor left them. *)
Theorem nothing_moves_before_lock (now : Q) (evs : list Event) :
  Forall notLock evs ->
  let e := run host (init host now) evs in
  (forall cx, cx ∈ chunksGenerated (init host now) <-> -1 <= cx <= 4) /\
  active e = false /\
  player e = mkPlayer (vec3 0 5 0) (vec3 0 0 0) false false /\
  stats e = mkStats 0 0 /\ particles e = [] /\ deaths e = 0%nat /\
  blocks e = blocks (init host now) /\
  chunksGenerated e = chunksGenerated (init host now) /\
  randomCalls e = randomCalls (init host now).
Proof.
  intros Hevs. cbv zeta.
  destruct (init_fields now) as (I1 & I2 & I3 & I4 & I5 & _ & _ & I8).
  destruct (run_inactive host evs (init host now) I1 Hevs)
    as (R1 & R2 & R3 & R4 & R5 & R6 & R7 & R8).
  split.
  - intros cx. rewrite I8, updateChunks_ledger.
    rewrite elem_of_union, elem_of_list_to_set, chunkWindow_range.
    change (playerChunkX blank) with 0. unfold VIEW_DISTANCE.
    change (chunksGenerated blank) with (∅ : gset Z).
    rewrite elem_of_empty. lia.
  - rewrite R1, R2, R3, R4, R5, R6, R7, R8, I2, I3, I4.
    unfold deaths. rewrite I5. done.
Qed.

End BeforeLock.

Lemma nothing_moves_before_lock_witness :
  active (run flatHost (init flatHost 0) earlyEvents) = false /\
  player (run flatHost (init flatHost 0) earlyEvents) =
    mkPlayer (vec3 0 5 0) (vec3 0 0 0) false false /\
  stats (run flatHost (init flatHost 0) earlyEvents) = mkStats 0 0.
Proof.
  assert (Hev : Forall notLock earlyEvents) by (repeat constructor).
  pose proof (nothing_moves_before_lock flatHost 0 earlyEvents Hev) as H.
  cbv zeta in H. destruct H as (_ & H1 & H2 & H3 & _).
  split; [exact H1|]. split; [exact H2|exact H3].
Defined.

(** ** After disposal *)

Section Disposed.

Variable host : Host.

Lemma handleJump_rest e :
  let e' := handleJump host e in
  position (player e') = position (player e) /\ stats e' = stats e /\
  chunksGenerated e' = chunksGenerated e /\ blocks e' = blocks e /\
  framePending e' = framePending e /\ listeners e' = listeners e /\
  input e' = input e.
Proof.
  cbv zeta. unfold handleJump. destruct (negb (active e)); [done|].
  destruct (onGround (player e)); [done|].
  destruct (canDoubleJump (player e)); [|done].
  rewrite spawnParticles_eq. done.
Qed.

Lemma onKey_rest code v e :
  let e' := onKey host code v e in
  position (player e') = position (player e) /\ stats e' = stats e /\
  chunksGenerated e' = chunksGenerated e /\ blocks e' = blocks e /\
  framePending e' = framePending e /\ listeners e' = listeners e.
Proof.
  cbv zeta. destruct code, v; try done.
  cbn [onKey]. destruct (handleJump_rest e) as (? & ? & ? & ? & ? & ? & _).
  done.
Qed.

Lemma destroyBlock_rest e :
  let e' := destroyBlock host e in
  position (player e') = position (player e) /\
  time (stats e') = time (stats e) /\
  chunksGenerated e' = chunksGenerated e /\ addsNothing e e' /\
  framePending e' = framePending e /\ listeners e' = listeners e.
Proof.
  cbv zeta. rewrite destroyBlock_aim.
  assert (Hrefl : addsNothing e e) by (intros k b H; exact H).
  destruct (negb (active e)); [done|].
  destruct (aim host e) as [|hit rest]; [done|].
  destruct (Qltb _ _); [|done]. unfold destroyed. cbn.
  repeat split. intros k b H. cbn in H.
  now apply lookup_delete_Some in H as [_ H].
Qed.

Lemma noFrameSince_trans e1 e2 e3 :
  noFrameSince e1 e2 -> noFrameSince e2 e3 -> noFrameSince e1 e3.
Proof.
  intros (A1 & A2 & A3 & A4 & A5 & A6) (B1 & B2 & B3 & B4 & B5 & B6).
  unfold noFrameSince. rewrite B2, B3, B4.
  repeat split; try assumption.
  - intros k b H. apply A5, B5, H.
  - intros l H. apply A6, B6, H.
Qed.

Lemma step_noFrame e ev :
  framePending e = false -> noFrameSince e (step host e ev).
Proof.
  intros Hf. unfold noFrameSince.
  assert (Hrefl : addsNothing e e) by (intros k b H; exact H).
  destruct ev as [now|code|code| |dx dy| | |now| ]; cbn [step].
  - rewrite Hf. done.
  - destruct (registered L_keydown e); [|done].
    destruct (onKey_rest code true e) as (K1 & K2 & K3 & K4 & K5 & K6).
    rewrite K1, K2, K3, K5, K6. repeat split; try done.
    intros k b. now rewrite K4.
  - destruct (registered L_keyup e); [|done].
    destruct (onKey_rest code false e) as (K1 & K2 & K3 & K4 & K5 & K6).
    rewrite K1, K2, K3, K5, K6. repeat split; try done.
    intros k b. now rewrite K4.
  - destruct (registered L_mousedown e); [|done].
    destruct (destroyBlock_rest e) as (K1 & K2 & K3 & K4 & K5 & K6).
    rewrite K1, K2, K3, K5, K6. done.
  - destruct (registered L_mousemove e); [|done].
    unfold onMouseMove. destruct (negb (active e)); done.
  - done.
  - destruct (registered L_unlock e); done.
  - done.
  - unfold dispose. cbn. repeat split; try done.
    intros l Hl. now apply list_elem_of_filter in Hl as [_ Hl].
Qed.

Lemma run_noFrame evs : forall e,
  framePending e = false -> noFrameSince e (run host e evs).
Proof.
  induction evs as [|ev evs IH]; intros e Hf.
  - unfold noFrameSince. cbn [run fold_left].
    split; [exact Hf|]. split; [reflexivity|]. split; [reflexivity|].
    split; [reflexivity|]. split; [intros k b H; exact H|].
    intros l H. exact H.
  - change (run host e (ev :: evs)) with (run host (step host e ev) evs).
    pose proof (step_noFrame e ev Hf) as H1.
    eapply noFrameSince_trans; [exact H1|]. apply IH. apply H1.
Qed.

(** [dispose()] stops the frame loop for good: on a disposed engine,
    whatever events arrive, no frame is pending again, the player's
    position, the elapsed time and the chunk ledger do not change, no
    block is generated and the resize listener is not registered again.
    (Keys and clicks are still handled: velocity, particles, score and
    blocks can change.) *)
Theorem dispose_stops_the_frame_loop (e : Engine) (evs : list Event) :
  let e' := run host (dispose e) evs in
  framePending e' = false /\
  position (player e') = position (player e) /\
  time (stats e') = time (stats e) /\
  chunksGenerated e' = chunksGenerated e /\
  addsNothing e e' /\
  (L_resize ∉ listeners e').
Proof.
  cbv zeta.
  destruct (run_noFrame evs (dispose e) eq_refl)
    as (H1 & H2 & H3 & H4 & H5 & H6).
  split; [exact H1|]. split; [exact H2|]. split; [exact H3|].
  split; [exact H4|]. split; [exact H5|].
  intros Hin. apply H6 in Hin. unfold dispose in Hin. cbn in Hin.
  apply list_elem_of_filter in Hin as [Hne _]. now apply Hne.
Qed.

End Disposed.

(** ** The lateral intent and the keys *)

Lemma registered_set_input l i e :
  registered l (set_input i e) = registered l e.
Proof. reflexivity. Qed.

(** The lateral intent follows the last lateral key event alone: pressed
    it is -1 or 1, released it is 0, whatever other key is still held.
    With A held and D pressed after it, releasing either of the two
    leaves the intent at 0. *)
Theorem lateral_intent_follows_last_key (host : Host) (e : Engine) :
  registered L_keydown e = true -> registered L_keyup e = true ->
  (forall code, lateralKey code = true ->
     r (input (step host e (Keyup code))) = 0) /\
  r (input (run host e [Keydown KeyA; Keydown KeyD])) = 1 /\
  r (input (run host e [Keydown KeyA; Keydown KeyD; Keyup KeyD])) = 0 /\
  r (input (run host e [Keydown KeyA; Keydown KeyD; Keyup KeyA])) = 0.
Proof.
  intros Hd Hu. split.
  - intros code Hc. cbn [step]. rewrite Hu. now destruct code.
  - unfold run. cbn [fold_left step]. rewrite Hd. cbn [onKey].
    rewrite !registered_set_input, Hd. cbn [onKey].
    rewrite !registered_set_input, Hu. cbn [onKey]. done.
Qed.

Lemma lateral_intent_follows_last_key_witness :
  r (input (run flatHost (perched 0) [Keydown KeyA; Keydown KeyD])) = 1 /\
  r (input (run flatHost (perched 0)
              [Keydown KeyA; Keydown KeyD; Keyup KeyD])) = 0.
Proof.
  destruct (lateral_intent_follows_last_key flatHost (perched 0))
    as (_ & H1 & H2 & _); [reflexivity|reflexivity|].
  split; [exact H1|exact H2].
Defined.

(** ** The engine's callbacks and the application *)

Section Application.

Variable host : Host.

Lemma updateStats_calls delta e :
  calls (updateStats delta e) =
  calls e ++ [onStatsUpdate (stats (updateStats delta e))].
Proof. reflexivity. Qed.

Lemma updateCamera_calls delta ps e :
  calls (updateCamera delta (set_particles ps e)) = calls e.
Proof. reflexivity. Qed.

Lemma animate_listeners now e :
  listeners (animate host now e) = listeners e.
Proof.
  destruct (active e) eqn:Ha.
  - rewrite animate_active by exact Ha.
    destruct (simulate_fields host (frameDelta now e)
                (set_lastTime now (set_framePending true e)))
      as (_ & _ & -> & _).
    reflexivity.
  - now rewrite animate_inactive.
Qed.

(** The callbacks of the frame in which the player falls below -10:
    onDeath, then the statistics report of that frame. *)
Lemma death_frame_calls now e :
  active e = true -> (py (animate host now e) < -10)%Q ->
  calls (animate host now e) =
  calls e ++ [onDeath; onStatsUpdate (stats (animate host now e))].
Proof.
  intros Ha Hy. unfold py in Hy. rewrite animate_player, Ha in Hy.
  rewrite animate_active by exact Ha.
  set (e1 := set_lastTime now (set_framePending true e)) in *.
  set (d := frameDelta now e) in *.
  unfold simulate. cbv zeta. rewrite updateStats_calls.
  change (calls e ++ [onDeath; ?c]) with (calls e ++ [onDeath] ++ [c]).
  rewrite app_assoc. f_equal.
  match goal with |- context [updateChunks host ?x] =>
    destruct (updateChunks_rest host x)
      as (_ & _ & _ & _ & _ & _ & _ & _ & -> & _) end.
  rewrite updateCamera_calls.
  rewrite <- (updatePhysics_player d e1) in Hy.
  destruct (updatePhysics_changes_player_only d e1)
    as (_ & _ & _ & _ & _ & _ & _ & _ & _ & _ & _ & [(_ & _ & -> & _)|(Hn & _)]).
  - reflexivity.
  - now destruct Hn.
Qed.

(** When the player falls to death during play, the application receives
    onDeath, the statistics of that frame, and then, pointer lock being
    released, onUnlock: it ends in GAME_OVER showing those statistics,
    the unlock not turning the game over into a pause.  An unlock alone
    pauses (MENU); starting again after GAME_OVER resets the statistics
    and takes a new gameId (a new engine), starting from MENU keeps
    both. *)
Theorem death_then_unlock_is_game_over (e : Engine) (now : Q) (a : App) :
  active e = true -> framePending e = true -> registered L_unlock e = true ->
  (py (animate host now e) < -10)%Q -> gameState a = PLAYING ->
  let e' := run host e [AnimationFrame now; PointerUnlock] in
  let s := stats (animate host now e) in
  calls e' = calls e ++ [onDeath; onStatsUpdate s; onUnlock] /\
  fold_left deliver [onDeath; onStatsUpdate s; onUnlock] a =
    mkApp GAME_OVER s (gameId a) /\
  fold_left deliver [onUnlock] a = mkApp MENU (appStats a) (gameId a) /\
  startGame (mkApp GAME_OVER s (gameId a)) =
    mkApp PLAYING (mkStats 0 0) (S (gameId a)) /\
  startGame (mkApp MENU (appStats a) (gameId a)) =
    mkApp PLAYING (appStats a) (gameId a).
Proof.
  intros Ha Hf Hu Hy Hg. cbv zeta. split.
  - unfold run. cbn [fold_left step]. rewrite Hf.
    unfold registered in *. rewrite animate_listeners, Hu.
    unfold onUnlockEvent, callback.
    cbn [calls set_calls set_active].
    rewrite (death_frame_calls now e Ha Hy), <- app_assoc. reflexivity.
  - destruct a as [g st id]. cbn in Hg. subst g. cbn. done.
Qed.

End Application.

Lemma death_then_unlock_is_game_over_witness :
  fold_left deliver
    (calls (run flatHost falling [AnimationFrame 100; PointerUnlock]))
    (mkApp PLAYING (mkStats 0 0) 0) =
  mkApp GAME_OVER (stats (animate flatHost 100 falling)) 0.
Proof.
  assert (Hy : (py (animate flatHost 100 falling) < -10)%Q)
    by (vm_compute; reflexivity).
  pose proof (death_then_unlock_is_game_over flatHost falling 100
                (mkApp PLAYING (mkStats 0 0) 0)
                eq_refl eq_refl eq_refl Hy eq_refl) as H.
  cbv zeta in H. destruct H as (H1 & H2 & _).
  rewrite H1. exact H2.
Defined.

(** ** Which cell decides a collision *)

Section LastCell.

Local Arguments put : simpl never.
Local Arguments has : simpl never.

Lemma collideCell_blocks axis e c : blocks (collideCell axis e c) = blocks e.
Proof. now rewrite (collideCell_playerOnly axis e c). Qed.

Lemma collide_filter axis l : forall e,
  fold_left (collideCell axis) l e =
  fold_left (collideCell axis)
    (List.filter (fun c => has (fst c, snd c, 0) (blocks e)) l) e.
Proof.
  induction l as [|[x y] l IH]; intros e; [reflexivity|].
  cbn [List.filter fst snd fold_left].
  destruct (has (x, y, 0) (blocks e)) eqn:Hh.
  - cbn [fold_left]. rewrite IH, collideCell_blocks. reflexivity.
  - assert (Hc : collideCell axis e (x, y) = e).
    { unfold collideCell. now rewrite Hh. }
    rewrite Hc. apply IH.
Qed.

Lemma collideCell_still axis e c :
  has (fst c, snd c, 0) (blocks e) = true -> still axis e ->
  collideCell axis e c = hitOf axis c e.
Proof.
  destruct c as [x y]. cbn [fst snd]. intros Hh Hs. destruct axis.
  - rewrite collideCell_X by exact Hs. now rewrite Hh.
  - rewrite collideCell_Y by exact Hs. now rewrite Hh.
Qed.

Lemma collideCell_first axis e c :
  has (fst c, snd c, 0) (blocks e) = true ->
  still axis (collideCell axis e c) /\
  forall c', hitOf axis c' (collideCell axis e c) = hitOf axis c' e.
Proof.
  destruct c as [x y]. cbn [fst snd]. intros Hh.
  unfold collideCell. rewrite Hh. destruct axis.
  - split; [cbn; lra|]. intros c'. reflexivity.
  - destruct (Qgtb _ _); (split; [cbn; lra|]); intros c'; reflexivity.
Qed.

Lemma hitOf_still axis c e : still axis (hitOf axis c e).
Proof. destruct axis; [apply hitX_still|apply hitY_still]. Qed.

Lemma hitOf_hitOf axis c c' e :
  hitOf axis c' (hitOf axis c e) = hitOf axis c' e.
Proof. now destruct axis. Qed.

Lemma collide_hits axis l : forall e c,
  Forall (fun c' => has (fst c', snd c', 0) (blocks e) = true) (c :: l) ->
  still axis e ->
  exists c', last (c :: l) = Some c' /\
             fold_left (collideCell axis) (c :: l) e = hitOf axis c' e.
Proof.
  induction l as [|c1 l IH]; intros e c Hall Hs.
  - exists c. split; [reflexivity|]. cbn [fold_left].
    apply collideCell_still; [|exact Hs].
    now apply Forall_cons in Hall as [H _].
  - apply Forall_cons in Hall as [Hc Hall].
    change (fold_left (collideCell axis) (c :: c1 :: l) e)
      with (fold_left (collideCell axis) (c1 :: l) (collideCell axis e c)).
    rewrite (collideCell_still axis e c Hc Hs).
    destruct (IH (hitOf axis c e) c1) as (c' & Hlast & ->).
    + destruct axis; exact Hall.
    + apply hitOf_still.
    + exists c'. split; [exact Hlast|]. apply hitOf_hitOf.
Qed.

Lemma occupied_Forall e :
  Forall (fun c => has (fst c, snd c, 0) (blocks e) = true) (occupied e).
Proof.
  unfold occupied. apply Forall_forall. intros c Hc.
  apply list_elem_of_In, filter_In in Hc as [_ Hc]. exact Hc.
Qed.

(** [checkCollision] is decided by the occupied cells its loops visit:
    with none, nothing changes; with exactly one, that cell is resolved
    by the sign of the velocity; with two or more, the sign decides the
    first only, which zeroes the velocity, and the outcome is the
    correction of the last one in the branch for a body that is not
    moving in the positive direction: on X the player ends on the
    right-hand side of the last block (x + 0.85), on Y on top of it
    (y + 0.9) with onGround set, even when it was moving right or
    rising. *)
Theorem collision_last_cell_wins (axis : Axis) (e : Engine) :
  (occupied e = [] -> checkCollision axis e = e) /\
  (forall c, occupied e = [c] ->
     checkCollision axis e = collideCell axis e c) /\
  (forall c, (2 <= length (occupied e))%nat -> last (occupied e) = Some c ->
     checkCollision axis e = hitOf axis c e).
Proof.
  rewrite checkCollision_cells, collide_filter. fold (occupied e).
  pose proof (occupied_Forall e) as Hall. revert Hall.
  generalize (occupied e). intros l Hall.
  split; [|split].
  - intros ->. reflexivity.
  - intros c ->. reflexivity.
  - intros c Hlen Hlast. destruct l as [|c0 [|c1 l]]; [cbn in Hlen; lia..|].
    apply Forall_cons in Hall as [H0 Hall].
    change (fold_left (collideCell axis) (c0 :: c1 :: l) e)
      with (fold_left (collideCell axis) (c1 :: l) (collideCell axis e c0)).
    destruct (collideCell_first axis e c0 H0) as [Hs Hh].
    destruct (collide_hits axis l (collideCell axis e c0) c1) as (c' & Hl & ->).
    + now rewrite collideCell_blocks.
    + exact Hs.
    + change (last (c0 :: c1 :: l)) with (last (c1 :: l)) in Hlast.
      rewrite Hl in Hlast. injection Hlast as ->. apply Hh.
Qed.

End LastCell.

(** A player rising under the joint of a two-block ceiling overlaps both
    blocks: the Y correction stops it at the first and then puts it on
    top of the second, at y = 2.9 with onGround set. *)
Lemma collision_last_cell_wins_witness :
  occupied underCeiling = [(0, 2); (1, 2)] /\
  (0 < pvy underCeiling)%Q /\
  checkCollision AxisY underCeiling = hitY 2 underCeiling /\
  (py (checkCollision AxisY underCeiling) == 2.9)%Q /\
  onGround (player (checkCollision AxisY underCeiling)) = true.
Proof.
  assert (Hocc : occupied underCeiling = [(0, 2); (1, 2)])
    by (vm_compute; reflexivity).
  destruct (collision_last_cell_wins AxisY underCeiling) as (_ & _ & H).
  assert (Hc : checkCollision AxisY underCeiling = hitY 2 underCeiling).
  { apply (H (1, 2)); rewrite Hocc; [cbn; lia|reflexivity]. }
  split; [exact Hocc|]. split; [reflexivity|]. split; [exact Hc|].
  rewrite Hc. split; reflexivity.
Defined.
